(** * ogs-fetch: a shallow embedding of [ogs-fetch.py]

    The script mirrors a player's game history from the OGS REST API into a
    per-user JSON index and one SGF file per game.  This development embeds
    the script function by function and checks the properties its
    specification states.

    Conventions of the embedding.
    - A Python value that comes out of JSON is a [pyval].  A Python [str] is a
      Rocq [string] whose characters are the code points 0..255; a float is
      kept as the text it was read from.
    - A computation ends in an [outcome]: a value, a raised exception, or
      [OutOfFuel] where the embedding stops following the script: an
      unbounded loop or recursion was cut, or a value left what the embedding
      expresses (a character above code point 255).  [OutOfFuel] says
      nothing about what the script does.
    - Stateful code is a function [world -> outcome A * world]; the world holds
      the file system, the remote server, the log of the requests sent, the
      monotonic clock and the time since the last call of [throttled_get]
      (in milliseconds) and the pending keyboard interrupt.
      The state after a raised exception is kept: what was written stays.
    - The [print] calls only write to the terminal and are left out. *)

From Stdlib Require Import ZArith Ascii String List.
From stdpp Require Import base option list gmap strings pretty.

Local Open Scope Z_scope.
Local Open Scope string_scope.

(** ** Exceptions *)

Inductive exn : Type :=
| KeyError (key : string)
| TypeError
| AttributeError
| ValueError
| OverflowError
| JSONDecodeError          (* json.JSONDecodeError, a ValueError *)
| FileNotFoundError
| PermissionError
| FileExistsError
| IsADirectoryError
| NotADirectoryError
| HTTPError (status : Z)   (* requests.exceptions.HTTPError *)
| ResponseDecodeError      (* requests.exceptions.JSONDecodeError *)
| InvalidURL               (* requests.exceptions: MissingSchema, InvalidSchema, InvalidURL *)
| RuntimeError
| UnboundLocalError (var : string)
| KeyboardInterrupt.

(** [isinstance(e, IOError)]: [IOError] is [OSError]; the exceptions of
    [requests] derive from it as well. *)
Definition is_IOError (e : exn) : bool :=
  match e with
  | FileNotFoundError | PermissionError | FileExistsError => true
  | IsADirectoryError | NotADirectoryError => true
  | HTTPError _ | ResponseDecodeError | InvalidURL => true
  | _ => false
  end.

(** [isinstance(e, NameError)]: [UnboundLocalError] is its only subclass. *)
Definition is_NameError (e : exn) : bool :=
  match e with
  | UnboundLocalError _ => true
  | _ => false
  end.

Inductive outcome (A : Type) : Type :=
| Ret (a : A)
| Raise (e : exn)
| OutOfFuel.

Arguments Ret {A} a.
Arguments Raise {A} e.
Arguments OutOfFuel {A}.

Definition obind {A B} (c : outcome A) (k : A -> outcome B) : outcome B :=
  match c with
  | Ret a => k a
  | Raise e => Raise e
  | OutOfFuel => OutOfFuel
  end.

Notation "'let?' x ':=' c 'in' k" := (obind c (fun x => k))
  (at level 10, x pattern, c at level 100, k at level 200).

(** ** Python values *)

#[warnings="-register-all"]
Inductive pyval : Type :=
| PNone
| PBool (b : bool)
| PInt (z : Z)
| PFloat (literal : string)   (* a number with a fraction or an exponent, kept as written *)
| PStr (s : string)
| PList (items : list pyval)
| PDict (pairs : list (string * pyval)).

Fixpoint assoc {A} (k : string) (kvs : list (string * A)) : option A :=
  match kvs with
  | [] => None
  | (k', v) :: rest => if String.eqb k k' then Some v else assoc k rest
  end.

(** [d[key]] for a string key. *)
Definition getitem (d : pyval) (key : string) : outcome pyval :=
  match d with
  | PDict kvs =>
      match assoc key kvs with
      | Some v => Ret v
      | None => Raise (KeyError key)
      end
  | _ => Raise TypeError
  end.

Fixpoint chars (s : string) : list ascii :=
  match s with
  | EmptyString => []
  | String c s' => c :: chars s'
  end.

Definition str1 (c : ascii) : string := String c EmptyString.

(** [iter(v)]: the items a [for] loop over [v] goes through. *)
Definition py_iter (v : pyval) : outcome (list pyval) :=
  match v with
  | PStr s => Ret (map (fun c => PStr (str1 c)) (chars s))
  | PList items => Ret items
  | PDict kvs => Ret (map (fun kv => PStr (fst kv)) kvs)
  | _ => Raise TypeError
  end.

(** ** sanitize_name *)

Definition between (lo hi n : N) : bool := ((lo <=? n) && (n <=? hi))%N.

(** [c.isalnum()] for one character, on the code points 0..255. *)
Definition isalnum_char (c : ascii) : bool :=
  let n := N_of_ascii c in
  between 48 57 n || between 65 90 n || between 97 122 n
  || (n =? 170)%N || (n =? 178)%N || (n =? 179)%N || (n =? 181)%N
  || (n =? 185)%N || (n =? 186)%N || between 188 190 n
  || between 192 214 n || between 216 246 n || between 248 255 n.

(** [s.isalnum()]: every character is alphanumeric and there is at least one. *)
Definition isalnum (s : string) : bool :=
  match s with
  | EmptyString => false
  | _ => forallb isalnum_char (chars s)
  end.

(** The condition of the generator expression,
    [c.isalnum() or c in (' ', '_')], for an item that is a [str]. *)
Definition keeps (c : string) : bool :=
  isalnum c || String.eqb c " " || String.eqb c "_".

(** [''.join(c for c in cs if keeps c)]; an item that is not a [str] has no
    [isalnum] method. *)
Fixpoint join_kept (cs : list pyval) : outcome string :=
  match cs with
  | [] => Ret ""
  | PStr c :: rest =>
      let? tail := join_kept rest in
      Ret (if keeps c then c +:+ tail else tail)
  | _ :: _ => Raise AttributeError
  end.

Definition sanitize_name (name : pyval) : outcome string :=
  let? cs := py_iter name in
  join_kept cs.

(** ** The records *)

Module Player.
(** The annotations [str] and [int] are not enforced: a field holds whatever
    value it was given. *)
Record t : Type := mk { name : pyval; rank : pyval }.

Definition from_dict (dict : pyval) : outcome t :=
  let? n := getitem dict "name" in
  let? r := getitem dict "rank" in
  Ret (mk n r).

Definition from_api_dict (dict : pyval) : outcome t :=
  let? u := getitem dict "username" in
  let? n := sanitize_name u in
  let? r := getitem dict "ranking" in
  Ret (mk (PStr n) r).

Definition set_rank (p : t) (r : pyval) : t := mk (name p) r.
End Player.

(** [d[k1][k2]...] *)
Fixpoint getpath (d : pyval) (keys : list string) : outcome pyval :=
  match keys with
  | [] => Ret d
  | k :: rest => let? v := getitem d k in getpath v rest
  end.

Module GameInfo.
(** [id] is whatever the dict holds; [name] comes out of [sanitize_name], a
    [str]. *)
Record t : Type := mk { id : pyval; name : string; white : Player.t; black : Player.t }.

Definition from_dict (dict : pyval) : outcome t :=
  let? i := getitem dict "id" in
  let? n := getitem dict "name" in
  let? n := sanitize_name n in
  let? w := getitem dict "white" in
  let? w := Player.from_dict w in
  let? b := getitem dict "black" in
  let? b := Player.from_dict b in
  Ret (mk i n w b).

Definition from_api_dict (dict : pyval) : outcome t :=
  let? i := getitem dict "id" in
  let? n := getitem dict "name" in
  let? n := sanitize_name n in
  let? w := getpath dict ["players"; "white"] in
  let? w := Player.from_api_dict w in
  let? b := getpath dict ["players"; "black"] in
  let? b := Player.from_api_dict b in
  let game := mk i n w b in
  let? wr := getpath dict ["historical_ratings"; "white"; "ratings"; "overall"; "rating"] in
  let game := mk (id game) (name game) (Player.set_rank (white game) wr) (black game) in
  let? br := getpath dict ["historical_ratings"; "black"; "ratings"; "overall"; "rating"] in
  let game := mk (id game) (name game) (white game) (Player.set_rank (black game) br) in
  Ret game.
End GameInfo.

(** ** The [json] module

    [dumps] and [loads] with the defaults the script uses ([ensure_ascii], the
    separators [", "] and [": "], strict strings).  The text is over the code
    points 0..255.  A [\u] escape above [00ff] stands for a character the
    embedding has not: the decoder reads on with a mark in its place when it
    is [wide], and [loads] gives no answer for a document that reads only so. *)

Module json.

Definition dquote : ascii := ascii_of_N 34.

Definition hex_digit (n : N) : ascii :=
  ascii_of_N (if (n <? 10)%N then 48 + n else 87 + n)%N.

(** [\u00xy] for a code point below 256. *)
Definition u_escape (c : ascii) : string :=
  let n := N_of_ascii c in
  "\u00" +:+ str1 (hex_digit (n / 16)) +:+ str1 (hex_digit (n mod 16)).

Definition escape_char (c : ascii) : string :=
  let n := N_of_ascii c in
  if (n =? 34)%N then "\" +:+ str1 dquote else
  if (n =? 92)%N then "\\" else
  if (n =? 8)%N then "\b" else
  if (n =? 12)%N then "\f" else
  if (n =? 10)%N then "\n" else
  if (n =? 13)%N then "\r" else
  if (n =? 9)%N then "\t" else
  if between 32 126 n then str1 c else u_escape c.

Fixpoint escape (s : string) : string :=
  match s with
  | EmptyString => ""
  | String c rest => escape_char c +:+ escape rest
  end.

Definition quote (s : string) : string := str1 dquote +:+ escape s +:+ str1 dquote.

Fixpoint sep_by (sep : string) (parts : list string) : string :=
  match parts with
  | [] => ""
  | [p] => p
  | p :: rest => p +:+ sep +:+ sep_by sep rest
  end.

Fixpoint dumps (v : pyval) : string :=
  match v with
  | PNone => "null"
  | PBool true => "true"
  | PBool false => "false"
  | PInt z => pretty z
  | PFloat literal => literal
  | PStr s => quote s
  | PList items => "[" +:+ sep_by ", " (map dumps items) +:+ "]"
  | PDict pairs =>
      "{" +:+ sep_by ", " (map (fun kv => quote (fst kv) +:+ ": " +:+ dumps (snd kv)) pairs) +:+ "}"
  end.

(** *** The decoder *)

Definition is_ws (c : ascii) : bool :=
  let n := N_of_ascii c in
  (n =? 32)%N || (n =? 9)%N || (n =? 10)%N || (n =? 13)%N.

Fixpoint skip_ws (s : string) : string :=
  match s with
  | String c rest => if is_ws c then skip_ws rest else s
  | EmptyString => s
  end.

Definition is_digit (c : ascii) : bool := between 48 57 (N_of_ascii c).

(** The longest run of digits at the start of [s], and what follows it. *)
Fixpoint span_digits (s : string) : string * string :=
  match s with
  | String c rest =>
      if is_digit c
      then let '(d, r) := span_digits rest in (String c d, r)
      else ("", s)
  | EmptyString => ("", "")
  end.

Definition decimal (d : string) : Z :=
  fold_left (fun acc c => 10 * acc + (Z.of_N (N_of_ascii c) - 48)) (chars d) 0.

(** The number pattern of the decoder, group by group: an optional minus
    and an integer part without leading zeros, then an optional fraction,
    then an optional exponent.  A group that does not match in full is
    left unread. *)
Definition scan_int (s : string) : option (string * string) :=
  match s with
  | String c rest =>
      if Ascii.eqb c "0" then Some ("0", rest)
      else if is_digit c
           then let '(d, r) := span_digits rest in Some (String c d, r)
           else None
  | EmptyString => None
  end.

Definition scan_frac (s : string) : string * string :=
  match s with
  | String c rest =>
      if Ascii.eqb c "."
      then match span_digits rest with
           | (EmptyString, _) => ("", s)
           | (d, r) => (String c d, r)
           end
      else ("", s)
  | EmptyString => ("", s)
  end.

Definition scan_sign (s : string) : string * string :=
  match s with
  | String c rest =>
      if Ascii.eqb c "+" || Ascii.eqb c "-" then (str1 c, rest) else ("", s)
  | EmptyString => ("", s)
  end.

Definition scan_exp (s : string) : string * string :=
  match s with
  | String c rest =>
      if Ascii.eqb c "e" || Ascii.eqb c "E"
      then let '(sign, rest') := scan_sign rest in
           match span_digits rest' with
           | (EmptyString, _) => ("", s)
           | (d, r) => (String c (sign +:+ d), r)
           end
      else ("", s)
  | EmptyString => ("", s)
  end.

Definition scan_number (s : string) : option (pyval * string) :=
  let '(neg, s1) :=
    match s with
    | String c rest => if Ascii.eqb c "-" then (true, rest) else (false, s)
    | EmptyString => (false, s)
    end in
  match scan_int s1 with
  | None => None
  | Some (i, s2) =>
      let '(f, s3) := scan_frac s2 in
      let '(e, s4) := scan_exp s3 in
      if String.eqb f "" && String.eqb e ""
      then Some (PInt (if neg then - decimal i else decimal i), s4)
      else Some (PFloat ((if neg then "-" else "") +:+ i +:+ f +:+ e), s4)
  end.

Definition hex_value (c : ascii) : option N :=
  let n := N_of_ascii c in
  if between 48 57 n then Some (n - 48)%N
  else if between 97 102 n then Some (n - 87)%N
  else if between 65 70 n then Some (n - 55)%N
  else None.

Definition hex4 (a b c d : ascii) : option N :=
  match hex_value a, hex_value b, hex_value c, hex_value d with
  | Some x, Some y, Some z, Some w => Some (((x * 16 + y) * 16 + z) * 16 + w)%N
  | _, _, _, _ => None
  end.

(** The character a one-letter escape stands for. *)
Definition unescape (e : ascii) : option ascii :=
  let n := N_of_ascii e in
  if (n =? 34)%N || (n =? 92)%N || (n =? 47)%N then Some e
  else if Ascii.eqb e "b" then Some (ascii_of_N 8)
  else if Ascii.eqb e "f" then Some (ascii_of_N 12)
  else if Ascii.eqb e "n" then Some (ascii_of_N 10)
  else if Ascii.eqb e "r" then Some (ascii_of_N 13)
  else if Ascii.eqb e "t" then Some (ascii_of_N 9)
  else None.

Definition cons_char (c : ascii) (r : option (string * string)) : option (string * string) :=
  match r with
  | Some (str, rest) => Some (String c str, rest)
  | None => None
  end.

(** The body of a string, from just after its opening quote.  When [wide],
    a character above code point 255 is read as a question mark. *)
Fixpoint scan_string (wide : bool) (s : string) : option (string * string) :=
  match s with
  | EmptyString => None
  | String c rest =>
      let n := N_of_ascii c in
      if (n =? 34)%N then Some ("", rest)
      else if (n =? 92)%N then
        match rest with
        | String e rest' =>
            if Ascii.eqb e "u" then
              match rest' with
              | String h1 (String h2 (String h3 (String h4 r))) =>
                  match hex4 h1 h2 h3 h4 with
                  | Some code =>
                      if (code <? 256)%N
                      then cons_char (ascii_of_N code) (scan_string wide r)
                      else if wide then cons_char "?" (scan_string wide r)
                      else None
                  | None => None
                  end
              | _ => None
              end
            else
              match unescape e with
              | Some c' => cons_char c' (scan_string wide rest')
              | None => None
              end
        | EmptyString => None
        end
      else if (n <? 32)%N then None
      else cons_char c (scan_string wide rest)
  end.

(** [d[k] = v] on the pairs of a dict: a key that is there keeps its place. *)
Fixpoint dict_set (k : string) (v : pyval) (kvs : list (string * pyval)) : list (string * pyval) :=
  match kvs with
  | [] => [(k, v)]
  | (k', v') :: rest =>
      if String.eqb k k' then (k, v) :: rest else (k', v') :: dict_set k v rest
  end.

Definition strip_prefix (p s : string) : option string :=
  if String.prefix p s
  then Some (String.substring (String.length p) (String.length s - String.length p) s)
  else None.

Definition literal (s : string) : option (pyval * string) :=
  match strip_prefix "null" s with Some r => Some (PNone, r) | None =>
  match strip_prefix "true" s with Some r => Some (PBool true, r) | None =>
  match strip_prefix "false" s with Some r => Some (PBool false, r) | None =>
  match scan_number s with Some res => Some res | None =>
  match strip_prefix "NaN" s with Some r => Some (PFloat "NaN", r) | None =>
  match strip_prefix "Infinity" s with Some r => Some (PFloat "Infinity", r) | None =>
  match strip_prefix "-Infinity" s with Some r => Some (PFloat "-Infinity", r) | None =>
  None end end end end end end end.

(** One value at the very start of [s] ([scan_once]); [parse_items] and
    [parse_members] start at the first item of an array and at the first
    key of an object. *)
Fixpoint parse_value (wide : bool) (fuel : nat) (s : string) : option (pyval * string) :=
  match fuel with
  | O => None
  | S fuel' =>
      match s with
      | EmptyString => None
      | String c rest =>
          if Ascii.eqb c dquote then
            match scan_string wide rest with
            | Some (str, r) => Some (PStr str, r)
            | None => None
            end
          else if Ascii.eqb c "{" then
            match skip_ws rest with
            | String c' r =>
                if Ascii.eqb c' "}" then Some (PDict [], r)
                else parse_members wide fuel' (String c' r) []
            | EmptyString => None
            end
          else if Ascii.eqb c "[" then
            match skip_ws rest with
            | String c' r =>
                if Ascii.eqb c' "]" then Some (PList [], r)
                else parse_items wide fuel' (String c' r) []
            | EmptyString => None
            end
          else literal s
      end
  end
with parse_items (wide : bool) (fuel : nat) (s : string) (acc : list pyval)
    : option (pyval * string) :=
  match fuel with
  | O => None
  | S fuel' =>
      match parse_value wide fuel' s with
      | Some (v, r) =>
          match skip_ws r with
          | String c r' =>
              if Ascii.eqb c "]" then Some (PList (acc ++ [v]), r')
              else if Ascii.eqb c "," then parse_items wide fuel' (skip_ws r') (acc ++ [v])
              else None
          | EmptyString => None
          end
      | None => None
      end
  end
with parse_members (wide : bool) (fuel : nat) (s : string) (acc : list (string * pyval))
    : option (pyval * string) :=
  match fuel with
  | O => None
  | S fuel' =>
      match s with
      | String q r =>
          if Ascii.eqb q dquote then
            match scan_string wide r with
            | Some (k, r1) =>
                match skip_ws r1 with
                | String c r2 =>
                    if Ascii.eqb c ":" then
                      match parse_value wide fuel' (skip_ws r2) with
                      | Some (v, r3) =>
                          match skip_ws r3 with
                          | String c' r4 =>
                              if Ascii.eqb c' "}" then Some (PDict (dict_set k v acc), r4)
                              else if Ascii.eqb c' ","
                                   then parse_members wide fuel' (skip_ws r4) (dict_set k v acc)
                                   else None
                          | EmptyString => None
                          end
                      | None => None
                      end
                    else None
                | EmptyString => None
                end
            | None => None
            end
          else None
      | EmptyString => None
      end
  end.

(** [json.loads(s)]; the fuel bounds the nesting by the length of the text.
    A document that reads in full only when [wide] is well formed and holds
    a character above code point 255: Python returns a value that the
    embedding cannot write down. *)
Definition loads (s : string) : outcome pyval :=
  let fuel := (2 * String.length s + 2)%nat in
  match parse_value false fuel (skip_ws s) with
  | Some (v, r) =>
      match skip_ws r with
      | EmptyString => Ret v
      | _ => Raise JSONDecodeError
      end
  | None =>
      match parse_value true fuel (skip_ws s) with
      | Some (_, r) =>
          match skip_ws r with
          | EmptyString => OutOfFuel
          | _ => Raise JSONDecodeError
          end
      | None => Raise JSONDecodeError
      end
  end.

End json.

(** ** Floats

    A float of Python is an IEEE double.  The embedding keeps a float as the
    text it was read from; what that text denotes is computed here, with the
    rounding of [float()]: to the nearest double, ties to the even one. *)

Module float.

Local Open Scope Z_scope.

(** A double: [m * 2^e] with [0 <= m < 2^53], an infinity, or NaN. *)
Inductive t : Type :=
| NaN
| Inf (neg : bool)
| Fin (neg : bool) (m e : Z).

(** [n / d] rounded to the nearest integer, ties to even. *)
Definition nearest (n d : Z) : Z :=
  let q := n / d in
  let r := n mod d in
  if 2 * r <? d then q
  else if d <? 2 * r then q + 1
  else if Z.even q then q else q + 1.

(** The fraction [n / d / 2^e]. *)
Definition scale2 (n d e : Z) : Z * Z :=
  if 0 <=? e then (n, d * 2 ^ e) else (n * 2 ^ (- e), d).

(** The fraction [n / d * 10^k]. *)
Definition scale10 (n d k : Z) : Z * Z :=
  if 0 <=? k then (n * 10 ^ k, d) else (n, d * 10 ^ (- k)).

(** The double nearest to [n / d], for [0 <= n] and [0 < d]: mantissa and
    exponent, or [None] beyond the largest double. *)
Definition round (n d : Z) : option (Z * Z) :=
  if n =? 0 then Some (0, 0) else
  let e1 := Z.log2 n - Z.log2 d - 52 in
  let '(n1, d1) := scale2 n d e1 in
  let e2 := if n1 / d1 <? 2 ^ 52 then e1 - 1 else e1 in
  let e := Z.max e2 (-1074) in
  let '(n2, d2) := scale2 n d e in
  let m := nearest n2 d2 in
  let '(m, e) := if m =? 2 ^ 53 then (2 ^ 52, e + 1) else (m, e) in
  if 971 <? e then None
  else if m =? 0 then Some (0, 0)
  else Some (m, e).

(** The digits after the point of a fraction group, and the value of an
    exponent group. *)
Definition frac_digits (f : string) : string :=
  match f with
  | String _ d => d
  | EmptyString => ""
  end.

Definition exp_value (e : string) : Z :=
  match e with
  | String _ (String s d) =>
      if Ascii.eqb s "-" then - json.decimal d
      else if Ascii.eqb s "+" then json.decimal d
      else json.decimal (String s d)
  | _ => 0
  end.

(** What a literal denotes. *)
Definition of_literal (lit : string) : t :=
  if String.eqb lit "NaN" then NaN
  else if String.eqb lit "Infinity" then Inf false
  else if String.eqb lit "-Infinity" then Inf true
  else
    let '(neg, s1) :=
      match lit with
      | String c rest => if Ascii.eqb c "-" then (true, rest) else (false, lit)
      | EmptyString => (false, lit)
      end in
    match json.scan_int s1 with
    | None => NaN
    | Some (i, s2) =>
        let '(f, s3) := json.scan_frac s2 in
        let '(e, _) := json.scan_exp s3 in
        let digits := json.decimal (i +:+ frac_digits f) in
        let k := exp_value e - Z.of_nat (String.length (frac_digits f)) in
        let '(n, d) := scale10 digits 1 k in
        match round n d with
        | Some (m, e) => Fin neg m e
        | None => Inf neg
        end
    end.

(** [x == y] on doubles. *)
Definition eqb (x y : t) : bool :=
  match x, y with
  | Inf a, Inf b => Bool.eqb a b
  | Fin a m e, Fin b m' e' =>
      ((m =? 0) && (m' =? 0)) || (Bool.eqb a b && (m =? m') && (e =? e'))
  | _, _ => false
  end.

(** [i == x] for an integer and a double: Python compares the exact values. *)
Definition eqb_int (i : Z) (x : t) : bool :=
  match x with
  | Fin neg m e =>
      let v := if neg then - m else m in
      if 0 <=? e then i =? v * 2 ^ e else i * 2 ^ (- e) =? v
  | _ => false
  end.

(** *** [repr] *)

(** Is [n / d < 10^k]? *)
Definition below_pow10 (n d k : Z) : bool :=
  let '(n', d') := scale10 n d (- k) in n' <? d'.

(** The place of the decimal point: the least [k] with [n / d < 10^k]. *)
Definition point (n d : Z) : Z :=
  let k0 := (Z.log2 n - Z.log2 d) * 30103 / 100000 - 2 in
  match filter (fun k => below_pow10 n d k) (map (fun i => k0 + i) [0; 1; 2; 3; 4; 5]) with
  | k :: _ => k
  | [] => k0
  end.

(** The double [c * 10^k] rounds to. *)
Definition reads_as (c k : Z) : option (Z * Z) :=
  let '(n, d) := scale10 c 1 k in round n d.

(** The shortest run of digits that reads back as the double [m * 2^e],
    the nearest to it among the shortest, with the place of its point. *)
Fixpoint shortest (lengths : list Z) (m e : Z) (n d p : Z) : Z * Z :=
  match lengths with
  | [] => (0, p)
  | len :: more =>
      let '(n', d') := scale10 n d (len - p) in
      let lo := n' / d' in
      let r := n' mod d' in
      let ok c := match reads_as c (p - len) with
                  | Some (m', e') => (m' =? m) && (e' =? e)
                  | None => false
                  end in
      let pick :=
        if r =? 0 then Some lo
        else match ok lo, ok (lo + 1) with
             | true, true =>
                 if 2 * r <? d' then Some lo
                 else if d' <? 2 * r then Some (lo + 1)
                 else if Z.even lo then Some lo else Some (lo + 1)
             | true, false => Some lo
             | false, true => Some (lo + 1)
             | false, false => None
             end in
      match pick, more with
      | Some c, _ => (c, p - len)
      | None, [] => (nearest n' d', p - len)
      | None, _ => shortest more m e n d p
      end
  end.

Fixpoint strip_zeros (fuel : nat) (c k : Z) : Z * Z :=
  match fuel with
  | O => (c, k)
  | S fuel' => if (c mod 10 =? 0) && negb (c =? 0) then strip_zeros fuel' (c / 10) (k + 1) else (c, k)
  end.

Fixpoint zeros (n : nat) : string :=
  match n with
  | O => ""
  | S n' => String "0" (zeros n')
  end.

(** [repr(x)], as [str] and the f-strings print a float. *)
Definition repr (x : t) : string :=
  match x with
  | NaN => "nan"
  | Inf neg => if neg then "-inf" else "inf"
  | Fin neg m e =>
      let sign := if neg then "-" else "" in
      if m =? 0 then sign +:+ "0.0" else
      let '(n, d) := scale2 m 1 (- e) in
      let p := point n d in
      let '(c, k) := shortest [1; 2; 3; 4; 5; 6; 7; 8; 9; 10; 11; 12; 13; 14; 15; 16; 17]
                              m e n d p in
      let '(c, k) := strip_zeros 20 c k in
      let ds := pretty c in
      let len := Z.of_nat (String.length ds) in
      let p := k + len in
      if (-4 <? p) && (p <=? 16) then
        if p <=? 0 then sign +:+ "0." +:+ zeros (Z.to_nat (- p)) +:+ ds
        else if len <=? p then sign +:+ ds +:+ zeros (Z.to_nat (p - len)) +:+ ".0"
        else sign +:+ String.substring 0 (Z.to_nat p) ds +:+ "."
             +:+ String.substring (Z.to_nat p) (Z.to_nat (len - p)) ds
      else
        let x := p - 1 in
        let head := String.substring 0 1 ds in
        let tail := String.substring 1 (Z.to_nat (len - 1)) ds in
        sign +:+ head +:+ (if len =? 1 then "" else "." +:+ tail)
        +:+ "e" +:+ (if x <? 0 then "-" else "+")
        +:+ (if Z.abs x <? 10 then "0" else "") +:+ pretty (Z.abs x)
  end.

End float.

(** ** [str], [repr] and [==] on values *)

Definition squote : ascii := "'"%char.

Definition contains (c : ascii) (s : string) : bool := existsb (Ascii.eqb c) (chars s).

(** [c.isprintable()] on the code points 0..255. *)
Definition isprintable_char (c : ascii) : bool :=
  let n := N_of_ascii c in
  between 32 126 n || (between 161 255 n && negb (n =? 173)%N).

Definition x_escape (c : ascii) : string :=
  let n := N_of_ascii c in
  "\x" +:+ str1 (json.hex_digit (n / 16)) +:+ str1 (json.hex_digit (n mod 16)).

Definition repr_char (q c : ascii) : string :=
  let n := N_of_ascii c in
  if Ascii.eqb c q || (n =? 92)%N then "\" +:+ str1 c
  else if (n =? 9)%N then "\t"
  else if (n =? 10)%N then "\n"
  else if (n =? 13)%N then "\r"
  else if isprintable_char c then str1 c
  else x_escape c.

Fixpoint repr_chars (q : ascii) (s : string) : string :=
  match s with
  | EmptyString => ""
  | String c rest => repr_char q c +:+ repr_chars q rest
  end.

(** [repr(s)] for a [str]: in single quotes, unless it holds one and no
    double quote. *)
Definition repr_str (s : string) : string :=
  let q := if contains squote s && negb (contains json.dquote s) then json.dquote else squote in
  str1 q +:+ repr_chars q s +:+ str1 q.

(** [repr(v)] *)
Fixpoint py_repr (v : pyval) : string :=
  match v with
  | PNone => "None"
  | PBool true => "True"
  | PBool false => "False"
  | PInt z => pretty z
  | PFloat literal => float.repr (float.of_literal literal)
  | PStr s => repr_str s
  | PList items => "[" +:+ json.sep_by ", " (map py_repr items) +:+ "]"
  | PDict pairs =>
      "{" +:+ json.sep_by ", " (map (fun kv => repr_str (fst kv) +:+ ": " +:+ py_repr (snd kv)) pairs)
      +:+ "}"
  end.

(** [str(v)], which is what an f-string puts for [{v}]. *)
Definition py_str (v : pyval) : string :=
  match v with
  | PStr s => s
  | _ => py_repr v
  end.

Definition is_nan (v : pyval) : bool :=
  match v with
  | PFloat literal => match float.of_literal literal with float.NaN => true | _ => false end
  | _ => false
  end.

(** [a == b].  Numbers compare by value, [bool] being an [int]; a list or a
    dict compares item by item, and there an item equals itself whatever it
    is: the decoder has one NaN object, which differs from itself only
    outside a container. *)
Fixpoint py_eq (a b : pyval) {struct a} : bool :=
  let num (v : pyval) : option (Z + float.t) :=
    match v with
    | PBool t => Some (inl (if t then 1 else 0))
    | PInt z => Some (inl z)
    | PFloat literal => Some (inr (float.of_literal literal))
    | _ => None
    end in
  let item (x y : pyval) (eq : bool) : bool := (is_nan x && is_nan y) || eq in
  match a, b with
  | PNone, PNone => true
  | PStr s, PStr s' => String.eqb s s'
  | PList xs, PList ys =>
      (fix go (xs ys : list pyval) {struct xs} : bool :=
         match xs, ys with
         | [], [] => true
         | x :: xs', y :: ys' => item x y (py_eq x y) && go xs' ys'
         | _, _ => false
         end) xs ys
  | PDict ps, PDict qs =>
      (length ps =? length qs)%nat
      && (fix go (ps : list (string * pyval)) {struct ps} : bool :=
            match ps with
            | [] => true
            | (k, v) :: ps' =>
                match assoc k qs with
                | Some v' => item v v' (py_eq v v')
                | None => false
                end && go ps'
            end) ps
  | _, _ =>
      match num a, num b with
      | Some (inl i), Some (inl j) => (i =? j)%Z
      | Some (inl i), Some (inr y) => float.eqb_int i y
      | Some (inr x), Some (inl j) => float.eqb_int j x
      | Some (inr x), Some (inr y) => float.eqb x y
      | _, _ => false
      end
  end.

(** ** The world *)

(** What a path of the file system holds.  [Unreadable] is a file the process
    has no permission to open. *)
Inductive entry : Type :=
| Dir
| File (content : string)
| Unreadable.

(** A [requests.Response], with the time the request took. *)
Record response : Type := mkResponse {
  status_code : Z;
  text : string;
  elapsed : Z
}.

Record world : Type := mkWorld {
  fs : gmap string entry;
  (** The remote server: its answer to a URL, given the requests before it. *)
  server : list string -> string -> response;
  sent : list string;
  (** [time.monotonic()], in milliseconds. *)
  clock : Z;
  (** The time since the function attribute [throttled_get.last_call] was
      set, in milliseconds: the attribute holds a past reading of the clock,
      or the 0.0 it starts with, and never lies ahead of the clock. *)
  idle : N;
  (** A Ctrl-C that arrives during the next write of a file, once that many
      characters have gone out. *)
  sigint : option nat
}.

(** The function attribute [throttled_get.last_call], in milliseconds. *)
Definition last_call (w : world) : Z := clock w - Z.of_N (idle w).

Definition set_fs (f : gmap string entry) (w : world) : world :=
  mkWorld f (server w) (sent w) (clock w) (idle w) (sigint w).

Definition M (A : Type) : Type := world -> outcome A * world.

Definition ret {A} (a : A) : M A := fun w => (Ret a, w).
Definition raise {A} (e : exn) : M A := fun w => (Raise e, w).
Definition out_of_fuel {A} : M A := fun w => (OutOfFuel, w).
Definition lift {A} (c : outcome A) : M A := fun w => (c, w).

Definition bind {A B} (c : M A) (k : A -> M B) : M B :=
  fun w =>
    match c w with
    | (Ret a, w') => k a w'
    | (Raise e, w') => (Raise e, w')
    | (OutOfFuel, w') => (OutOfFuel, w')
    end.

Notation "'let*' x ':=' c 'in' k" := (bind c (fun x => k))
  (at level 10, x pattern, c at level 100, k at level 200).

(** [try: body  except E: handler], where [E] is the class [handles] tests. *)
Definition try_except {A} (body : M A) (handles : exn -> bool) (handler : M A) : M A :=
  fun w =>
    match body w with
    | (Raise e, w') => if handles e then handler w' else (Raise e, w')
    | r => r
    end.

Fixpoint for_each {A} (items : list A) (body : A -> M unit) : M unit :=
  match items with
  | [] => ret tt
  | x :: rest => let* _ := body x in for_each rest body
  end.

Fixpoint map_outcome {A B} (f : A -> outcome B) (items : list A) : outcome (list B) :=
  match items with
  | [] => Ret []
  | x :: rest =>
      let? y := f x in
      let? ys := map_outcome f rest in
      Ret (y :: ys)
  end.

(** *** The file system

    An entry is found under the text of its path, as the program writes it:
    no [..] is resolved and no link followed. *)

Fixpoint last_slash (s : string) : option nat :=
  match s with
  | EmptyString => None
  | String c rest =>
      match last_slash rest with
      | Some n => Some (S n)
      | None => if Ascii.eqb c "/" then Some O else None
      end
  end.

(** The directory a path lies in, and its name there. *)
Definition dirname (path : string) : string :=
  match last_slash path with
  | Some n => String.substring 0 n path
  | None => "."
  end.

Definition basename (path : string) : string :=
  match last_slash path with
  | Some n => String.substring (S n) (String.length path - S n) path
  | None => path
  end.

(** The working directory is always there. *)
Definition lookup_path (f : gmap string entry) (path : string) : option entry :=
  if String.eqb path "." then Some Dir else f !! path.

Definition is_dir (f : gmap string entry) (path : string) : bool :=
  match lookup_path f path with
  | Some Dir => true
  | _ => false
  end.

(** [Path(path).exists()] *)
Definition Path_exists (path : string) : M bool :=
  fun w => (Ret (bool_decide (is_Some (lookup_path (fs w) path))), w).

(** [with open(path) as f: f.read()] *)
Definition read_file (path : string) : M string :=
  fun w =>
    match lookup_path (fs w) path with
    | None => (Raise FileNotFoundError, w)
    | Some Dir => (Raise IsADirectoryError, w)
    | Some Unreadable => (Raise PermissionError, w)
    | Some (File content) => (Ret content, w)
    end.

(** [with open(path, 'w') as f: f.write(data)].  Opening truncates the file;
    a pending Ctrl-C cuts the write short and leaves what had gone out. *)
Definition write_file (path data : string) : M unit :=
  fun w =>
    match lookup_path (fs w) path with
    | Some Dir => (Raise IsADirectoryError, w)
    | Some Unreadable => (Raise PermissionError, w)
    | _ =>
        match lookup_path (fs w) (dirname path) with
        | None => (Raise FileNotFoundError, w)
        | Some Dir =>
            match sigint w with
            | None => (Ret tt, set_fs (<[path := File data]> (fs w)) w)
            | Some n =>
                (Raise KeyboardInterrupt,
                 mkWorld (<[path := File (String.substring 0 n data)]> (fs w))
                         (server w) (sent w) (clock w) (idle w) None)
            end
        | Some _ => (Raise NotADirectoryError, w)
        end
    end.

(** [os.mkdir(path)] *)
Definition os_mkdir (path : string) : M unit :=
  fun w =>
    match lookup_path (fs w) path with
    | Some _ => (Raise FileExistsError, w)
    | None =>
        match lookup_path (fs w) (dirname path) with
        | None => (Raise FileNotFoundError, w)
        | Some Dir => (Ret tt, set_fs (<[path := Dir]> (fs w)) w)
        | Some _ => (Raise NotADirectoryError, w)
        end
    end.

(** [Path(path).mkdir(parents=..., exist_ok=...)], as [pathlib] writes it;
    [depth] bounds the climb to the parents. *)
Fixpoint Path_mkdir (depth : nat) (path : string) (parents exist_ok : bool) : M unit :=
  fun w =>
    match os_mkdir path w with
    | (Raise FileNotFoundError, w') =>
        if negb parents || String.eqb (dirname path) path
        then (Raise FileNotFoundError, w')
        else
          match depth with
          | O => (OutOfFuel, w')
          | S depth' =>
              (let* _ := Path_mkdir depth' (dirname path) true true in
               Path_mkdir depth' path false exist_ok) w'
          end
    | (Raise e, w') =>
        if is_IOError e && exist_ok && is_dir (fs w') path
        then (Ret tt, w')
        else (Raise e, w')
    | r => r
    end.

(** [os.listdir(path)]: the names of the entries that lie in [path]. *)
Definition os_listdir (path : string) : M (list string) :=
  fun w =>
    match lookup_path (fs w) path with
    | None => (Raise FileNotFoundError, w)
    | Some Dir =>
        (Ret (map basename
                (filter (fun p => dirname p = path) (map fst (map_to_list (fs w))))), w)
    | Some _ => (Raise NotADirectoryError, w)
    end.

(** [Path(path).delete()]: a [Path] has no attribute of that name. *)
Definition Path_delete (path : string) : M unit := raise AttributeError.

(** *** Time and the network *)

Definition monotonic : M Z := fun w => (Ret (clock w), w).

(** [ms] milliseconds pass, for [0 <= ms]: the clock advances, and with it
    the time since [last_call].  What [time.sleep] does once it has taken
    its argument; [time_sleep] below is the call itself. *)
Definition sleep (ms : Z) : M unit :=
  fun w => (Ret tt, mkWorld (fs w) (server w) (sent w) (clock w + ms)
                            (Z.to_N (Z.of_N (idle w) + ms)) (sigint w)).

(** The longest [time.sleep] takes: what fits the 64 bits of a count of
    nanoseconds, in milliseconds. *)
Definition max_sleep : Z := 9223372036854.

(** [time.sleep(ms / 1000)]: a negative time is a [ValueError], one beyond
    [max_sleep] an [OverflowError]. *)
Definition time_sleep (ms : Z) : M unit :=
  if (ms <? 0)%Z then raise ValueError
  else if (max_sleep <? ms)%Z then raise OverflowError
  else sleep ms.

Definition get_last_call : M Z := fun w => (Ret (last_call w), w).

(** [throttled_get.last_call = t], for a reading [t] of the clock. *)
Definition set_last_call (t : Z) : M unit :=
  fun w => (Ret tt, mkWorld (fs w) (server w) (sent w) (clock w) (Z.to_N (clock w - t))
                            (sigint w)).

(** [requests.get(url)]: the server always answers. *)
Definition requests_get (url : string) : M response :=
  fun w =>
    let r := server w (sent w) url in
    (Ret r, mkWorld (fs w) (server w) (sent w ++ [url]) (clock w + elapsed r)
                    (Z.to_N (Z.of_N (idle w) + elapsed r)) (sigint w)).

(** [response.raise_for_status()]: the 4xx and 5xx codes raise. *)
Definition raise_for_status (r : response) : outcome unit :=
  if ((400 <=? status_code r) && (status_code r <? 600))%Z
  then Raise (HTTPError (status_code r))
  else Ret tt.

(** [response.json()] *)
Definition response_json (r : response) : outcome pyval :=
  match json.loads (text r) with
  | Ret v => Ret v
  | Raise _ => Raise ResponseDecodeError
  | OutOfFuel => OutOfFuel
  end.

(** ** throttled_get *)

(** The body, with the nested calls it may still make. *)
Fixpoint throttled_get_from (fuel : nat) (url : string) (throttle_delay : Z) : M response :=
  match fuel with
  | O => out_of_fuel
  | S fuel' =>
      let* now := monotonic in
      let* last := get_last_call in
      let diff := now - last in
      let* _ := (if (diff <? 500)%Z then time_sleep (500 - diff) else ret tt) in
      let* result := requests_get url in
      let* t := monotonic in
      let* _ := set_last_call t in
      if (status_code result =? 429)%Z then
        let* _ := time_sleep (1000 * throttle_delay) in
        throttled_get_from fuel' url (throttle_delay * 2)
      else ret result
  end.

(** The nested calls of [throttled_get] the embedding follows.  With a delay
    of a second or more the doubled delay is beyond [max_sleep] well before;
    the interpreter's own limit on nested calls, 1000 frames unless changed,
    lies far above. *)
Definition retry_room : nat := 64.

(** [throttled_get(url, throttle_delay=...)], the delay in seconds. *)
Definition throttled_get (fuel : nat) (url : string) (throttle_delay : Z) : M response :=
  throttled_get_from (Nat.min fuel retry_room) url throttle_delay.

(** ** list_user_games

    A generator: its body runs only as far as the consumer asks for items.
    [gen] is where the body is suspended. *)

Inductive gen : Type :=
| Unstarted (user_id : Z)
  (** inside [for game in data['results']], with the items still to come *)
| InPage (data : pyval) (pending : list pyval)
| Finished.

Definition games_url (user_id : Z) : string :=
  "https://online-go.com/api/v1/players/" +:+ pretty user_id +:+ "/games"
  +:+ "?page_size=50&source=play&ended__isnull=false&ordering=-ended".

(** The URL [requests.get] is given.  Text goes out as it is; of any other
    value [requests] takes the [str], finds no usable scheme in it and
    raises. *)
Definition as_url (v : pyval) : outcome string :=
  match v with
  | PStr s => Ret s
  | _ => Raise InvalidURL
  end.

(** [next(games)]: [Some] game the generator yields, or [None] when its body
    returns. *)
Fixpoint list_user_games_next (fuel : nat) (g : gen) : M (option GameInfo.t * gen) :=
  match fuel with
  | O => out_of_fuel
  | S fuel' =>
      match g with
      | Unstarted user_id =>
          let* data := throttled_get fuel' (games_url user_id) 10 in
          let* _ := lift (raise_for_status data) in
          let* data := lift (response_json data) in
          let* results := lift (getitem data "results") in
          let* items := lift (py_iter results) in
          list_user_games_next fuel' (InPage data items)
      | InPage data (game :: pending) =>
          let* info := lift (GameInfo.from_api_dict game) in
          ret (Some info, InPage data pending)
      | InPage data [] =>
          let* next := lift (getitem data "next") in
          match next with
          | PNone => ret (None, Finished)
          | _ =>
              let* url := lift (as_url next) in
              let* resp := throttled_get fuel' url 10 in
              let* data := lift (response_json resp) in
              let* results := lift (getitem data "results") in
              let* items := lift (py_iter results) in
              list_user_games_next fuel' (InPage data items)
          end
      | Finished => ret (None, Finished)
      end
  end.

(** ** The index store *)

Definition index_path (user_id : Z) : string :=
  "./index/" +:+ pretty user_id +:+ ".json".

Definition read_index (user_id : Z) : M (list GameInfo.t) :=
  let path := index_path user_id in
  try_except
    (let* data := read_file path in
     let* data := lift (json.loads data) in
     let* items := lift (py_iter data) in
     lift (map_outcome GameInfo.from_dict items))
    is_IOError
    (ret []).

(** [dataclasses.asdict(game)] *)
Definition Player_asdict (p : Player.t) : pyval :=
  PDict [("name", Player.name p); ("rank", Player.rank p)].

Definition asdict (game : GameInfo.t) : pyval :=
  PDict [("id", GameInfo.id game); ("name", PStr (GameInfo.name game));
         ("white", Player_asdict (GameInfo.white game));
         ("black", Player_asdict (GameInfo.black game))].

Definition write_index (user_id : Z) (games : list GameInfo.t) : M unit :=
  let path := index_path user_id in
  let data := json.dumps (PList (map asdict games)) in
  write_file path data.

(** ** build_index *)

(** [old_games and old_games[0].id == game.id] *)
Definition caught_up (old_games : list GameInfo.t) (game : GameInfo.t) : bool :=
  match old_games with
  | [] => false
  | newest :: _ => py_eq (GameInfo.id newest) (GameInfo.id game)
  end.

(** The loop [for idx, game in enumerate(games)].  [count] is the counter of
    [enumerate]; [idx] is the variable of that name, [None] while no
    iteration has bound it.  The loop hands back [idx] and [new_games]. *)
Fixpoint index_loop (fuel : nat) (old_games : list GameInfo.t) (games : gen)
    (count : nat) (idx : option nat) (new_games : list GameInfo.t)
    : M (option nat * list GameInfo.t) :=
  match fuel with
  | O => out_of_fuel
  | S fuel' =>
      let* (item, games) := list_user_games_next fuel games in
      match item with
      | None => ret (idx, new_games)
      | Some game =>
          let idx := Some count in
          if caught_up old_games game
          then ret (idx, new_games)
          else index_loop fuel' old_games games (S count) idx (new_games ++ [game])%list
      end
  end.

Definition build_index (fuel : nat) (user_id : Z) : M (list GameInfo.t) :=
  let* _ := Path_mkdir 0 "./index" false true in
  let* old_games := read_index user_id in
  let games := Unstarted user_id in
  let* (idx, new_games) := index_loop fuel old_games games 0 None [] in
  let all_games := (new_games ++ old_games)%list in
  match idx with
  | None => raise (UnboundLocalError "idx")
  | Some idx =>
      let* _ := (if negb (idx =? 0)%nat then write_index user_id all_games else ret tt) in
      ret all_games
  end.

(** ** get_all_indices *)

Definition endswith (s suffix : string) : bool :=
  let n := String.length s in
  let k := String.length suffix in
  (k <=? n)%nat && String.eqb (String.substring (n - k) k s) suffix.

(** [int(s)], for a decimal numeral with an optional sign. *)
Definition int_of_string (s : string) : outcome Z :=
  let '(neg, digits) :=
    match s with
    | String c rest =>
        if Ascii.eqb c "-" then (true, rest)
        else if Ascii.eqb c "+" then (false, rest)
        else (false, s)
    | EmptyString => (false, s)
    end in
  match digits with
  | EmptyString => Raise ValueError
  | _ =>
      if forallb json.is_digit (chars digits)
      then Ret (if neg then - json.decimal digits else json.decimal digits)
      else Raise ValueError
  end.

(** [d[k] = v] on a dict with integer keys, which keeps the order of
    insertion. *)
Fixpoint setitem {A} (k : Z) (v : A) (d : list (Z * A)) : list (Z * A) :=
  match d with
  | [] => [(k, v)]
  | (k', v') :: rest =>
      if (k =? k')%Z then (k, v) :: rest else (k', v') :: setitem k v rest
  end.

Fixpoint read_indices (files : list string) (indices : list (Z * list GameInfo.t))
    : M (list (Z * list GameInfo.t)) :=
  match files with
  | [] => ret indices
  | f :: rest =>
      let* id := lift (int_of_string (String.substring 0 (String.length f - 5) f)) in
      let* games := read_index id in
      read_indices rest (setitem id games indices)
  end.

Definition get_all_indices : M (list (Z * list GameInfo.t)) :=
  let* names := os_listdir "./index" in
  let files := filter (fun f => endswith f ".json" = true) names in
  read_indices files [].

(** ** load_game *)

Definition game_path (user_id : Z) (game_info : GameInfo.t) : string :=
  let game_name :=
    py_str (GameInfo.id game_info) +:+ " " +:+ GameInfo.name game_info +:+ " ["
    +:+ py_str (Player.name (GameInfo.black game_info)) +:+ " vs "
    +:+ py_str (Player.name (GameInfo.white game_info)) +:+ "]" in
  "./games/" +:+ pretty user_id +:+ "/" +:+ game_name +:+ ".sgf".

Definition sgf_url (game_info : GameInfo.t) : string :=
  "http://online-go.com/api/v1/games/" +:+ py_str (GameInfo.id game_info) +:+ "/sgf/".

Definition is_KeyboardInterrupt (e : exn) : bool :=
  match e with
  | KeyboardInterrupt => true
  | _ => false
  end.

Definition load_game (fuel : nat) (user_id : Z) (game_info : GameInfo.t) : M unit :=
  let path := game_path user_id game_info in
  let* there := Path_exists path in
  if there then ret tt
  else
    let* data := throttled_get fuel (sgf_url game_info) 10 in
    let* _ := lift (raise_for_status data) in
    let data := text data in
    try_except
      (write_file path data)
      is_KeyboardInterrupt
      (let* _ := Path_delete path in
       raise KeyboardInterrupt).

(** ** take and load_all_games *)

(** [for _ in range(n): yield next(iterator)]: the items yielded and how the
    generator ends.  [next] on the exhausted iterator raises [StopIteration],
    which leaves a generator as a [RuntimeError]. *)
Fixpoint take_loop {A} (n : nat) (iterator : list A) : list A * option exn :=
  match n with
  | O => ([], None)
  | S n' =>
      match iterator with
      | [] => ([], Some RuntimeError)
      | x :: rest => let '(ys, e) := take_loop n' rest in (x :: ys, e)
      end
  end.

(** The generator [take(iterator, count)].  With [count is None] it yields
    from the iterator to its end and goes on to [range(None)]. *)
Definition take {A} (iterator : list A) (count : option Z) : list A * option exn :=
  match count with
  | None => (iterator, Some TypeError)
  | Some n => take_loop (Z.to_nat n) iterator
  end.

(** [added and user_id in added] *)
Definition is_added (added : option (list Z)) (user_id : Z) : bool :=
  match added with
  | None => false
  | Some ids => existsb (Z.eqb user_id) ids
  end.

(** The first loop: [for user_id in indices], over the keys as they stood
    when the loop began. *)
Fixpoint refresh_indices (fuel : nat) (added : option (list Z)) (keys : list Z)
    (indices : list (Z * list GameInfo.t)) : M (list (Z * list GameInfo.t)) :=
  match keys with
  | [] => ret indices
  | user_id :: rest =>
      if is_added added user_id
      then refresh_indices fuel added rest indices
      else
        let* games := build_index fuel user_id in
        refresh_indices fuel added rest (setitem user_id games indices)
  end.

Definition load_user_games (fuel : nat) (limit : option Z) (item : Z * list GameInfo.t) : M unit :=
  let '(user_id, games) := item in
  let* _ := Path_mkdir 2 ("./games/" +:+ pretty user_id) true true in
  let '(yielded, ending) := take games limit in
  let* _ := for_each yielded (load_game fuel user_id) in
  match ending with
  | Some e => raise e
  | None => ret tt
  end.

Definition load_all_games (fuel : nat) (limit : option Z) (added : option (list Z)) : M unit :=
  let* indices := get_all_indices in
  let* indices := refresh_indices fuel added (map fst indices) indices in
  for_each indices (load_user_games fuel limit).

(** ** What the specification talks about *)

(** The first [n] games the generator yields (fewer when it ends before),
    pulled one by one as the loop of [build_index] pulls them. *)
Fixpoint fetch (fuel : nat) (n : nat) (games : gen) {struct n}
    : M (list GameInfo.t * gen) :=
  match n with
  | O => ret ([], games)
  | S n' =>
      match fuel with
      | O => out_of_fuel
      | S fuel' =>
          let* (item, games) := list_user_games_next fuel games in
          match item with
          | None => ret ([], games)
          | Some game =>
              let* (rest, games) := fetch fuel' n' games in
              ret (game :: rest, games)
          end
      end
  end.

(** The same, from a generator that has not started, and the games alone. *)
Definition fetched (fuel : nat) (n : nat) (user_id : Z) (w : world) : outcome (list GameInfo.t) :=
  let? r := fst (fetch fuel n (Unstarted user_id) w) in
  Ret (fst r).

Definition generator_after (fuel : nat) (n : nat) (user_id : Z) (w : world) : gen :=
  match fst (fetch fuel n (Unstarted user_id) w) with
  | Ret r => snd r
  | _ => Finished
  end.

Definition ids (games : list GameInfo.t) : list pyval := map GameInfo.id games.

(** The text [read_index] turns into records, once the file is read. *)
Definition decode_index (data : string) : outcome (list GameInfo.t) :=
  let? data := json.loads data in
  let? items := py_iter data in
  map_outcome GameInfo.from_dict items.

Definition index_text (games : list GameInfo.t) : string :=
  json.dumps (PList (map asdict games)).

(** ** Sample worlds *)

Module Scenario.

Definition player (name : string) (rank : Z) : Player.t := Player.mk (PStr name) (PInt rank).

Definition game (id : Z) : GameInfo.t :=
  GameInfo.mk (PInt id) ("game " +:+ pretty id) (player "shusaku" 1900) (player "gennan" 1850).

(** The item of the games endpoint that normalizes to [game id]; the
    [ranking] fields differ from the historical ratings. *)
Definition api_player (p : Player.t) : pyval :=
  PDict [("username", Player.name p); ("ranking", PInt 30)].

Definition api_rating (p : Player.t) : pyval :=
  PDict [("ratings", PDict [("overall", PDict [("rating", Player.rank p)])])].

Definition api_item (g : GameInfo.t) : pyval :=
  PDict [("id", GameInfo.id g); ("name", PStr (GameInfo.name g));
         ("players", PDict [("white", api_player (GameInfo.white g));
                            ("black", api_player (GameInfo.black g))]);
         ("historical_ratings", PDict [("white", api_rating (GameInfo.white g));
                                       ("black", api_rating (GameInfo.black g))])].

Definition page (games : list Z) (next : pyval) : string :=
  json.dumps (PDict [("results", PList (map (fun i => api_item (game i)) games));
                     ("next", next)]).

Definition ok (body : string) : response := mkResponse 200 body 120.

Definition not_found : response := mkResponse 404 "Not found" 80.

(** A server that answers by URL alone. *)
Definition site (pages : list (string * response)) : list string -> string -> response :=
  fun _ url =>
    match assoc url pages with
    | Some r => r
    | None => not_found
    end.

Definition disk (entries : list (string * entry)) : gmap string entry :=
  list_to_map entries.

Definition start (entries : list (string * entry)) (pages : list (string * response)) : world :=
  mkWorld (disk entries) (site pages) [] 0 0 None.


Definition page2 : string := "https://online-go.com/page2".

(** User 5 has the index [5; 4]; the server lists [7; 6; 5; 4] on two pages. *)
Definition behind : world :=
  start [("./index", Dir); (index_path 5, File (index_text [game 5; game 4]))]
        [(games_url 5, ok (page [7; 6] (PStr page2)));
         (page2, ok (page [5; 4] PNone))].

(** A first pull for user 5, whose whole history is one game. *)
Definition first_pull : world :=
  start [] [(games_url 5, ok (page [9] PNone))].

(** A first pull for user 5, whose history is empty. *)
Definition no_history : world :=
  start [] [(games_url 5, ok (page [] PNone))].

(** The index file of user 5 is cut off in the middle; that of user 6 holds
    a record without fields. *)
Definition damaged : world :=
  start [("./index", Dir); (index_path 5, File "[{"); (index_path 6, File "[{}]")] [].

Definition sgf : string := "(;GM[1]FF[4]SZ[19];B[pd];W[dp])".

(** The archive directory of user 5 is there and empty; the server has the
    record of game 7. *)
Definition archive : world :=
  start [("./games", Dir); ("./games/5", Dir)] [(sgf_url (game 7), ok sgf)].

(** The same, with a Ctrl-C that arrives eight characters into the next write. *)
Definition interrupted : world :=
  mkWorld (fs archive) (server archive) [] 0 0 (Some 8%nat).

(** User 5 has the up-to-date index [5; 4] and nothing archived. *)
Definition library : world :=
  start [("./index", Dir); (index_path 5, File (index_text [game 5; game 4]))]
        [(games_url 5, ok (page [5; 4] PNone));
         (sgf_url (game 5), ok sgf); (sgf_url (game 4), ok sgf)].

(** The second page of user 5's games fails with status 500 and a body
    that is not JSON. *)
Definition failing_page : world :=
  start [] [(games_url 5, ok (page [7; 6] (PStr page2)));
            (page2, mkResponse 500 "Internal Server Error" 80)].

(** The second page comes with status 500 and a body that reads as a page. *)
Definition failing_page_with_body : world :=
  start [] [(games_url 5, ok (page [7; 6] (PStr page2)));
            (page2, mkResponse 500 (page [5] PNone) 80)].

(** The first page fails with status 500. *)
Definition failing_first_page : world :=
  start [] [(games_url 5, mkResponse 500 "Internal Server Error" 80)].

End Scenario.

(** ** Vocabulary of the properties *)

(** A character [sanitize_name] lets through. *)
Definition allowed (c : ascii) : Prop :=
  isalnum_char c = true \/ c = " "%char \/ c = "_"%char.

(** Where the API keeps the historical rating of a color. *)
Definition rating_path (color : string) : list string :=
  ["historical_ratings"; color; "ratings"; "overall"; "rating"].

(** What the network leaves alone: the files, the pending interrupt and the
    server itself. *)
Definition same_disk (w w' : world) : Prop :=
  fs w' = fs w /\ sigint w' = sigint w /\ server w' = server w.

Definition keeps_disk {A} (c : M A) : Prop :=
  forall w r w', c w = (r, w') -> same_disk w w'.

(** [c'] does what [c] does wherever [c] has fuel enough to end. *)
Definition extends {A} (c c' : M A) : Prop :=
  forall w r w', c w = (r, w') -> r <> OutOfFuel -> c' w = (r, w').

Definition no_slash (s : string) : Prop := last_slash s = None.


(** An exception that is none of [IOError]'s. *)
Definition not_io (e : exn) : Prop := is_IOError e = false.

(** * Vocabulary of the further properties *)

(** ** The JSON codec *)

(** What may follow a value inside a document: the end, or the separator or
    bracket that closes the enclosing container. *)
Definition stops (rest : string) : bool :=
  match rest with
  | EmptyString => true
  | String c _ => Ascii.eqb c "," || Ascii.eqb c "]" || Ascii.eqb c "}"
  end.

Definition all_digits (s : string) : bool := forallb json.is_digit (chars s).

Definition no_digit_head (rest : string) : bool :=
  match rest with
  | EmptyString => true
  | String c _ => negb (json.is_digit c)
  end.

Definition num_head (c : ascii) : bool := json.is_digit c || Ascii.eqb c "-".

Definition value_head (s : string) : bool :=
  match s with
  | EmptyString => false
  | String c _ => negb (json.is_ws c) && negb (Ascii.eqb c "]") && negb (Ascii.eqb c "}")
  end.

(** A float literal as the decoder reads it: the whole of it scans as one
    number with a fraction or an exponent. *)
Definition float_literal (lit : string) : bool :=
  match json.scan_number lit with
  | Some (PFloat l, EmptyString) => String.eqb l lit
  | _ => false
  end.

Fixpoint distinct (ks : list string) : bool :=
  match ks with
  | [] => true
  | k :: rest => negb (existsb (String.eqb k) rest) && distinct rest
  end.

(** The values the codec reads back as written: every float is a float
    literal (so neither NaN nor an infinity), and no dict has a key twice. *)
Fixpoint plain (v : pyval) : bool :=
  match v with
  | PFloat lit => float_literal lit
  | PList items => forallb plain items
  | PDict pairs => distinct (map fst pairs) && forallb (fun kv => plain (snd kv)) pairs
  | _ => true
  end.

(** The nesting a decoder has to follow, as a bound on its fuel. *)
Fixpoint nodes (v : pyval) : nat :=
  match v with
  | PList items => S (list_sum (map (fun x => S (nodes x)) items))
  | PDict pairs => S (list_sum (map (fun kv => S (nodes (snd kv))) pairs))
  | _ => 1
  end.

Definition reads_back (v : pyval) : Prop :=
  plain v = true ->
  forall fuel rest,
    (nodes v <= fuel)%nat -> stops rest = true ->
    json.parse_value false fuel (json.dumps v +:+ rest) = Some (v, rest).

Definition member (kv : string * pyval) : string :=
  json.quote (fst kv) +:+ ": " +:+ json.dumps (snd kv).

(** ** Names and records *)

Definition allowed_char (c : ascii) : bool :=
  isalnum_char c || Ascii.eqb c " " || Ascii.eqb c "_".

(** A game [write_index] stores so that [read_index] finds it again: the
    name is sanitized, and the id and the names and ranks of the players are
    values the codec reads back. *)
Definition storable (g : GameInfo.t) : Prop :=
  forallb allowed_char (chars (GameInfo.name g)) = true
  /\ plain (GameInfo.id g) = true
  /\ plain (Player.name (GameInfo.white g)) = true
  /\ plain (Player.rank (GameInfo.white g)) = true
  /\ plain (Player.name (GameInfo.black g)) = true
  /\ plain (Player.rank (GameInfo.black g)) = true.

(** ** The throttle *)

(** The answers of a server to [n] requests of [url] in a row, after the
    requests of [history]. *)
Fixpoint answers (srv : list string -> string -> response) (n : nat) (url : string)
    (history : list string) : list response :=
  match n with
  | O => []
  | S n' => srv history url :: answers srv n' url (history ++ [url])
  end.

Definition total_elapsed (rs : list response) : Z :=
  fold_right (fun r acc => elapsed r + acc) 0 rs.

(** The time at which [throttled_get] sends its first request. *)
Definition send_time (w : world) : Z := Z.max (clock w) (last_call w + 500).

(** ** The indices *)

(** [for user_id in users: indices[user_id] = build_index(user_id)] *)
Fixpoint rebuild (fuel : nat) (users : list Z) (indices : list (Z * list GameInfo.t))
    : M (list (Z * list GameInfo.t)) :=
  match users with
  | [] => ret indices
  | user_id :: rest =>
      let* games := build_index fuel user_id in
      rebuild fuel rest (setitem user_id games indices)
  end.

(** ** The disk *)

(** [c] changes no file outside the paths [ps], however it ends. *)
Definition touches_only {A} (ps : list string) (c : M A) : Prop :=
  forall w r w' p, c w = (r, w') -> p ∉ ps -> fs w' !! p = fs w !! p.

(** ** Pages *)

(** The link a page carries to the pages after it. *)
Definition next_link (rest : list (string * list pyval)) : pyval :=
  match rest with
  | [] => PNone
  | (url, _) :: _ => PStr url
  end.

(** The server serves [pages]: each under its URL, with its items and the
    link to the page after it, whatever was requested before, and never with
    status 429. *)
Fixpoint paginates (srv : list string -> string -> response)
    (pages : list (string * list pyval)) : Prop :=
  match pages with
  | [] => True
  | (url, items) :: rest =>
      (forall history, exists data results,
          status_code (srv history url) <> 429
          /\ response_json (srv history url) = Ret data
          /\ getitem data "results" = Ret results
          /\ py_iter results = Ret items
          /\ getitem data "next" = Ret (next_link rest))
      /\ paginates srv rest
  end.

(** ** More sample worlds *)

Module Samples.

Definition busy_answer : response := mkResponse 429 "Too many requests" 50.

(** A game whose players have ratings with a fraction. *)
Definition rated : GameInfo.t :=
  GameInfo.mk (PInt 8) "rated game" (Player.mk (PStr "sai") (PFloat "2103.75"))
              (Player.mk (PStr "toya") (PFloat "1874.062")).

(** The server is busy for good. *)
Definition busy : world :=
  mkWorld (fs Scenario.archive) (fun _ _ => busy_answer) [] 0 0 None.

(** The server is busy for the first two requests and then serves the
    record of game 7. *)
Definition busy_twice : world :=
  mkWorld (fs Scenario.archive)
          (fun history _ =>
             if (length history <? 2)%nat then busy_answer else Scenario.ok Scenario.sgf)
          [] 0 0 None.

(** User 5 has the index [7; 6]; game 7 is archived and game 6 is not. *)
Definition archived : world :=
  Scenario.start
    [("./index", Dir);
     (index_path 5, File (index_text [Scenario.game 7; Scenario.game 6]));
     ("./games", Dir); ("./games/5", Dir);
     (game_path 5 (Scenario.game 7), File Scenario.sgf)]
    [].

(** A first pull for user 5, whose history is on two pages: [7; 6] and [5]. *)
Definition two_pages : world :=
  Scenario.start []
    [(games_url 5, Scenario.ok (Scenario.page [7; 6] (PStr Scenario.page2)));
     (Scenario.page2, Scenario.ok (Scenario.page [5] PNone))].

End Samples.

(** * Properties *)

(** ** Reasoning about outcomes *)

Lemma obind_Ret_inv {A B} (c : outcome A) (k : A -> outcome B) (b : B) :
  obind c k = Ret b -> exists a, c = Ret a /\ k a = Ret b.
Proof. destruct c; simpl; intros H; try discriminate. eauto. Qed.

Ltac inv_outcome :=
  repeat match goal with
         | H : obind _ _ = Ret _ |- _ => apply obind_Ret_inv in H as (? & ? & H)
         | H : Ret _ = Ret _ |- _ => injection H as H; subst
         | H : Raise _ = Ret _ |- _ => discriminate H
         | H : OutOfFuel = Ret _ |- _ => discriminate H
         end.

(** ** sanitize_name *)

Lemma keeps_str1 c : keeps (str1 c) = true -> allowed c.
Proof.
  unfold keeps, allowed. intros H.
  apply orb_true_iff in H as [H|H]; [apply orb_true_iff in H as [H|H]|].
  - left. simpl in H. by rewrite andb_true_r in H.
  - right; left. apply String.eqb_eq in H. by injection H.
  - right; right. apply String.eqb_eq in H. by injection H.
Qed.

Lemma join_kept_chars (l : list ascii) :
  exists out, join_kept (map (fun c => PStr (str1 c)) l) = Ret out
              /\ Forall allowed (chars out) /\ sublist (chars out) l.
Proof.
  induction l as [|c l (out & Hout & Hall & Hsub)]; simpl.
  - exists "". repeat split; constructor.
  - rewrite Hout. simpl. destruct (keeps (str1 c)) eqn:Hk.
    + eexists. split; [reflexivity|]. simpl. split.
      * constructor; [by apply keeps_str1 | done].
      * by constructor.
    + exists out. repeat split; try done. by constructor.
Qed.

(** C9. For every input string, [sanitize_name] returns a string; each of its
    characters is alphanumeric, a space or an underscore, and it is a
    subsequence of the input. *)
Theorem sanitize_name_subsequence (name : string) :
  exists out, sanitize_name (PStr name) = Ret out
              /\ Forall allowed (chars out) /\ sublist (chars out) (chars name).
Proof. unfold sanitize_name. simpl. apply join_kept_chars. Qed.

(** ** The normalizer *)

(** C8. The record [GameInfo.from_api_dict] builds from an API item has, for
    each color, the rank found at
    [historical_ratings.<color>.ratings.overall.rating]; the [ranking] field
    of each player is read as well, and loses.  The names are the sanitized
    [username]s and the sanitized game [name]. *)
Theorem from_api_dict_rank_override (dict : pyval) (game : GameInfo.t) :
  GameInfo.from_api_dict dict = Ret game ->
  (exists w0 b0, getpath dict ["players"; "white"; "ranking"] = Ret w0
                 /\ getpath dict ["players"; "black"; "ranking"] = Ret b0)
  /\ getpath dict (rating_path "white") = Ret (Player.rank (GameInfo.white game))
  /\ getpath dict (rating_path "black") = Ret (Player.rank (GameInfo.black game))
  /\ (exists u n, getpath dict ["players"; "white"; "username"] = Ret u
                  /\ sanitize_name u = Ret n
                  /\ Player.name (GameInfo.white game) = PStr n)
  /\ (exists u n, getpath dict ["players"; "black"; "username"] = Ret u
                  /\ sanitize_name u = Ret n
                  /\ Player.name (GameInfo.black game) = PStr n)
  /\ (exists n, getitem dict "name" = Ret n
                /\ sanitize_name n = Ret (GameInfo.name game)).
Proof.
  unfold GameInfo.from_api_dict, Player.from_api_dict, rating_path. intros H.
  cbn [getpath] in *. inv_outcome.
  repeat match goal with
         | H1 : ?a = Ret _, H2 : ?a = Ret _ |- _ =>
             rewrite H1 in H2; injection H2 as H2; subst
         end.
  simpl.
  repeat split; repeat eexists;
    repeat match goal with
           | H : getitem _ _ = Ret _ |- _ => rewrite H; simpl
           end; eauto.
Qed.

(** The item of game 7: its players are ranked 30 by [ranking], 1900 and 1850
    by the historical ratings. *)
Lemma from_api_dict_rank_override_witness :
  (exists w0 b0,
      getpath (Scenario.api_item (Scenario.game 7)) ["players"; "white"; "ranking"] = Ret w0
      /\ getpath (Scenario.api_item (Scenario.game 7)) ["players"; "black"; "ranking"] = Ret b0)
  /\ getpath (Scenario.api_item (Scenario.game 7)) (rating_path "white") = Ret (PInt 1900)
  /\ getpath (Scenario.api_item (Scenario.game 7)) (rating_path "black") = Ret (PInt 1850)
  /\ (exists u n,
         getpath (Scenario.api_item (Scenario.game 7)) ["players"; "white"; "username"] = Ret u
         /\ sanitize_name u = Ret n /\ PStr "shusaku" = PStr n)
  /\ (exists u n,
         getpath (Scenario.api_item (Scenario.game 7)) ["players"; "black"; "username"] = Ret u
         /\ sanitize_name u = Ret n /\ PStr "gennan" = PStr n)
  /\ (exists n, getitem (Scenario.api_item (Scenario.game 7)) "name" = Ret n
                /\ sanitize_name n = Ret "game 7").
Proof.
  apply (from_api_dict_rank_override (Scenario.api_item (Scenario.game 7)) (Scenario.game 7)).
  vm_compute. reflexivity.
Defined.

(** ** Reasoning about stateful code *)

Lemma bind_Ret_inv {A B} (c : M A) (k : A -> M B) (w w' : world) (b : B) :
  bind c k w = (Ret b, w') ->
  exists a w0, c w = (Ret a, w0) /\ k a w0 = (Ret b, w').
Proof.
  unfold bind. destruct (c w) as [[a| |] w0]; intros H; try discriminate. eauto.
Qed.

Lemma bind_Ret {A B} (c : M A) (k : A -> M B) (w w0 : world) (a : A) :
  c w = (Ret a, w0) -> bind c k w = k a w0.
Proof. unfold bind. by intros ->. Qed.

Lemma same_disk_trans w1 w2 w3 : same_disk w1 w2 -> same_disk w2 w3 -> same_disk w1 w3.
Proof. intros (?&?&?) (?&?&?). repeat split; congruence. Qed.

Lemma keeps_disk_bind {A B} (c : M A) (k : A -> M B) :
  keeps_disk c -> (forall a, keeps_disk (k a)) -> keeps_disk (bind c k).
Proof.
  intros Hc Hk w r w'. unfold bind.
  destruct (c w) as [[a| |] w0] eqn:E; intros H.
  - eapply same_disk_trans; [by eapply Hc | by eapply Hk].
  - injection H as <- <-. by eapply Hc.
  - injection H as <- <-. by eapply Hc.
Qed.

Lemma keeps_disk_lift {A} (c : outcome A) : keeps_disk (lift c).
Proof. intros w r w'. unfold lift. by intros [= <- <-]. Qed.

Lemma keeps_disk_ret {A} (a : A) : keeps_disk (ret a).
Proof. intros w r w'. unfold ret. by intros [= <- <-]. Qed.

Lemma keeps_disk_sleep ms : keeps_disk (sleep ms).
Proof. intros w r w'. unfold sleep. by intros [= <- <-]. Qed.

Lemma keeps_disk_raise {A} (e : exn) : keeps_disk (raise e : M A).
Proof. intros w r w'. unfold raise. by intros [= <- <-]. Qed.

Lemma keeps_disk_time_sleep ms : keeps_disk (time_sleep ms).
Proof.
  unfold time_sleep.
  destruct (ms <? 0)%Z; [apply keeps_disk_raise|].
  destruct (max_sleep <? ms)%Z; [apply keeps_disk_raise|apply keeps_disk_sleep].
Qed.

Lemma throttled_get_from_keeps_disk fuel url delay :
  keeps_disk (throttled_get_from fuel url delay).
Proof.
  revert delay. induction fuel as [|fuel IH]; intros delay; simpl.
  - intros w r w'. by intros [= <- <-].
  - repeat (apply keeps_disk_bind; [|intros ?]);
      try (intros w r w'; by intros [= <- <-]).
    + destruct (_ <? _)%Z; [apply keeps_disk_time_sleep | apply keeps_disk_ret].
    + destruct (_ =? _)%Z; [|apply keeps_disk_ret].
      apply keeps_disk_bind; [apply keeps_disk_time_sleep | intros _; apply IH].
Qed.

Lemma throttled_get_keeps_disk fuel url delay : keeps_disk (throttled_get fuel url delay).
Proof. apply throttled_get_from_keeps_disk. Qed.

Lemma list_user_games_next_keeps_disk fuel g : keeps_disk (list_user_games_next fuel g).
Proof.
  revert g. induction fuel as [|fuel IH]; intros g; simpl.
  - intros w r w'. by intros [= <- <-].
  - destruct g as [uid|data [|game pending]|].
    + repeat (apply keeps_disk_bind; [|intros ?]);
        auto using keeps_disk_lift, throttled_get_keeps_disk.
    + apply keeps_disk_bind; [apply keeps_disk_lift|intros next].
      destruct next; try apply keeps_disk_ret;
        repeat (apply keeps_disk_bind; [|intros ?]);
        auto using keeps_disk_lift, throttled_get_keeps_disk.
    + repeat (apply keeps_disk_bind; [|intros ?]);
        auto using keeps_disk_lift, keeps_disk_ret.
    + apply keeps_disk_ret.
Qed.

Lemma fetch_keeps_disk fuel n g : keeps_disk (fetch fuel n g).
Proof.
  revert fuel g. induction n as [|n IH]; intros fuel g; simpl.
  - apply keeps_disk_ret.
  - destruct fuel as [|fuel]; [intros w r w'; by intros [= <- <-]|].
    apply keeps_disk_bind; [apply list_user_games_next_keeps_disk|].
    intros [[game|] g']; [|apply keeps_disk_ret].
    apply keeps_disk_bind; [apply IH|]. intros [rest g'']. apply keeps_disk_ret.
Qed.

(** *** More fuel changes nothing *)

Lemma extends_refl {A} (c : M A) : extends c c.
Proof. by intros w r w' H _. Qed.

Lemma extends_out_of_fuel {A} (c : M A) : extends out_of_fuel c.
Proof. intros w r w' [= <- <-] H. by destruct H. Qed.

Lemma extends_bind {A B} (c c' : M A) (k k' : A -> M B) :
  extends c c' -> (forall a, extends (k a) (k' a)) -> extends (bind c k) (bind c' k').
Proof.
  intros Hc Hk w r w'. unfold bind.
  destruct (c w) as [[a| |] w0] eqn:E; intros H Hr.
  - rewrite (Hc _ _ _ E) by done. by apply Hk.
  - injection H as <- <-. by rewrite (Hc _ _ _ E).
  - injection H as <- <-. by destruct Hr.
Qed.

Lemma throttled_get_from_extends fuel fuel' url delay :
  (fuel <= fuel')%nat ->
  extends (throttled_get_from fuel url delay) (throttled_get_from fuel' url delay).
Proof.
  revert fuel' delay. induction fuel as [|fuel IH]; intros fuel' delay Hle.
  - apply extends_out_of_fuel.
  - destruct fuel' as [|fuel']; [lia|]. cbn [throttled_get_from].
    repeat (apply extends_bind; [apply extends_refl|intros ?]).
    destruct (_ =? _)%Z; [|apply extends_refl].
    apply extends_bind; [apply extends_refl|intros _]. apply IH. lia.
Qed.

Lemma throttled_get_extends fuel fuel' url delay :
  (fuel <= fuel')%nat -> extends (throttled_get fuel url delay) (throttled_get fuel' url delay).
Proof. intros Hle. apply throttled_get_from_extends. lia. Qed.

Lemma list_user_games_next_extends fuel fuel' g :
  (fuel <= fuel')%nat ->
  extends (list_user_games_next fuel g) (list_user_games_next fuel' g).
Proof.
  revert fuel' g. induction fuel as [|fuel IH]; intros fuel' g Hle.
  - apply extends_out_of_fuel.
  - destruct fuel' as [|fuel']; [lia|]. cbn [list_user_games_next].
    assert (fuel <= fuel')%nat by lia.
    destruct g as [uid|data [|game pending]|]; try apply extends_refl.
    + apply extends_bind; [by apply throttled_get_extends|intros ?].
      repeat (apply extends_bind; [apply extends_refl|intros ?]). by apply IH.
    + apply extends_bind; [apply extends_refl|intros next].
      destruct next; try apply extends_refl;
        (apply extends_bind; [apply extends_refl|intros ?]);
        (apply extends_bind; [by apply throttled_get_extends|intros ?]);
        repeat (apply extends_bind; [apply extends_refl|intros ?]); by apply IH.
Qed.

Lemma fetch_extends fuel fuel' n g :
  (fuel <= fuel')%nat -> extends (fetch fuel n g) (fetch fuel' n g).
Proof.
  revert fuel fuel' g. induction n as [|n IH]; intros fuel fuel' g Hle; cbn [fetch].
  - apply extends_refl.
  - destruct fuel as [|fuel]; [apply extends_out_of_fuel|].
    destruct fuel' as [|fuel']; [lia|].
    apply extends_bind; [by apply list_user_games_next_extends|].
    intros [[game|] g']; [|apply extends_refl].
    apply extends_bind; [apply IH; lia|]. intros [rest g'']. apply extends_refl.
Qed.

(** ** Paths *)

Lemma last_slash_app (a b : string) :
  last_slash (a +:+ b) =
  match last_slash b with
  | Some n => Some (String.length a + n)%nat
  | None => last_slash a
  end.
Proof.
  induction a as [|c a IH].
  - change ("" +:+ b) with b. by destruct (last_slash b).
  - change (String c a +:+ b) with (String c (a +:+ b)). simpl.
    rewrite IH. by destruct (last_slash b).
Qed.

Lemma pretty_N_go_no_slash (x : N) (s : string) :
  no_slash s -> no_slash (pretty_N_go x s).
Proof.
  revert s. induction (N.lt_wf_0 x) as [x _ IH]; intros s Hs.
  assert (x = 0 \/ 0 < x)%N as [->|Hx] by lia.
  - by rewrite pretty_N_go_0.
  - rewrite pretty_N_go_step by done. apply IH; [by apply N.div_lt|].
    unfold no_slash in *. simpl. rewrite Hs.
    unfold pretty_N_char. by repeat case_match.
Qed.

Lemma pretty_Z_no_slash (z : Z) : no_slash (pretty z).
Proof.
  destruct z as [|p|p]; [done| |].
  - unfold pretty, pretty_Z, pretty, pretty_positive, pretty, pretty_N.
    case_decide; [done|]. by apply pretty_N_go_no_slash.
  - unfold pretty, pretty_Z, pretty, pretty_positive, pretty, pretty_N.
    unfold no_slash. rewrite last_slash_app.
    case_decide; [done|]. by rewrite pretty_N_go_no_slash.
Qed.

Lemma dirname_index_path (user_id : Z) : dirname (index_path user_id) = "./index".
Proof.
  unfold dirname, index_path.
  rewrite last_slash_app, last_slash_app.
  by rewrite pretty_Z_no_slash.
Qed.

Lemma index_path_not_cwd (user_id : Z) : String.eqb (index_path user_id) "." = false.
Proof. done. Qed.

(** ** The index store *)

Lemma read_index_world (user_id : Z) (w w' : world) r :
  read_index user_id w = (r, w') -> w' = w.
Proof.
  unfold read_index, try_except, bind, read_file, lift, ret. intros H.
  repeat case_match; by simplify_eq.
Qed.


Lemma mkdir_index_there (w : world) :
  is_dir (fs w) "./index" = true ->
  Path_mkdir 0 "./index" false true w = (Ret tt, w).
Proof.
  unfold Path_mkdir, os_mkdir, is_dir. intros H.
  destruct (lookup_path (fs w) "./index") as [[| |]|] eqn:E; try discriminate.
  simpl. unfold is_dir. by rewrite E.
Qed.


(** ** build_index *)

Lemma index_loop_stops (old_games : list GameInfo.t) (P : list GameInfo.t) :
  forall fuel games count idx new_games w g games' w1,
    fetch fuel (S (length P)) games w = (Ret ((P ++ [g])%list, games'), w1) ->
    Forall (fun p => caught_up old_games p = false) P ->
    caught_up old_games g = true ->
    index_loop fuel old_games games count idx new_games w =
    (Ret (Some (count + length P)%nat, (new_games ++ P)%list), w1).
Proof.
  induction P as [|p P IH]; intros fuel games count idx new_games w g games' w1 Hf HP Hg;
    (destruct fuel as [|fuel]; [discriminate|]);
    cbn [fetch length] in Hf;
    apply bind_Ret_inv in Hf as ([item games0] & w0 & Hnext & Hf);
    (destruct item as [game|];
     [|injection Hf as Hf _ _; apply (f_equal length) in Hf;
       rewrite ?length_app in Hf; simpl in Hf; lia]).
  - injection Hf as -> <- <-.
    cbn [index_loop]. rewrite (bind_Ret _ _ _ _ _ Hnext), Hg.
    by rewrite Nat.add_0_r, app_nil_r.
  - apply bind_Ret_inv in Hf as ([rest games1] & w2 & Hrest & Hf).
    injection Hf as -> -> <- <-.
    inversion HP as [|? ? Hp HP']; subst.
    cbn [index_loop]. rewrite (bind_Ret _ _ _ _ _ Hnext), Hp.
    rewrite (IH _ _ _ _ _ _ _ _ _ Hrest HP' Hg).
    cbn [length]. by rewrite Nat.add_succ_r, <-app_assoc.
Qed.




Lemma index_loop_exhausted fuel old_games games count idx new_games w games' w' :
  list_user_games_next (S fuel) games w = (Ret (None, games'), w') ->
  index_loop (S fuel) old_games games count idx new_games w = (Ret (idx, new_games), w').
Proof. intros H. cbn [index_loop]. by rewrite (bind_Ret _ _ _ _ _ H). Qed.

Lemma index_loop_runs_out (old_games : list GameInfo.t) (P : list GameInfo.t) :
  forall fuel games count idx new_games w games' w1,
    fetch fuel (S (length P)) games w = (Ret (P, games'), w1) ->
    Forall (fun p => caught_up old_games p = false) P ->
    index_loop fuel old_games games count idx new_games w =
    (Ret (match P with
          | [] => idx
          | _ => Some (count + length P - 1)%nat
          end, (new_games ++ P)%list), w1).
Proof.
  induction P as [|p P IH]; intros fuel games count idx new_games w games' w1 Hf HP;
    (destruct fuel as [|fuel]; [discriminate|]);
    cbn [fetch length] in Hf;
    apply bind_Ret_inv in Hf as ([item games0] & w0 & Hnext & Hf);
    destruct item as [game|].
  - apply bind_Ret_inv in Hf as ([rest games1] & w2 & _ & Hf). discriminate.
  - injection Hf as <- <-.
    rewrite (index_loop_exhausted _ _ _ _ _ _ _ _ _ Hnext). by rewrite app_nil_r.
  - apply bind_Ret_inv in Hf as ([rest games1] & w2 & Hrest & Hf).
    injection Hf as -> -> <- <-.
    inversion HP as [|? ? Hp HP']; subst.
    cbn [index_loop]. rewrite (bind_Ret _ _ _ _ _ Hnext), Hp.
    rewrite (IH _ _ _ _ _ _ _ _ Hrest HP'). rewrite <-app_assoc.
    destruct P; cbn [length app];
      [replace (count + 1 - 1)%nat with count by lia
      |replace (S count + S (length P) - 1)%nat with (count + S (S (length P)) - 1)%nat by lia];
      done.
  - discriminate.
Qed.

(** C2.  When the fetch yields one new game and ends there (a first pull of
    a history of one game, say), [build_index] returns that game before the
    index it read and writes nothing: the files are as [mkdir] left them.
    The loop ends with [idx] at 0, the index of the one game, and the test
    [idx != 0] skips the write. *)
Theorem build_index_one_game_not_written fuel0 fuel user_id w w0 old_games g games w1 :
  Path_mkdir 0 "./index" false true w = (Ret tt, w0) ->
  read_index user_id w0 = (Ret old_games, w0) ->
  fetch fuel0 2 (Unstarted user_id) w0 = (Ret ([g], games), w1) ->
  caught_up old_games g = false ->
  (fuel0 <= fuel)%nat ->
  build_index fuel user_id w = (Ret (g :: old_games), w1) /\ fs w1 = fs w0.
Proof.
  intros Hmk Hread Hfetch Hg Hle.
  pose proof (fetch_extends _ _ 2 (Unstarted user_id) Hle _ _ _ Hfetch) as Hmore.
  clear Hfetch. assert (Hfetch := Hmore ltac:(done)). clear Hmore.
  split; [|by destruct (fetch_keeps_disk _ _ _ _ _ _ Hfetch)].
  unfold build_index.
  rewrite (bind_Ret _ _ _ _ _ Hmk), (bind_Ret _ _ _ _ _ Hread).
  erewrite bind_Ret; cycle 1.
  { eapply (index_loop_runs_out old_games [g]); [exact Hfetch|]. by constructor. }
  done.
Qed.

(** A first pull for user 5, whose whole history is game 9: no index file
    afterwards. *)
Lemma build_index_one_game_not_written_witness :
  (build_index 9 5 Scenario.first_pull =
   (Ret [Scenario.game 9], snd (fetch 9 2 (Unstarted 5) (snd (Path_mkdir 0 "./index" false true Scenario.first_pull))))
   /\ fs (snd (fetch 9 2 (Unstarted 5) (snd (Path_mkdir 0 "./index" false true Scenario.first_pull))))
      = fs (snd (Path_mkdir 0 "./index" false true Scenario.first_pull)))
  /\ fs (snd (build_index 9 5 Scenario.first_pull)) !! index_path 5 = None.
Proof.
  split.
  - refine (build_index_one_game_not_written 9 9 5 Scenario.first_pull
              (snd (Path_mkdir 0 "./index" false true Scenario.first_pull))
              [] (Scenario.game 9) (generator_after 9 2 5 Scenario.first_pull)
              (snd (fetch 9 2 (Unstarted 5) (snd (Path_mkdir 0 "./index" false true Scenario.first_pull))))
              _ _ _ _ _).
    + vm_compute. reflexivity.
    + vm_compute. reflexivity.
    + vm_compute. reflexivity.
    + reflexivity.
    + lia.
  - vm_compute. reflexivity.
Defined.

Lemma time_sleep_Ret (ms : Z) (w : world) :
  0 <= ms <= max_sleep -> time_sleep ms w = sleep ms w.
Proof.
  intros H. unfold time_sleep.
  rewrite (proj2 (Z.ltb_ge ms 0)) by lia. by rewrite (proj2 (Z.ltb_ge max_sleep ms)) by lia.
Qed.

(** The world after the wait of [throttled_get] and the request. *)
Lemma throttle_request (url : string) (w : world) (k : response -> M response) :
  (let* now := monotonic in
   let* last := get_last_call in
   let diff := now - last in
   let* _ := (if (diff <? 500)%Z then time_sleep (500 - diff) else ret tt) in
   let* result := requests_get url in
   let* t := monotonic in
   let* _ := set_last_call t in
   k result) w
  = k (server w (sent w) url)
      (mkWorld (fs w) (server w) (sent w ++ [url])
               (send_time w + elapsed (server w (sent w) url)) 0 (sigint w)).
Proof.
  unfold bind at 1 2, monotonic, get_last_call, send_time, last_call. cbv zeta.
  replace (clock w - (clock w - Z.of_N (idle w))) with (Z.of_N (idle w)) by lia.
  assert (max_sleep = 9223372036854) as Hmax by reflexivity.
  destruct (Z.of_N (idle w) <? 500)%Z eqn:E.
  - apply Z.ltb_lt in E. unfold bind at 1. rewrite time_sleep_Ret by lia.
    unfold sleep, bind, requests_get, monotonic, set_last_call. cbn [fs server sent clock idle sigint].
    rewrite Z.sub_diag. rewrite Z.max_r by lia.
    by replace (clock w + (500 - Z.of_N (idle w))) with (clock w - Z.of_N (idle w) + 500) by lia.
  - apply Z.ltb_ge in E.
    unfold ret, bind, requests_get, monotonic, set_last_call. cbn [fs server sent clock idle sigint].
    rewrite Z.sub_diag. by rewrite Z.max_l by lia.
Qed.

Lemma throttled_get_from_once (fuel : nat) (url : string) (delay : Z) (w : world) :
  status_code (server w (sent w) url) <> 429 ->
  throttled_get_from (S fuel) url delay w =
  (Ret (server w (sent w) url),
   mkWorld (fs w) (server w) (sent w ++ [url])
           (send_time w + elapsed (server w (sent w) url)) 0 (sigint w)).
Proof.
  intros H. apply Z.eqb_neq in H.
  cbn [throttled_get_from]. rewrite throttle_request. by rewrite H.
Qed.

Lemma throttled_get_once (fuel : nat) (url : string) (delay : Z) (w : world) :
  status_code (server w (sent w) url) <> 429 ->
  throttled_get (S fuel) url delay w =
  (Ret (server w (sent w) url),
   mkWorld (fs w) (server w) (sent w ++ [url])
           (send_time w + elapsed (server w (sent w) url)) 0 (sigint w)).
Proof. apply throttled_get_from_once. Qed.

Lemma throttled_get_answer (fuel : nat) (url : string) (delay : Z) (w : world) :
  status_code (server w (sent w) url) <> 429 ->
  exists w', throttled_get (S fuel) url delay w = (Ret (server w (sent w) url), w').
Proof. intros H. eexists. by apply throttled_get_once. Qed.

Lemma bind_lift {A B} (c : outcome A) (k : A -> M B) (w : world) (a : A) :
  c = Ret a -> bind (lift c) k w = k a w.
Proof. by intros ->. Qed.

Lemma first_page_empty fuel user_id w data results :
  status_code (server w (sent w) (games_url user_id)) <> 429 ->
  raise_for_status (server w (sent w) (games_url user_id)) = Ret tt ->
  response_json (server w (sent w) (games_url user_id)) = Ret data ->
  getitem data "results" = Ret results ->
  py_iter results = Ret [] ->
  getitem data "next" = Ret PNone ->
  exists w', list_user_games_next (S (S fuel)) (Unstarted user_id) w = (Ret (None, Finished), w').
Proof.
  intros Hst Hok Hjson Hres Hiter Hnext.
  destruct (throttled_get_answer fuel (games_url user_id) 10 w Hst) as [w1 Hget].
  exists w1. cbn [list_user_games_next].
  rewrite (bind_Ret _ _ _ _ _ Hget).
  rewrite (bind_lift _ _ _ _ Hok), (bind_lift _ _ _ _ Hjson).
  rewrite (bind_lift _ _ _ _ Hres), (bind_lift _ _ _ _ Hiter).
  by rewrite (bind_lift _ _ _ _ Hnext).
Qed.

(** C10.  When the first page of a user's games has no results and no next
    page, the loop of [build_index] binds nothing and the test that follows
    reads [idx] unbound: [build_index] raises [UnboundLocalError], a
    [NameError], where it would return the index it read. *)
Theorem build_index_no_games_unbound_idx fuel user_id w w0 old_games data results :
  Path_mkdir 0 "./index" false true w = (Ret tt, w0) ->
  read_index user_id w0 = (Ret old_games, w0) ->
  status_code (server w0 (sent w0) (games_url user_id)) <> 429 ->
  raise_for_status (server w0 (sent w0) (games_url user_id)) = Ret tt ->
  response_json (server w0 (sent w0) (games_url user_id)) = Ret data ->
  getitem data "results" = Ret results ->
  py_iter results = Ret [] ->
  getitem data "next" = Ret PNone ->
  exists e, fst (build_index (S (S fuel)) user_id w) = Raise e
            /\ e = UnboundLocalError "idx" /\ is_NameError e = true.
Proof.
  intros Hmk Hread Hst Hok Hjson Hres Hiter Hnext.
  exists (UnboundLocalError "idx"). split; [|done].
  destruct (first_page_empty fuel user_id w0 data results Hst Hok Hjson Hres Hiter Hnext)
    as [w1 Hfirst].
  unfold build_index.
  rewrite (bind_Ret _ _ _ _ _ Hmk), (bind_Ret _ _ _ _ _ Hread).
  by rewrite (bind_Ret _ _ _ _ _ (index_loop_exhausted _ _ _ _ _ _ _ _ _ Hfirst)).
Qed.

(** A first pull for a user without games. *)
Lemma build_index_no_games_unbound_idx_witness :
  exists e, fst (build_index 2 5 Scenario.no_history) = Raise e
            /\ e = UnboundLocalError "idx" /\ is_NameError e = true.
Proof.
  refine (build_index_no_games_unbound_idx 0 5 Scenario.no_history
            (set_fs (<["./index" := Dir]> (fs Scenario.no_history)) Scenario.no_history)
            [] (PDict [("results", PList []); ("next", PNone)]) (PList [])
            _ _ _ _ _ _ _ _).
  - vm_compute. reflexivity.
  - vm_compute. reflexivity.
  - vm_compute. discriminate.
  - reflexivity.
  - vm_compute. reflexivity.
  - reflexivity.
  - reflexivity.
  - reflexivity.
Defined.

(** ** read_index *)

Lemma obind_Raise_inv {A B} (c : outcome A) (k : A -> outcome B) (e : exn) :
  obind c k = Raise e -> c = Raise e \/ exists a, c = Ret a /\ k a = Raise e.
Proof. destruct c; simpl; intros H; [right; eauto | left; by injection H as -> | discriminate]. Qed.

Ltac split_raise H :=
  repeat match type of H with
         | obind _ _ = Raise _ =>
             apply obind_Raise_inv in H as [H|(? & _ & H)]
         end.

Lemma getitem_not_io d k e : getitem d k = Raise e -> not_io e.
Proof. unfold getitem. intros H. repeat case_match; by simplify_eq. Qed.

Lemma py_iter_not_io v e : py_iter v = Raise e -> not_io e.
Proof. destruct v; simpl; intros H; by simplify_eq. Qed.

Lemma join_kept_not_io cs e : join_kept cs = Raise e -> not_io e.
Proof.
  induction cs as [|c cs IH]; simpl; [discriminate|].
  destruct c; try (intros H; by simplify_eq).
  intros H. apply obind_Raise_inv in H as [H|(? & _ & H)]; [auto|discriminate].
Qed.

Lemma sanitize_name_not_io v e : sanitize_name v = Raise e -> not_io e.
Proof.
  unfold sanitize_name. intros H.
  apply obind_Raise_inv in H as [H|(? & _ & H)];
    eauto using py_iter_not_io, join_kept_not_io.
Qed.

Lemma loads_not_io s e : json.loads s = Raise e -> not_io e.
Proof. unfold json.loads. intros H. repeat case_match; by simplify_eq. Qed.

Lemma Player_from_dict_not_io d e : Player.from_dict d = Raise e -> not_io e.
Proof.
  unfold Player.from_dict. intros H. split_raise H;
    try discriminate; eauto using getitem_not_io.
Qed.

Lemma GameInfo_from_dict_not_io d e : GameInfo.from_dict d = Raise e -> not_io e.
Proof.
  unfold GameInfo.from_dict. intros H. split_raise H; try discriminate;
    eauto using getitem_not_io, sanitize_name_not_io, Player_from_dict_not_io.
Qed.

Lemma map_from_dict_not_io items e :
  map_outcome GameInfo.from_dict items = Raise e -> not_io e.
Proof.
  induction items as [|d items IH]; simpl; [discriminate|].
  intros H. split_raise H; try discriminate; eauto using GameInfo_from_dict_not_io.
Qed.

Lemma decode_index_not_io data e : decode_index data = Raise e -> not_io e.
Proof.
  unfold decode_index. intros H. split_raise H;
    eauto using loads_not_io, py_iter_not_io, map_from_dict_not_io.
Qed.

Lemma read_index_body (path : string) (w : world) (content : string) :
  lookup_path (fs w) path = Some (File content) ->
  (let* data := read_file path in
   let* data := lift (json.loads data) in
   let* items := lift (py_iter data) in
   lift (map_outcome GameInfo.from_dict items)) w = (decode_index content, w).
Proof.
  intros H. unfold bind, read_file, lift, decode_index. rewrite H.
  destruct (json.loads content) as [data| |]; simpl; try done.
  by destruct (py_iter data).
Qed.

(** C3, as amended.  [read_index] leaves the world as it is.  It returns the
    empty list when the index file is absent or cannot be opened, and the
    records of the file when its text decodes; when the text does not decode
    (malformed JSON, a record without its fields) the exception is raised to
    the caller: it is none of [IOError]'s, which alone [read_index] catches.
    The fields of a record are taken as they are, whatever their types. *)
Theorem read_index_outcomes (user_id : Z) (w : world) :
  read_index user_id w =
  (match lookup_path (fs w) (index_path user_id) with
   | Some (File content) => decode_index content
   | _ => Ret []
   end, w)
  /\ (forall content e, decode_index content = Raise e -> is_IOError e = false).
Proof.
  split; [|apply decode_index_not_io].
  unfold read_index, try_except.
  destruct (lookup_path (fs w) (index_path user_id)) as [[|content|]|] eqn:E.
  - unfold bind, read_file. by rewrite E.
  - rewrite (read_index_body _ _ _ E).
    destruct (decode_index content) as [games|e|] eqn:D; try done.
    by rewrite (decode_index_not_io _ _ D).
  - unfold bind, read_file. by rewrite E.
  - unfold bind, read_file. by rewrite E.
Qed.

(** C3, as stated, fails.  The index file of user 5 is cut off in the middle
    of a record and that of user 6 holds a record without fields: both files
    are there and can be read, and [read_index] raises to the caller. *)
Lemma read_index_raises_on_malformed :
  lookup_path (fs Scenario.damaged) (index_path 5) = Some (File "[{")
  /\ fst (read_index 5 Scenario.damaged) = Raise JSONDecodeError
  /\ lookup_path (fs Scenario.damaged) (index_path 6) = Some (File "[{}]")
  /\ fst (read_index 6 Scenario.damaged) = Raise (KeyError "id").
Proof. repeat split; vm_compute; reflexivity. Qed.

(** ** load_game *)

Lemma load_game_there (fuel : nat) (user_id : Z) (game_info : GameInfo.t) (w : world) :
  is_Some (lookup_path (fs w) (game_path user_id game_info)) ->
  load_game fuel user_id game_info w = (Ret tt, w).
Proof.
  intros H. unfold load_game, bind, Path_exists.
  by rewrite bool_decide_eq_true_2.
Qed.

Lemma write_file_Ret (path data : string) (w w' : world) :
  write_file path data w = (Ret tt, w') ->
  lookup_path (fs w') path = Some (File data) \/ path = ".".
Proof.
  unfold write_file, lookup_path. intros H.
  destruct (String.eqb path ".") eqn:E; [right; by apply String.eqb_eq|left].
  repeat case_match; simplify_eq; simpl; by rewrite lookup_insert_eq.
Qed.

Lemma load_game_leaves_file (fuel : nat) (user_id : Z) (game_info : GameInfo.t) (w w1 : world) :
  load_game fuel user_id game_info w = (Ret tt, w1) ->
  is_Some (lookup_path (fs w1) (game_path user_id game_info)).
Proof.
  unfold load_game. intros H.
  apply bind_Ret_inv in H as (there & w0 & Hex & H).
  unfold Path_exists in Hex. injection Hex as <- <-.
  case_bool_decide as Hthere.
  - by injection H as <-.
  - apply bind_Ret_inv in H as (resp & w2 & _ & H).
    apply bind_Ret_inv in H as (? & w3 & _ & H).
    unfold try_except in H.
    destruct (write_file _ _ w3) as [[[]|e|] w4] eqn:Hw.
    + injection H as <-. apply write_file_Ret in Hw as [->| ->]; eauto.
    + destruct (is_KeyboardInterrupt e); discriminate.
    + discriminate.
Qed.

(** C4.  When the archive path of a game already holds a file, [load_game]
    returns at once and the world is as before: nothing is requested and no
    file changes.  Hence after a call of [load_game] that returned, the file
    of the game is there and a second call for the same game leaves the world
    as the first left it: one file, the same content, no request. *)
Theorem load_game_idempotent (user_id : Z) (game_info : GameInfo.t) (w : world) :
  (forall fuel,
      is_Some (lookup_path (fs w) (game_path user_id game_info)) ->
      load_game fuel user_id game_info w = (Ret tt, w))
  /\ (forall fuel w1,
        load_game fuel user_id game_info w = (Ret tt, w1) ->
        is_Some (lookup_path (fs w1) (game_path user_id game_info))
        /\ forall fuel', load_game fuel' user_id game_info w1 = (Ret tt, w1)).
Proof.
  split.
  - intros fuel. apply load_game_there.
  - intros fuel w1 H. apply load_game_leaves_file in H.
    split; [done|]. intros fuel'. by apply load_game_there.
Qed.

(** Game 7 is fetched and written by a first call; a second call, which has
    no fuel for a request, returns with the world unchanged. *)
Lemma load_game_idempotent_witness :
  load_game 3 5 (Scenario.game 7) (snd (load_game 3 5 (Scenario.game 7) Scenario.archive))
  = (Ret tt, snd (load_game 3 5 (Scenario.game 7) Scenario.archive))
  /\ load_game 0 5 (Scenario.game 7) (snd (load_game 3 5 (Scenario.game 7) Scenario.archive))
     = (Ret tt, snd (load_game 3 5 (Scenario.game 7) Scenario.archive)).
Proof.
  split.
  - refine (proj1 (load_game_idempotent 5 (Scenario.game 7)
                     (snd (load_game 3 5 (Scenario.game 7) Scenario.archive))) 3%nat _).
    vm_compute. eauto.
  - refine (proj2 (proj2 (load_game_idempotent 5 (Scenario.game 7) Scenario.archive)
                     3%nat _ _) 0%nat).
    vm_compute. reflexivity.
Defined.

(** C5.  A Ctrl-C arrives during the write of a game's record, [n]
    characters in.  The handler calls [Path(path).delete()], which [Path]
    does not have: [load_game] ends in [AttributeError], not in the
    interrupt, and the file is left with the first [n] characters of the
    record. *)
Theorem load_game_interrupt_keeps_partial_file fuel user_id game_info w n :
  sigint w = Some n ->
  lookup_path (fs w) (game_path user_id game_info) = None ->
  is_dir (fs w) (dirname (game_path user_id game_info)) = true ->
  status_code (server w (sent w) (sgf_url game_info)) <> 429 ->
  raise_for_status (server w (sent w) (sgf_url game_info)) = Ret tt ->
  exists w',
    load_game (S fuel) user_id game_info w = (Raise AttributeError, w')
    /\ fs w' !! game_path user_id game_info =
       Some (File (String.substring 0 n (text (server w (sent w) (sgf_url game_info))))).
Proof.
  intros Hsig Hnone Hdir Hst Hok.
  destruct (throttled_get_answer fuel (sgf_url game_info) 10 w Hst) as [w1 Hget].
  destruct (throttled_get_keeps_disk _ _ _ _ _ _ Hget) as (Hfs & Hsig1 & _).
  unfold load_game, bind at 1, Path_exists. rewrite Hnone.
  rewrite bool_decide_eq_false_2 by (by intros [? ?]).
  rewrite (bind_Ret _ _ _ _ _ Hget), (bind_lift _ _ _ _ Hok).
  unfold try_except, write_file, is_dir in *. rewrite Hfs, Hnone, Hsig1, Hsig.
  destruct (lookup_path (fs w) (dirname _)) as [[| |]|]; try discriminate.
  simpl. eexists. split; [reflexivity|]. simpl. by rewrite lookup_insert_eq.
Qed.

(** The record of game 7, with a Ctrl-C eight characters into the write. *)
Lemma load_game_interrupt_keeps_partial_file_witness :
  exists w',
    load_game 1 5 (Scenario.game 7) Scenario.interrupted = (Raise AttributeError, w')
    /\ fs w' !! game_path 5 (Scenario.game 7) = Some (File "(;GM[1]F").
Proof.
  refine (load_game_interrupt_keeps_partial_file 0 5 (Scenario.game 7)
            Scenario.interrupted 8 _ _ _ _ _).
  - reflexivity.
  - vm_compute. reflexivity.
  - vm_compute. reflexivity.
  - vm_compute. discriminate.
  - reflexivity.
Defined.

(** ** take and load_all_games *)

(** C6.  User 5 has an index of two games.  With no limit, [load_all_games]
    loads both and then raises [TypeError]: [take] falls from its
    [yield from] into [range(None)].  With the limit 3, above the two games
    of the index, it loads both and raises [RuntimeError]: [next] on the
    exhausted iterator.  With the limit 1 it loads the newest game and
    returns. *)
Theorem load_all_games_limit_raises :
  fst (read_index 5 Scenario.library) = Ret (map Scenario.game [5; 4])
  /\ fst (load_all_games 9 None None Scenario.library) = Raise TypeError
  /\ fst (load_all_games 9 (Some 3) None Scenario.library) = Raise RuntimeError
  /\ (forall i, i ∈ [5; 4] ->
        fs (snd (load_all_games 9 None None Scenario.library))
          !! game_path 5 (Scenario.game i) = Some (File Scenario.sgf)
        /\ fs (snd (load_all_games 9 (Some 3) None Scenario.library))
             !! game_path 5 (Scenario.game i) = Some (File Scenario.sgf))
  /\ fst (load_all_games 9 (Some 1) None Scenario.library) = Ret tt
  /\ fs (snd (load_all_games 9 (Some 1) None Scenario.library))
       !! game_path 5 (Scenario.game 5) = Some (File Scenario.sgf)
  /\ fs (snd (load_all_games 9 (Some 1) None Scenario.library))
       !! game_path 5 (Scenario.game 4) = None.
Proof.
  split; [vm_compute; reflexivity|].
  split; [vm_compute; reflexivity|].
  split; [vm_compute; reflexivity|].
  split.
  { intros i Hi. apply list_elem_of_In in Hi. simpl in Hi.
    destruct Hi as [<-|[<-|[]]]; split; vm_compute; reflexivity. }
  repeat split; vm_compute; reflexivity.
Qed.

(** ** HTTP errors *)

(** C7.  The second page of user 5's games comes back with status 500.
    [list_user_games] hands the response to [.json()] unchecked: with a body
    that is not JSON the caller gets the decoder's exception, not an
    [HTTPError] with the status, and with a body that reads as a page the
    games of that body are taken as if the request had succeeded.  The same
    status on the first page raises [HTTPError 500]. *)
Theorem next_page_status_unchecked :
  status_code (server Scenario.failing_page [games_url 5] Scenario.page2) = 500
  /\ fst (build_index 9 5 Scenario.failing_page) = Raise ResponseDecodeError
  /\ fst (build_index 9 5 Scenario.failing_page_with_body) = Ret (map Scenario.game [7; 6; 5])
  /\ fst (build_index 9 5 Scenario.failing_first_page) = Raise (HTTPError 500)
  /\ sent (snd (build_index 9 5 Scenario.failing_page)) = [games_url 5; Scenario.page2].
Proof. repeat split; vm_compute; reflexivity. Qed.

(** * Further properties *)

(** ** Strings *)

Lemma app_cons (c : ascii) (a b : string) : String c a +:+ b = String c (a +:+ b).
Proof. reflexivity. Qed.

Lemma app_empty_r (a : string) : a +:+ "" = a.
Proof. induction a as [|c a IH]; [done|]. by rewrite app_cons, IH. Qed.

Lemma app_assoc_str (a b c : string) : (a +:+ b) +:+ c = a +:+ (b +:+ c).
Proof. induction a as [|x a IH]; [done|]. by rewrite !app_cons, IH. Qed.

Lemma length_app_str (a b : string) :
  String.length (a +:+ b) = (String.length a + String.length b)%nat.
Proof. induction a as [|x a IH]; [done|]. rewrite app_cons. simpl. by rewrite IH. Qed.

Lemma chars_app (a b : string) : chars (a +:+ b) = (chars a ++ chars b)%list.
Proof. induction a as [|x a IH]; [done|]. rewrite app_cons. simpl. by rewrite IH. Qed.

(** ** The codec reads back what it writes *)

Lemma scan_string_escape_char (c : ascii) (tail : string) :
  json.scan_string false (json.escape_char c +:+ tail) = json.cons_char c (json.scan_string false tail).
Proof.
  destruct c as [[] [] [] [] [] [] [] []]; reflexivity.
Qed.

Lemma scan_string_escape (s rest : string) :
  json.scan_string false (json.escape s +:+ String json.dquote rest) = Some (s, rest).
Proof.
  induction s as [|c s IH].
  - reflexivity.
  - cbn [json.escape]. rewrite app_assoc_str, scan_string_escape_char, IH. reflexivity.
Qed.

(** *** Numbers *)

Lemma pretty_N_go_app (x : N) (s : string) :
  pretty_N_go x s = pretty_N_go x "" +:+ s.
Proof.
  revert s. induction (N.lt_wf_0 x) as [x _ IH]; intros s.
  assert (x = 0 \/ 0 < x)%N as [->|Hx] by lia; [by rewrite !pretty_N_go_0|].
  rewrite (pretty_N_go_step x s), (pretty_N_go_step x "") by done.
  assert (x `div` 10 < x)%N as Hlt by (by apply N.div_lt).
  rewrite (IH _ Hlt (String _ s)), (IH _ Hlt (String _ "")).
  by rewrite app_assoc_str.
Qed.

Lemma pretty_N_char_digit (d : N) :
  (d < 10)%N ->
  json.is_digit (pretty_N_char d) = true
  /\ Z.of_N (N_of_ascii (pretty_N_char d)) - 48 = Z.of_N d
  /\ (Ascii.eqb (pretty_N_char d) "0" = true -> d = 0%N).
Proof.
  intros Hd.
  assert (d = 0 \/ d = 1 \/ d = 2 \/ d = 3 \/ d = 4 \/ d = 5 \/ d = 6 \/ d = 7
          \/ d = 8 \/ d = 9)%N as H by lia.
  repeat (destruct H as [->|H]); subst; repeat split; try done.
Qed.

Lemma pretty_N_go_digits (x : N) :
  all_digits (pretty_N_go x "") = true
  /\ json.decimal (pretty_N_go x "") = Z.of_N x
  /\ ((0 < x)%N ->
      exists c D, pretty_N_go x "" = String c D /\ Ascii.eqb c "0" = false).
Proof.
  induction (N.lt_wf_0 x) as [x _ IH].
  assert (x = 0 \/ 0 < x)%N as [->|Hx] by lia.
  { rewrite pretty_N_go_0. split; [done|split; [done|lia]]. }
  rewrite pretty_N_go_step by done. rewrite pretty_N_go_app.
  destruct (IH (x `div` 10)%N) as (Hall & Hdec & Hhead); [by apply N.div_lt|].
  destruct (pretty_N_char_digit (x `mod` 10)%N) as (Hd & Hv & Hz);
    [by apply N.mod_lt|].
  split; [|split].
  - unfold all_digits in *. rewrite chars_app, forallb_app, Hall. simpl. by rewrite Hd.
  - unfold json.decimal in *. rewrite chars_app, fold_left_app, Hdec. simpl.
    rewrite Hv. rewrite (N.div_mod x 10) at 3 by done.
    by rewrite N2Z.inj_add, N2Z.inj_mul.
  - intros _. destruct (N.eq_0_gt_0_cases (x `div` 10)) as [Hq|Hq].
    + rewrite Hq, pretty_N_go_0. eexists _, _. split; [reflexivity|].
      destruct (Ascii.eqb _ "0") eqn:E; [|done].
      specialize (Hz eq_refl). rewrite (N.div_mod x 10), Hq, Hz in Hx by done. done.
    + destruct (Hhead Hq) as (c & D & -> & Hc). rewrite app_cons. eauto.
Qed.

Lemma span_digits_app (D rest : string) :
  all_digits D = true -> no_digit_head rest = true ->
  json.span_digits (D +:+ rest) = (D, rest).
Proof.
  intros HD Hrest. induction D as [|c D IH].
  - change ("" +:+ rest) with rest. destruct rest as [|c rest]; [done|].
    simpl in *. by destruct (json.is_digit c).
  - rewrite app_cons. unfold all_digits in *. simpl in *.
    apply andb_true_iff in HD as [-> HD]. by rewrite IH.
Qed.

Lemma stops_no_digit_head rest : stops rest = true -> no_digit_head rest = true.
Proof.
  destruct rest as [|c rest]; [done|]. simpl. intros H.
  repeat (apply orb_true_iff in H as [H|H]); apply Ascii.eqb_eq in H; by subst.
Qed.

Lemma scan_frac_stops rest : stops rest = true -> json.scan_frac rest = ("", rest).
Proof.
  destruct rest as [|c rest]; [done|]. simpl. intros H.
  repeat (apply orb_true_iff in H as [H|H]); apply Ascii.eqb_eq in H; by subst.
Qed.

Lemma scan_exp_stops rest : stops rest = true -> json.scan_exp rest = ("", rest).
Proof.
  destruct rest as [|c rest]; [done|]. simpl. intros H.
  repeat (apply orb_true_iff in H as [H|H]); apply Ascii.eqb_eq in H; by subst.
Qed.

Lemma scan_int_pretty_N (x : N) (rest : string) :
  stops rest = true ->
  json.scan_int (pretty x +:+ rest) = Some (pretty x, rest)
  /\ json.decimal (pretty x) = Z.of_N x
  /\ exists c D, pretty x = String c D /\ json.is_digit c = true.
Proof.
  intros Hrest. unfold pretty, pretty_N. case_decide as Hx.
  - subst. repeat split; eauto.
  - destruct (pretty_N_go_digits x) as (Hall & Hdec & Hhead).
    destruct Hhead as (c & D & HD & Hc); [lia|]. rewrite HD in *.
    unfold all_digits in Hall. simpl in Hall. apply andb_true_iff in Hall as [Hdc Hall].
    split; [|split; [done|eauto]].
    rewrite app_cons. unfold json.scan_int. rewrite Hc, Hdc.
    rewrite span_digits_app; auto using stops_no_digit_head.
Qed.

Lemma scan_number_pretty (z : Z) (rest : string) :
  stops rest = true ->
  json.scan_number (pretty z +:+ rest) = Some (PInt z, rest).
Proof.
  intros Hrest. unfold json.scan_number.
  destruct z as [|p|p]; unfold pretty, pretty_Z.
  - change ("0" +:+ rest) with (String "0" rest). simpl.
    by rewrite scan_frac_stops, scan_exp_stops.
  - change (pretty p) with (pretty (Npos p)).
    destruct (scan_int_pretty_N (Npos p) rest Hrest) as (Hint & Hdec & c & D & HD & Hc).
    assert (Ascii.eqb c "-" = false) as Hneg.
    { destruct (Ascii.eqb c "-") eqn:E; [|done]. apply Ascii.eqb_eq in E. by subst. }
    rewrite HD in *. rewrite app_cons in *. rewrite Hneg, Hint.
    rewrite scan_frac_stops, scan_exp_stops by done. simpl. by rewrite Hdec.
  - change (pretty p) with (pretty (Npos p)).
    destruct (scan_int_pretty_N (Npos p) rest Hrest) as (Hint & Hdec & _).
    rewrite app_assoc_str.
    change ("-" +:+ (pretty (N.pos p) +:+ rest))
      with (String "-" (pretty (N.pos p) +:+ rest)).
    cbv beta iota zeta delta [Ascii.eqb Bool.eqb].
    rewrite Hint. rewrite scan_frac_stops, scan_exp_stops by done. simpl.
    by rewrite Hdec.
Qed.

(** *** Values *)

Lemma pyval_nested_ind (P : pyval -> Prop) :
  P PNone -> (forall b, P (PBool b)) -> (forall z, P (PInt z)) ->
  (forall l, P (PFloat l)) -> (forall s, P (PStr s)) ->
  (forall items, Forall P items -> P (PList items)) ->
  (forall pairs, Forall (fun kv => P (snd kv)) pairs -> P (PDict pairs)) ->
  forall v, P v.
Proof.
  intros HN HB HI HF HS HL HD. fix IH 1.
  intros [ | b | z | l | s | items | pairs];
    [apply HN | apply HB | apply HI | apply HF | apply HS | |].
  - apply HL. induction items as [|x items IHitems]; constructor; [apply IH | exact IHitems].
  - apply HD. induction pairs as [|[k x] pairs IHp]; constructor; [apply IH | exact IHp].
Qed.

Lemma prefix_app (p rest : string) : String.prefix p (p +:+ rest) = true.
Proof.
  induction p as [|c p IH].
  - by destruct rest.
  - rewrite app_cons. simpl. by destruct (ascii_dec c c).
Qed.

Lemma substring_skip (p rest : string) (n : nat) :
  String.substring (String.length p) n (p +:+ rest) = String.substring 0 n rest.
Proof. induction p as [|c p IH]; [done|]. rewrite app_cons. simpl. exact IH. Qed.

Lemma substring_all (s : string) : String.substring 0 (String.length s) s = s.
Proof. induction s as [|c s IH]; [done|]. simpl. by rewrite IH. Qed.

Lemma strip_prefix_app (p rest : string) : json.strip_prefix p (p +:+ rest) = Some rest.
Proof.
  unfold json.strip_prefix. rewrite prefix_app, substring_skip, length_app_str.
  replace (String.length p + String.length rest - String.length p)%nat
    with (String.length rest) by lia.
  by rewrite substring_all.
Qed.

Lemma num_head_dispatch (c : ascii) :
  num_head c = true ->
  Ascii.eqb c json.dquote = false /\ Ascii.eqb c "{" = false /\ Ascii.eqb c "[" = false
  /\ json.is_ws c = false /\ Ascii.eqb c "]" = false /\ Ascii.eqb c "}" = false
  /\ forall r, json.strip_prefix "null" (String c r) = None
               /\ json.strip_prefix "true" (String c r) = None
               /\ json.strip_prefix "false" (String c r) = None.
Proof.
  destruct c as [[] [] [] [] [] [] [] []]; intros H; try discriminate H;
    repeat split; reflexivity.
Qed.

Lemma pretty_Z_head (z : Z) :
  exists c D, pretty z = String c D /\ num_head c = true.
Proof.
  destruct z as [|p|p].
  - by exists "0"%char, "".
  - destruct (scan_int_pretty_N (Npos p) "" eq_refl) as (_ & _ & c & D & HD & Hc).
    exists c, D. split; [exact HD|]. unfold num_head. by rewrite Hc.
  - exists "-"%char, (pretty (Npos p)). done.
Qed.

Lemma literal_pretty (z : Z) (rest : string) :
  stops rest = true -> json.literal (pretty z +:+ rest) = Some (PInt z, rest).
Proof.
  intros Hrest. pose proof (scan_number_pretty z rest Hrest) as Hnum.
  destruct (pretty_Z_head z) as (c & D & HD & Hc). rewrite HD in *.
  rewrite app_cons in *.
  destruct (num_head_dispatch c Hc) as (_ & _ & _ & _ & _ & _ & Hpre).
  destruct (Hpre (D +:+ rest)) as (H1 & H2 & H3).
  unfold json.literal. by rewrite H1, H2, H3, Hnum.
Qed.

(** *** Float literals *)

Lemma span_digits_ext (s rest d r : string) :
  stops rest = true -> json.span_digits s = (d, r) ->
  json.span_digits (s +:+ rest) = (d, r +:+ rest).
Proof.
  intros Hrest. revert d r. induction s as [|c s IH]; intros d r H.
  - injection H as <- <-. change ("" +:+ rest) with rest.
    destruct rest as [|c rest]; [done|]. simpl.
    apply stops_no_digit_head in Hrest. simpl in Hrest.
    by destruct (json.is_digit c).
  - rewrite app_cons. simpl in *. destruct (json.is_digit c).
    + destruct (json.span_digits s) as [d' r'] eqn:E. injection H as <- <-.
      by rewrite (IH _ _ eq_refl).
    + by injection H as <- <-.
Qed.

Lemma scan_int_ext (s rest i r : string) :
  stops rest = true -> json.scan_int s = Some (i, r) ->
  json.scan_int (s +:+ rest) = Some (i, r +:+ rest).
Proof.
  intros Hrest. destruct s as [|c s]; [discriminate|]. rewrite app_cons. simpl.
  destruct (Ascii.eqb c "0"); [by intros [= <- <-]|].
  destruct (json.is_digit c); [|discriminate].
  destruct (json.span_digits s) as [d' r'] eqn:E. intros [= <- <-].
  by rewrite (span_digits_ext _ _ _ _ Hrest E).
Qed.

Lemma stops_head (rest : string) (c : ascii) :
  stops rest = true ->
  Ascii.eqb c "," = false -> Ascii.eqb c "]" = false -> Ascii.eqb c "}" = false ->
  match rest with String c' _ => Ascii.eqb c' c | EmptyString => false end = false.
Proof.
  destruct rest as [|c' rest]; [done|]. simpl. intros H H1 H2 H3.
  destruct (Ascii.eqb c' c) eqn:E; [|done]. apply Ascii.eqb_eq in E. subst.
  by rewrite H1, H2, H3 in H.
Qed.

Lemma scan_frac_ext (s rest f r : string) :
  stops rest = true -> json.scan_frac s = (f, r) ->
  json.scan_frac (s +:+ rest) = (f, r +:+ rest).
Proof.
  intros Hrest. destruct s as [|c s].
  - intros [= <- <-]. by apply scan_frac_stops.
  - rewrite app_cons. simpl. destruct (Ascii.eqb c "."); [|by intros [= <- <-]].
    destruct (json.span_digits s) as [d' r'] eqn:E.
    rewrite (span_digits_ext _ _ _ _ Hrest E).
    destruct d'; by intros [= <- <-].
Qed.

Lemma scan_sign_ext (s rest sg r : string) :
  stops rest = true -> json.scan_sign s = (sg, r) ->
  json.scan_sign (s +:+ rest) = (sg, r +:+ rest).
Proof.
  intros Hrest. destruct s as [|c s].
  - intros [= <- <-]. change ("" +:+ rest) with rest.
    destruct rest as [|c rest]; [done|]. simpl in *.
    destruct (Ascii.eqb c "+") eqn:E1; [apply Ascii.eqb_eq in E1; by subst|].
    destruct (Ascii.eqb c "-") eqn:E2; [apply Ascii.eqb_eq in E2; by subst|].
    done.
  - rewrite app_cons. simpl. destruct (_ || _); by intros [= <- <-].
Qed.

Lemma scan_exp_ext (s rest e r : string) :
  stops rest = true -> json.scan_exp s = (e, r) ->
  json.scan_exp (s +:+ rest) = (e, r +:+ rest).
Proof.
  intros Hrest. destruct s as [|c s].
  - intros [= <- <-]. by apply scan_exp_stops.
  - rewrite app_cons. simpl. destruct (_ || _); [|by intros [= <- <-]].
    destruct (json.scan_sign s) as [sg s'] eqn:Es.
    rewrite (scan_sign_ext _ _ _ _ Hrest Es).
    destruct (json.span_digits s') as [d' r'] eqn:E.
    rewrite (span_digits_ext _ _ _ _ Hrest E).
    destruct d'; by intros [= <- <-].
Qed.

Lemma scan_number_ext (s rest r : string) (v : pyval) :
  stops rest = true -> json.scan_number s = Some (v, r) ->
  json.scan_number (s +:+ rest) = Some (v, r +:+ rest)
  /\ exists c s', s = String c s' /\ num_head c = true.
Proof.
  intros Hrest. unfold json.scan_number.
  destruct s as [|c s]; [discriminate|]. rewrite app_cons.
  destruct (Ascii.eqb c "-") eqn:Hneg.
  - destruct (json.scan_int s) as [[i s2]|] eqn:Ei; [|discriminate].
    rewrite (scan_int_ext _ _ _ _ Hrest Ei).
    destruct (json.scan_frac s2) as [f s3] eqn:Ef.
    rewrite (scan_frac_ext _ _ _ _ Hrest Ef).
    destruct (json.scan_exp s3) as [e s4] eqn:Ee.
    rewrite (scan_exp_ext _ _ _ _ Hrest Ee).
    intros H. split.
    + destruct (_ && _); by injection H as <- <-.
    + exists c, s. split; [done|]. unfold num_head. by rewrite Hneg, orb_true_r.
  - destruct (json.scan_int (String c s)) as [[i s2]|] eqn:Ei; [|discriminate].
    pose proof (scan_int_ext _ rest _ _ Hrest Ei) as Ei'. rewrite app_cons in Ei'.
    rewrite Ei'.
    destruct (json.scan_frac s2) as [f s3] eqn:Ef.
    rewrite (scan_frac_ext _ _ _ _ Hrest Ef).
    destruct (json.scan_exp s3) as [e s4] eqn:Ee.
    rewrite (scan_exp_ext _ _ _ _ Hrest Ee).
    intros H. split.
    + destruct (_ && _); by injection H as <- <-.
    + exists c, s. split; [done|]. unfold num_head.
      simpl in Ei. destruct (Ascii.eqb c "0") eqn:E0.
      * apply Ascii.eqb_eq in E0. by subst.
      * destruct (json.is_digit c); [done|discriminate].
Qed.

Lemma literal_float (lit rest : string) :
  float_literal lit = true -> stops rest = true ->
  json.literal (lit +:+ rest) = Some (PFloat lit, rest)
  /\ exists c s', lit = String c s' /\ num_head c = true.
Proof.
  unfold float_literal. intros Hlit Hrest.
  destruct (json.scan_number lit) as [[v r]|] eqn:E; [|discriminate].
  destruct v; try discriminate. destruct r; [|discriminate].
  apply String.eqb_eq in Hlit. subst literal.
  destruct (scan_number_ext _ _ _ _ Hrest E) as (Hnum & c & s' & -> & Hc).
  split; [|eauto]. rewrite app_cons in *.
  destruct (num_head_dispatch c Hc) as (_ & _ & _ & _ & _ & _ & Hpre).
  destruct (Hpre (s' +:+ rest)) as (H1 & H2 & H3).
  unfold json.literal. by rewrite H1, H2, H3, Hnum.
Qed.

Lemma skip_ws_value (s : string) : value_head s = true -> json.skip_ws s = s.
Proof.
  destruct s as [|c s]; [done|]. simpl.
  destruct (json.is_ws c); [discriminate|done].
Qed.

Lemma dumps_head (v : pyval) (rest : string) :
  plain v = true -> value_head (json.dumps v +:+ rest) = true.
Proof.
  destruct v as [ | [] | z | l | s | items | pairs]; try done.
  2:{ cbn [plain json.dumps]. intros Hl.
      destruct (literal_float l "" Hl eq_refl) as (_ & c & s' & -> & Hc).
      rewrite app_cons.
      destruct (num_head_dispatch c Hc) as (_ & _ & _ & Hws & Hb & Hc' & _).
      simpl. by rewrite Hws, Hb, Hc'. }
  intros _. cbn [json.dumps].
  destruct (pretty_Z_head z) as (c & D & -> & Hc). rewrite app_cons.
  destruct (num_head_dispatch c Hc) as (_ & _ & _ & Hws & Hb & Hc' & _).
  simpl. by rewrite Hws, Hb, Hc'.
Qed.

Lemma sep_by_cons (sep p : string) (l : list string) :
  l <> [] -> json.sep_by sep (p :: l) = p +:+ sep +:+ json.sep_by sep l.
Proof. by destruct l. Qed.

Lemma skip_ws_space (X : string) : json.skip_ws (String " " X) = json.skip_ws X.
Proof. reflexivity. Qed.

Lemma comma_space (X : string) : ", " +:+ X = String "," (String " " X).
Proof. reflexivity. Qed.

Lemma value_head_inv (s : string) :
  value_head s = true ->
  exists c r, s = String c r /\ json.is_ws c = false
              /\ Ascii.eqb c "]" = false /\ Ascii.eqb c "}" = false.
Proof.
  destruct s as [|c r]; [discriminate|]. simpl. intros H.
  apply andb_true_iff in H as [H H3]. apply andb_true_iff in H as [H1 H2].
  exists c, r. repeat split; by apply negb_true_iff.
Qed.

Lemma sep_by_dumps_head (items : list pyval) (rest : string) :
  items <> [] -> forallb plain items = true ->
  value_head (json.sep_by ", " (map json.dumps items) +:+ rest) = true.
Proof.
  destruct items as [|v items]; [done|]. intros _ H. simpl in H.
  apply andb_true_iff in H as [Hv _]. cbn [map].
  destruct items as [|v2 more].
  - by apply dumps_head.
  - rewrite sep_by_cons by done. rewrite app_assoc_str. by apply dumps_head.
Qed.

Lemma parse_items_step (fuel : nat) (s : string) (acc : list pyval) (v : pyval) (r : string) :
  json.parse_value false fuel s = Some (v, r) ->
  json.parse_items false (S fuel) s acc =
  match json.skip_ws r with
  | String c r' =>
      if Ascii.eqb c "]" then Some (PList (acc ++ [v]), r')
      else if Ascii.eqb c ","
           then json.parse_items false fuel (json.skip_ws r') (acc ++ [v])
           else None
  | EmptyString => None
  end.
Proof. intros H. cbn [json.parse_items]. by rewrite H. Qed.

Lemma parse_items_dumps (items : list pyval) :
  Forall reads_back items -> forallb plain items = true -> items <> [] ->
  forall acc fuel rest,
    (list_sum (map (fun x => S (nodes x)) items) <= fuel)%nat ->
    json.parse_items false fuel
      (json.sep_by ", " (map json.dumps items) +:+ String "]" rest) acc
    = Some (PList (acc ++ items), rest).
Proof.
  induction 1 as [|v items Hv Hitems IH]; [done|].
  intros Hplain _ acc fuel rest Hfuel.
  simpl in Hplain. apply andb_true_iff in Hplain as [Hpv Hpl].
  cbn [map list_sum fold_right] in Hfuel.
  destruct fuel as [|fuel]; [lia|].
  destruct items as [|v2 more].
  - cbn [map json.sep_by].
    rewrite (parse_items_step _ _ _ v (String "]" rest)).
    + reflexivity.
    + apply Hv; [done|lia|done].
  - change (map json.dumps (v :: v2 :: more))
      with (json.dumps v :: map json.dumps (v2 :: more)).
    rewrite sep_by_cons by done. rewrite !app_assoc_str, comma_space.
    rewrite (parse_items_step _ _ _ v
               (String "," (String " "
                  (json.sep_by ", " (map json.dumps (v2 :: more)) +:+ String "]" rest)))).
    + cbn [json.skip_ws]. change (json.is_ws ",") with false. cbv iota.
      change (Ascii.eqb "," "]") with false. change (Ascii.eqb "," ",") with true.
      cbv iota. rewrite skip_ws_space, skip_ws_value by (by apply sep_by_dumps_head).
      rewrite IH; [by rewrite <-app_assoc|done|done|unfold list_sum; lia].
    + apply Hv; [done|lia|done].
Qed.

Lemma distinct_NoDup (ks : list string) : distinct ks = true -> NoDup ks.
Proof.
  induction ks as [|k ks IH]; [constructor|]. simpl. intros H.
  apply andb_true_iff in H as [Hk Hks]. constructor; [|by apply IH].
  intros Hin. apply negb_true_iff in Hk.
  assert (existsb (String.eqb k) ks = true) as E; [|congruence].
  apply existsb_exists. exists k. split; [by apply list_elem_of_In|apply String.eqb_refl].
Qed.

Lemma dict_set_fresh (k : string) (v : pyval) (acc : list (string * pyval)) :
  k ∉ map fst acc -> json.dict_set k v acc = (acc ++ [(k, v)])%list.
Proof.
  induction acc as [|[k' v'] acc IH]; [done|]. simpl. intros Hk.
  apply not_elem_of_cons in Hk as [Hne Hk].
  destruct (String.eqb k k') eqn:E; [apply String.eqb_eq in E; done|].
  by rewrite IH.
Qed.

Lemma member_shape (k : string) (v : pyval) (T : string) :
  member (k, v) +:+ T =
  String json.dquote
    (json.escape k +:+ String json.dquote (String ":" (String " " (json.dumps v +:+ T)))).
Proof.
  unfold member, json.quote, str1. cbn [fst snd].
  by rewrite !app_assoc_str.
Qed.

Lemma parse_members_step (fuel : nat) (k : string) (v : pyval) (X T : string)
    (acc : list (string * pyval)) :
  json.parse_value false fuel X = Some (v, T) ->
  value_head X = true ->
  json.parse_members false (S fuel)
    (String json.dquote (json.escape k +:+ String json.dquote (String ":" (String " " X)))) acc =
  match json.skip_ws T with
  | String c' r4 =>
      if Ascii.eqb c' "}" then Some (PDict (json.dict_set k v acc), r4)
      else if Ascii.eqb c' ","
           then json.parse_members false fuel (json.skip_ws r4) (json.dict_set k v acc)
           else None
  | EmptyString => None
  end.
Proof.
  intros H HX. cbn [json.parse_members].
  change (Ascii.eqb json.dquote json.dquote) with true. cbv iota.
  rewrite scan_string_escape. cbn [json.skip_ws].
  change (json.is_ws ":") with false. cbv iota.
  change (Ascii.eqb ":" ":") with true. cbv iota.
  rewrite skip_ws_space, (skip_ws_value X HX). by rewrite H.
Qed.

Lemma sep_by_member_head (pairs : list (string * pyval)) (rest : string) :
  pairs <> [] ->
  exists r, json.sep_by ", " (map member pairs) +:+ rest = String json.dquote r.
Proof.
  destruct pairs as [|[k v] pairs]; [done|]. intros _. cbn [map].
  destruct pairs as [|kv2 more].
  - cbn [json.sep_by]. rewrite member_shape. eauto.
  - rewrite sep_by_cons by done. rewrite app_assoc_str, member_shape. eauto.
Qed.

Lemma parse_members_dumps (pairs : list (string * pyval)) :
  Forall (fun kv => reads_back (snd kv)) pairs ->
  forallb (fun kv => plain (snd kv)) pairs = true -> pairs <> [] ->
  forall acc fuel rest,
    NoDup (map fst acc ++ map fst pairs) ->
    (list_sum (map (fun kv => S (nodes (snd kv))) pairs) <= fuel)%nat ->
    json.parse_members false fuel
      (json.sep_by ", " (map member pairs) +:+ String "}" rest) acc
    = Some (PDict (acc ++ pairs), rest).
Proof.
  induction 1 as [|[k v] pairs Hv Hpairs IH]; [done|].
  intros Hplain _ acc fuel rest Hnd Hfuel.
  simpl in Hplain. apply andb_true_iff in Hplain as [Hpv Hpl].
  cbn [map list_sum fold_right fst snd] in Hfuel, Hnd, Hv.
  assert (k ∉ map fst acc) as Hfresh.
  { apply NoDup_app in Hnd as (_ & Hdisj & _). intros Hin.
    apply (Hdisj k Hin). by left. }
  destruct fuel as [|fuel]; [lia|].
  destruct pairs as [|kv2 more].
  - cbn [map json.sep_by]. rewrite member_shape.
    rewrite (parse_members_step _ _ v _ (String "}" rest)).
    + cbn [json.skip_ws]. change (json.is_ws "}") with false. cbv iota.
      change (Ascii.eqb "}" "}") with true. cbv iota. by rewrite dict_set_fresh.
    + apply Hv; [done|lia|done].
    + by apply dumps_head.
  - change (map member ((k, v) :: kv2 :: more))
      with (member (k, v) :: map member (kv2 :: more)).
    rewrite sep_by_cons by done. rewrite !app_assoc_str, comma_space, member_shape.
    rewrite (parse_members_step _ _ v _
               (String "," (String " "
                  (json.sep_by ", " (map member (kv2 :: more)) +:+ String "}" rest)))).
    + cbn [json.skip_ws]. change (json.is_ws ",") with false. cbv iota.
      change (Ascii.eqb "," "}") with false. change (Ascii.eqb "," ",") with true.
      cbv iota. rewrite dict_set_fresh by done.
      destruct (sep_by_member_head (kv2 :: more) (String "}" rest)) as [r Hr]; [done|].
      rewrite skip_ws_space, (skip_ws_value _) by (by rewrite Hr).
      rewrite IH; [by rewrite <-app_assoc|done|done| |unfold list_sum; lia].
      rewrite map_app. cbn [map fst]. by rewrite <-app_assoc.
    + apply Hv; [done|lia|done].
    + by apply dumps_head.
Qed.

Lemma parse_value_literal (fuel : nat) (c : ascii) (r : string) :
  Ascii.eqb c json.dquote = false -> Ascii.eqb c "{" = false -> Ascii.eqb c "[" = false ->
  json.parse_value false (S fuel) (String c r) = json.literal (String c r).
Proof. intros H1 H2 H3. cbn [json.parse_value]. by rewrite H1, H2, H3. Qed.

Lemma parse_value_dumps (v : pyval) : reads_back v.
Proof.
  induction v as [ | b | z | l | s | items IH | pairs IH] using pyval_nested_ind;
    intros Hplain fuel rest Hfuel Hrest;
    (destruct fuel as [|fuel]; [simpl in Hfuel; lia|]).
  - change (json.dumps PNone +:+ rest) with (String "n" ("ull" +:+ rest)).
    rewrite parse_value_literal by done.
    change (String "n" ("ull" +:+ rest)) with ("null" +:+ rest).
    unfold json.literal. by rewrite strip_prefix_app.
  - destruct b.
    + change (json.dumps (PBool true) +:+ rest) with (String "t" ("rue" +:+ rest)).
      rewrite parse_value_literal by done. unfold json.literal.
      change (json.strip_prefix "null" (String "t" ("rue" +:+ rest))) with (@None string).
      change (String "t" ("rue" +:+ rest)) with ("true" +:+ rest).
      by rewrite strip_prefix_app.
    + change (json.dumps (PBool false) +:+ rest) with (String "f" ("alse" +:+ rest)).
      rewrite parse_value_literal by done. unfold json.literal.
      change (json.strip_prefix "null" (String "f" ("alse" +:+ rest))) with (@None string).
      change (json.strip_prefix "true" (String "f" ("alse" +:+ rest))) with (@None string).
      change (String "f" ("alse" +:+ rest)) with ("false" +:+ rest).
      by rewrite strip_prefix_app.
  - cbn [json.dumps]. pose proof (literal_pretty z rest Hrest) as Hlit.
    destruct (pretty_Z_head z) as (c & D & HD & Hc). rewrite HD in *.
    rewrite app_cons in *.
    destruct (num_head_dispatch c Hc) as (H1 & H2 & H3 & _).
    by rewrite parse_value_literal.
  - cbn [plain] in Hplain. cbn [json.dumps].
    destruct (literal_float l rest Hplain Hrest) as (Hlit & c & s' & -> & Hc).
    rewrite app_cons in *.
    destruct (num_head_dispatch c Hc) as (H1 & H2 & H3 & _).
    by rewrite parse_value_literal.
  - cbn [json.dumps]. unfold json.quote, str1. rewrite !app_assoc_str.
    change (String json.dquote "" +:+ ?X) with (String json.dquote X).
    cbn [json.parse_value].
    change (Ascii.eqb json.dquote json.dquote) with true. cbv iota.
    change (String json.dquote "" +:+ rest) with (String json.dquote rest).
    by rewrite scan_string_escape.
  - cbn [plain] in Hplain. cbn [nodes] in Hfuel. cbn [json.dumps].
    destruct items as [|v items].
    + reflexivity.
    + rewrite !app_assoc_str.
      change ("[" +:+ ?X) with (String "[" X).
      change ("]" +:+ rest) with (String "]" rest).
      destruct (value_head_inv _ (sep_by_dumps_head (v :: items) (String "]" rest)
                                    ltac:(done) Hplain))
        as (c & r & Hshape & Hws & Hb & _).
      cbn [json.parse_value].
      change (Ascii.eqb "[" json.dquote) with false.
      change (Ascii.eqb "[" "{") with false. change (Ascii.eqb "[" "[") with true.
      cbv iota. rewrite Hshape. cbn [json.skip_ws]. rewrite Hws, Hb. rewrite <-Hshape.
      rewrite (parse_items_dumps (v :: items) IH Hplain ltac:(done) [] fuel rest);
        [done|lia].
  - cbn [plain] in Hplain. apply andb_true_iff in Hplain as [Hkeys Hplain].
    cbn [nodes] in Hfuel. cbn [json.dumps].
    destruct pairs as [|kv pairs].
    + reflexivity.
    + rewrite !app_assoc_str.
      change ("{" +:+ ?X) with (String "{" X).
      change ("}" +:+ rest) with (String "}" rest).
      change (map (fun kv0 : string * pyval =>
                     json.quote (fst kv0) +:+ ": " +:+ json.dumps (snd kv0)))
        with (map member).
      destruct (sep_by_member_head (kv :: pairs) (String "}" rest) ltac:(done))
        as [r Hshape].
      cbn [json.parse_value].
      change (Ascii.eqb "{" json.dquote) with false.
      change (Ascii.eqb "{" "{") with true.
      cbv iota. rewrite Hshape. cbn [json.skip_ws].
      change (json.is_ws json.dquote) with false. cbv iota.
      change (Ascii.eqb json.dquote "}") with false. cbv iota. rewrite <-Hshape.
      rewrite (parse_members_dumps (kv :: pairs) IH Hplain ltac:(done) [] fuel rest);
        [done| |lia].
      by apply distinct_NoDup.
Qed.

Lemma sum_le_sep_by (ns : list nat) (parts : list string) :
  Forall2 (fun n p => (n <= 2 * String.length p)%nat) ns parts ->
  (list_sum (map S ns) <= 2 * String.length (json.sep_by ", " parts) + 1)%nat.
Proof.
  induction 1 as [|n p ns parts Hn Hrest IH]; [simpl; lia|].
  destruct Hrest as [|n2 p2 ns parts Hn2 Hrest].
  - simpl. lia.
  - rewrite sep_by_cons by done. rewrite !length_app_str.
    change (String.length ", ") with 2%nat.
    cbn [map list_sum fold_right] in *. unfold list_sum in *. lia.
Qed.

Lemma size_le_length (v : pyval) :
  plain v = true -> (nodes v <= 2 * String.length (json.dumps v))%nat.
Proof.
  induction v as [ | b | z | l | s | items IH | pairs IH] using pyval_nested_ind;
    intros Hplain.
  - simpl. lia.
  - destruct b; simpl; lia.
  - cbn [json.dumps nodes]. destruct (pretty_Z_head z) as (c & D & -> & _). simpl. lia.
  - cbn [plain] in Hplain. cbn [json.dumps nodes].
    destruct (literal_float l "" Hplain eq_refl) as (_ & c & s' & -> & _). simpl. lia.
  - cbn [json.dumps nodes]. unfold json.quote. rewrite !length_app_str. simpl. lia.
  - cbn [plain] in Hplain. cbn [json.dumps nodes]. rewrite !length_app_str.
    change (String.length "[") with 1%nat. change (String.length "]") with 1%nat.
    assert (list_sum (map S (map nodes items))
            <= 2 * String.length (json.sep_by ", " (map json.dumps items)) + 1)%nat
      as Hsum.
    { apply sum_le_sep_by. apply Forall2_fmap, Forall_Forall2_diag.
      rewrite Forall_forall in IH. apply Forall_forall. intros x Hx.
      apply IH; [done|]. rewrite forallb_forall in Hplain. apply Hplain.
      by apply list_elem_of_In. }
    rewrite map_map in Hsum. lia.
  - cbn [plain] in Hplain. apply andb_true_iff in Hplain as [_ Hplain].
    cbn [json.dumps nodes]. rewrite !length_app_str.
    change (String.length "{") with 1%nat. change (String.length "}") with 1%nat.
    assert (list_sum (map S (map (fun kv => nodes (snd kv)) pairs))
            <= 2 * String.length
                     (json.sep_by ", "
                        (map (fun kv => json.quote (fst kv) +:+ ": " +:+ json.dumps (snd kv))
                             pairs)) + 1)%nat
      as Hsum.
    { apply sum_le_sep_by. apply Forall2_fmap, Forall_Forall2_diag.
      rewrite Forall_forall in IH. apply Forall_forall. intros kv Hkv.
      rewrite !length_app_str.
      assert (nodes (snd kv) <= 2 * String.length (json.dumps (snd kv)))%nat; [|lia].
      apply IH; [done|]. rewrite forallb_forall in Hplain. apply Hplain.
      by apply list_elem_of_In. }
    rewrite map_map in Hsum. lia.
Qed.

Lemma loads_dumps (v : pyval) : plain v = true -> json.loads (json.dumps v) = Ret v.
Proof.
  intros Hplain. unfold json.loads.
  pose proof (dumps_head v "" Hplain) as Hhead. rewrite app_empty_r in Hhead.
  rewrite (skip_ws_value _ Hhead).
  rewrite <-(app_empty_r (json.dumps v)) at 2.
  rewrite (parse_value_dumps v Hplain _ "" ); [done| |done].
  pose proof (size_le_length v Hplain). lia.
Qed.

(** ** sanitize_name, again *)

Lemma keeps_str1_allowed (c : ascii) : keeps (str1 c) = allowed_char c.
Proof.
  unfold keeps, allowed_char, str1. simpl. rewrite andb_true_r.
  by destruct (Ascii.eqb c " "), (Ascii.eqb c "_").
Qed.

Lemma join_kept_filter (l : list ascii) :
  exists out, join_kept (map (fun c => PStr (str1 c)) l) = Ret out
              /\ chars out = List.filter allowed_char l.
Proof.
  induction l as [|c l (out & Hout & Hchars)]; simpl.
  - by exists "".
  - rewrite Hout. simpl. rewrite keeps_str1_allowed.
    destruct (allowed_char c); eexists; split; try reflexivity; [|done].
    change (str1 c +:+ out) with (String c out). simpl. by rewrite Hchars.
Qed.

Lemma sanitize_name_fixed (s : string) :
  forallb allowed_char (chars s) = true -> sanitize_name (PStr s) = Ret s.
Proof.
  unfold sanitize_name. simpl. induction s as [|c s IH]; simpl; [done|].
  intros H. apply andb_true_iff in H as [Hc Hs].
  by rewrite (IH Hs), keeps_str1_allowed, Hc.
Qed.

Lemma filter_all_allowed (l : list ascii) :
  forallb allowed_char (List.filter allowed_char l) = true.
Proof.
  induction l as [|c l IH]; [done|]. simpl.
  destruct (allowed_char c) eqn:E; [|done]. simpl. by rewrite E.
Qed.

(** X1. [sanitize_name] keeps every alphanumeric character, space and
    underscore of a string, in order, and nothing else; a sanitized string
    is left as it is by a second pass. *)
Theorem sanitize_name_keeps_allowed (name : string) :
  exists out, sanitize_name (PStr name) = Ret out
              /\ chars out = List.filter allowed_char (chars name)
              /\ sanitize_name (PStr out) = Ret out.
Proof.
  destruct (join_kept_filter (chars name)) as (out & Hout & Hchars).
  exists out. split; [exact Hout|]. split; [exact Hchars|].
  apply sanitize_name_fixed. rewrite Hchars. apply filter_all_allowed.
Qed.

(** What [sanitize_name] returns for any value it accepts, a list of strings
    as well as a string, has allowed characters only. *)
Lemma isalnum_allowed (s : string) :
  isalnum s = true -> forallb allowed_char (chars s) = true.
Proof.
  destruct s as [|c s]; [discriminate|]. unfold isalnum.
  generalize (chars (String c s)). intros l. induction l as [|x l IH]; [done|].
  simpl. intros H. apply andb_true_iff in H as [Hx Hl].
  unfold allowed_char at 1. by rewrite Hx, IH.
Qed.

Lemma keeps_allowed (s : string) :
  keeps s = true -> forallb allowed_char (chars s) = true.
Proof.
  unfold keeps. intros H.
  apply orb_true_iff in H as [H|H]; [apply orb_true_iff in H as [H|H]|].
  - by apply isalnum_allowed.
  - apply String.eqb_eq in H. by subst.
  - apply String.eqb_eq in H. by subst.
Qed.

Lemma join_kept_allowed (cs : list pyval) (out : string) :
  join_kept cs = Ret out -> forallb allowed_char (chars out) = true.
Proof.
  revert out. induction cs as [|c cs IH]; simpl; intros out H.
  - by injection H as <-.
  - destruct c; try discriminate.
    apply obind_Ret_inv in H as (tail & Htail & H). injection H as <-.
    specialize (IH _ Htail). destruct (keeps s) eqn:E; [|done].
    by rewrite chars_app, forallb_app, keeps_allowed.
Qed.

Lemma sanitize_name_allowed (v : pyval) (out : string) :
  sanitize_name v = Ret out -> forallb allowed_char (chars out) = true.
Proof.
  unfold sanitize_name. intros H.
  apply obind_Ret_inv in H as (cs & _ & H). by eapply join_kept_allowed.
Qed.

Lemma allowed_no_slash (s : string) :
  forallb allowed_char (chars s) = true -> no_slash s.
Proof.
  unfold no_slash. induction s as [|c s IH]; [done|]. simpl. intros H.
  apply andb_true_iff in H as [Hc Hs]. rewrite (IH Hs).
  destruct (Ascii.eqb c "/") eqn:E; [|done].
  apply Ascii.eqb_eq in E. by subst.
Qed.

Lemma no_slash_app (a b : string) : no_slash a -> no_slash b -> no_slash (a +:+ b).
Proof. unfold no_slash. intros Ha Hb. by rewrite last_slash_app, Hb. Qed.

Lemma substring_prefix (a b : string) : String.substring 0 (String.length a) (a +:+ b) = a.
Proof. induction a as [|c a IH]; [by destruct b|]. rewrite app_cons. simpl. by rewrite IH. Qed.

Lemma last_slash_lt (s : string) (n : nat) :
  last_slash s = Some n -> (n < String.length s)%nat.
Proof.
  revert n. induction s as [|c s IH]; [done|]. simpl. intros n.
  destruct (last_slash s) as [k|].
  - intros [= <-]. specialize (IH k eq_refl). lia.
  - destruct (Ascii.eqb c "/"); [intros [= <-]; lia|done].
Qed.

Lemma length_substring_0 (n : nat) (s : string) :
  (n <= String.length s)%nat -> String.length (String.substring 0 n s) = n.
Proof.
  revert s. induction n as [|n IH]; intros [|c s]; simpl; try done; try lia.
  intros H. rewrite IH; lia.
Qed.

(** Where the last slash of an archive path is, for names without one: at
    the end of the directory of the user, or inside the text of the id. *)
Lemma last_slash_game_path (user_id : Z) (g : GameInfo.t) :
  no_slash (GameInfo.name g) ->
  no_slash (py_str (Player.name (GameInfo.black g))) ->
  no_slash (py_str (Player.name (GameInfo.white g))) ->
  last_slash (game_path user_id g) =
  match last_slash (py_str (GameInfo.id g)) with
  | Some k => Some (String.length ("./games/" +:+ pretty user_id) + (1 + k))%nat
  | None => Some (String.length ("./games/" +:+ pretty user_id))
  end.
Proof.
  intros Hn Hb Hw. unfold game_path. cbv zeta. rewrite !app_assoc_str.
  assert (no_slash (" " +:+ GameInfo.name g +:+ " [" +:+
                    py_str (Player.name (GameInfo.black g)) +:+ " vs " +:+
                    py_str (Player.name (GameInfo.white g)) +:+ "]" +:+ ".sgf")) as Hrest
    by (repeat apply no_slash_app; done).
  rewrite (last_slash_app "./games/"), (last_slash_app (pretty user_id)).
  rewrite (last_slash_app "/"), (last_slash_app (py_str (GameInfo.id g))), Hrest.
  rewrite length_app_str.
  destruct (last_slash (py_str (GameInfo.id g))) as [k|].
  - change (String.length "/") with 1%nat. cbv iota. f_equal; lia.
  - change (last_slash "/") with (Some 0%nat). cbv iota. f_equal; lia.
Qed.

Lemma dirname_game_path (user_id : Z) (g : GameInfo.t) :
  no_slash (GameInfo.name g) ->
  no_slash (py_str (Player.name (GameInfo.black g))) ->
  no_slash (py_str (Player.name (GameInfo.white g))) ->
  dirname (game_path user_id g) = "./games/" +:+ pretty user_id
  <-> no_slash (py_str (GameInfo.id g)).
Proof.
  intros Hn Hb Hw. unfold dirname.
  pose proof (last_slash_game_path user_id g Hn Hb Hw) as Hlast.
  rewrite Hlast. unfold no_slash.
  destruct (last_slash (py_str (GameInfo.id g))) as [k|] eqn:Hid.
  - split; [|done]. intros Heq. apply (f_equal String.length) in Heq.
    apply last_slash_lt in Hlast. rewrite length_substring_0 in Heq; lia.
  - split; [done|]. intros _. unfold game_path. cbv zeta.
    rewrite <-(app_assoc_str "./games/"). apply substring_prefix.
Qed.

(** X2. For a game normalized from the API, the archive path lies directly
    in the archive directory of the user exactly when the text of the id
    has no slash: the sanitized names bring none, and the id goes into the
    file name as it is.  An integer id has none. *)
Theorem api_game_path_in_user_directory (dict : pyval) (g : GameInfo.t) (user_id : Z) :
  GameInfo.from_api_dict dict = Ret g ->
  (dirname (game_path user_id g) = "./games/" +:+ pretty user_id
   <-> no_slash (py_str (GameInfo.id g)))
  /\ (forall i, GameInfo.id g = PInt i ->
       dirname (game_path user_id g) = "./games/" +:+ pretty user_id).
Proof.
  intros H.
  assert (dirname (game_path user_id g) = "./games/" +:+ pretty user_id
          <-> no_slash (py_str (GameInfo.id g))) as Hiff.
  { unfold GameInfo.from_api_dict, Player.from_api_dict in H. inv_outcome.
    apply dirname_game_path;
      cbn [GameInfo.name GameInfo.black GameInfo.white Player.name Player.set_rank py_str];
      apply allowed_no_slash; eauto using sanitize_name_allowed. }
  split; [exact Hiff|]. intros i Hi. apply Hiff. rewrite Hi. apply pretty_Z_no_slash.
Qed.

(** Game 7, and the same item with the id [../../x]. *)
Lemma api_game_path_in_user_directory_witness :
  dirname (game_path 5 (Scenario.game 7)) = "./games/" +:+ pretty 5
  /\ dirname (game_path 5 (GameInfo.mk (PStr "../../x") "game 7"
                                       (Scenario.player "shusaku" 1900)
                                       (Scenario.player "gennan" 1850)))
     = "./games/5/../..".
Proof.
  split.
  - apply (api_game_path_in_user_directory (Scenario.api_item (Scenario.game 7))
             (Scenario.game 7) 5); [vm_compute; reflexivity|reflexivity].
  - vm_compute. reflexivity.
Defined.

(** ** The index file reads back *)

Lemma from_dict_asdict (g : GameInfo.t) :
  forallb allowed_char (chars (GameInfo.name g)) = true ->
  GameInfo.from_dict (asdict g) = Ret g.
Proof.
  intros Hname. destruct g as [id name [wn wr] [bn br]].
  unfold GameInfo.from_dict, asdict, Player_asdict, Player.from_dict.
  cbn [GameInfo.id GameInfo.name GameInfo.white GameInfo.black Player.name Player.rank] in *.
  cbn [getitem assoc String.eqb Ascii.eqb Bool.eqb obind].
  by rewrite (sanitize_name_fixed _ Hname).
Qed.

(** X3. A record that [GameInfo.from_api_dict] returned goes through the
    persisted shape unchanged: [from_dict] of its [asdict] is the record. *)
Theorem api_game_persists (dict : pyval) (g : GameInfo.t) :
  GameInfo.from_api_dict dict = Ret g -> GameInfo.from_dict (asdict g) = Ret g.
Proof.
  intros H. apply from_dict_asdict.
  unfold GameInfo.from_api_dict in H. inv_outcome.
  cbn [GameInfo.name]. eauto using sanitize_name_allowed.
Qed.

Lemma api_game_persists_witness :
  GameInfo.from_dict (asdict (Scenario.game 7)) = Ret (Scenario.game 7).
Proof.
  apply (api_game_persists (Scenario.api_item (Scenario.game 7))).
  vm_compute. reflexivity.
Defined.

Lemma asdict_plain (g : GameInfo.t) : storable g -> plain (asdict g) = true.
Proof.
  intros (_ & Hid & Hwn & Hw & Hbn & Hb). unfold asdict, Player_asdict.
  cbn [plain map fst snd forallb]. rewrite Hid, Hwn, Hw, Hbn, Hb. reflexivity.
Qed.

Lemma decode_index_text (games : list GameInfo.t) :
  Forall storable games -> decode_index (index_text games) = Ret games.
Proof.
  intros Hgames. unfold decode_index, index_text.
  rewrite loads_dumps.
  - cbn [obind py_iter]. induction Hgames as [|g games Hg _ IH]; [done|].
    cbn [map map_outcome]. destruct Hg as (Hname & _).
    by rewrite (from_dict_asdict g Hname), IH.
  - cbn [plain]. apply forallb_forall. intros v Hv.
    apply in_map_iff in Hv as (g & <- & Hg). apply asdict_plain.
    rewrite Forall_forall in Hgames. apply Hgames. by apply list_elem_of_In.
Qed.

(** X4. Once [write_index] has written the games of a user, [read_index]
    returns these very games, for games whose names are sanitized and whose
    ids and players' names and ranks are values the codec reads back:
    integers, strings and float literals, for instance, but neither NaN nor
    an infinity. *)
Theorem read_index_after_write_index (user_id : Z) (games : list GameInfo.t) (w w' : world) :
  Forall storable games ->
  write_index user_id games w = (Ret tt, w') ->
  read_index user_id w' = (Ret games, w').
Proof.
  intros Hgames Hwrite. unfold write_index in Hwrite.
  apply write_file_Ret in Hwrite as [Hfile|Hcwd]; [|discriminate Hcwd].
  unfold read_index, try_except.
  rewrite (read_index_body _ _ _ Hfile).
  fold (index_text games). by rewrite decode_index_text.
Qed.

(** The ranks of the first game are floats. *)
Lemma read_index_after_write_index_witness :
  read_index 5 (snd (write_index 5 [Samples.rated; Scenario.game 6] Scenario.damaged))
  = (Ret [Samples.rated; Scenario.game 6],
     snd (write_index 5 [Samples.rated; Scenario.game 6] Scenario.damaged)).
Proof.
  apply (read_index_after_write_index 5 [Samples.rated; Scenario.game 6] Scenario.damaged).
  - repeat constructor.
  - vm_compute. reflexivity.
Defined.

(** ** The name of an index file *)

Lemma basename_index_path (user_id : Z) :
  basename (index_path user_id) = pretty user_id +:+ ".json".
Proof.
  unfold basename, index_path.
  rewrite last_slash_app, last_slash_app, pretty_Z_no_slash.
  change (last_slash ".json") with (@None nat).
  change (last_slash "./index/") with (Some 7%nat). cbv iota.
  change (String.substring 8 ?n ("./index/" +:+ ?X)) with (String.substring 0 n X).
  rewrite length_app_str. change (String.length "./index/") with 8%nat.
  replace (8 + String.length (pretty user_id +:+ ".json") - 8)%nat
    with (String.length (pretty user_id +:+ ".json")) by lia.
  apply substring_all.
Qed.

Lemma int_of_string_pretty (z : Z) : int_of_string (pretty z) = Ret z.
Proof.
  destruct z as [|p|p].
  - reflexivity.
  - change (pretty (Z.pos p)) with (pretty (Npos p)).
    destruct (scan_int_pretty_N (Npos p) "" eq_refl) as (_ & Hdec & c & D & HD & Hc).
    unfold pretty, pretty_N in *. case_decide; [done|].
    destruct (pretty_N_go_digits (Npos p)) as (Hall & _ & _).
    rewrite HD in *. unfold int_of_string.
    assert (Ascii.eqb c "-" = false /\ Ascii.eqb c "+" = false) as [-> ->].
    { split; destruct (Ascii.eqb c _) eqn:E; try done; apply Ascii.eqb_eq in E; by subst. }
    unfold all_digits in Hall. by rewrite Hall, Hdec.
  - change (pretty (Z.neg p)) with (String "-" (pretty (Npos p))).
    destruct (scan_int_pretty_N (Npos p) "" eq_refl) as (_ & Hdec & c & D & HD & Hc).
    unfold pretty, pretty_N in *. case_decide; [done|].
    destruct (pretty_N_go_digits (Npos p)) as (Hall & _ & _).
    unfold int_of_string. cbn [Ascii.eqb Bool.eqb]. cbv iota.
    rewrite HD in *. unfold all_digits in Hall. by rewrite Hall, Hdec.
Qed.

Lemma index_file_stem (user_id : Z) :
  int_of_string
    (String.substring 0 (String.length (basename (index_path user_id)) - 5)
                      (basename (index_path user_id)))
  = Ret user_id.
Proof.
  rewrite basename_index_path, length_app_str. change (String.length ".json") with 5%nat.
  replace (String.length (pretty user_id) + 5 - 5)%nat
    with (String.length (pretty user_id)) by lia.
  rewrite substring_prefix. apply int_of_string_pretty.
Qed.

(** X5. The name [write_index] gives the index file of a user ends in
    [.json], and [get_all_indices] reads the user id back from it:
    [int(f[:-5])] is the id. *)
Theorem index_file_name_gives_user_id (user_id : Z) :
  endswith (basename (index_path user_id)) ".json" = true
  /\ int_of_string
       (String.substring 0 (String.length (basename (index_path user_id)) - 5)
                         (basename (index_path user_id)))
     = Ret user_id.
Proof.
  split; [|apply index_file_stem]. rewrite basename_index_path.
  unfold endswith. rewrite length_app_str.
  change (String.length ".json") with 5%nat.
  replace (String.length (pretty user_id) + 5 - 5)%nat
    with (String.length (pretty user_id)) by lia.
  rewrite substring_skip.
  replace (5 <=? String.length (pretty user_id) + 5)%nat with true
    by (symmetry; apply Nat.leb_le; lia).
  reflexivity.
Qed.

(** ** throttled_get, again *)

(** X6. A response [throttled_get] returns never has status 429. *)
Theorem throttled_get_never_returns_429 (fuel : nat) (url : string) (delay : Z)
    (w w' : world) (r : response) :
  throttled_get fuel url delay w = (Ret r, w') ->
  (status_code r =? 429)%Z = false.
Proof.
  unfold throttled_get. generalize (Nat.min fuel retry_room). intros n.
  revert delay w. induction n as [|n IH]; intros delay w; [discriminate|].
  cbn [throttled_get_from]. rewrite throttle_request.
  destruct (status_code (server w (sent w) url) =? 429)%Z eqn:E.
  - intros H. apply bind_Ret_inv in H as (? & w0 & _ & H). by eapply IH.
  - by intros [= <- <-].
Qed.

Lemma throttled_get_never_returns_429_witness :
  (status_code (server Scenario.archive [] (sgf_url (Scenario.game 7))) =? 429)%Z = false.
Proof.
  apply (throttled_get_never_returns_429 1 (sgf_url (Scenario.game 7)) 10 Scenario.archive
           (snd (throttled_get 1 (sgf_url (Scenario.game 7)) 10 Scenario.archive))).
  vm_compute. reflexivity.
Defined.

(** X7. When the server answers with a status other than 429,
    [throttled_get] sends one request and returns the answer.  The request
    goes out no earlier than 500 ms after the last call ended and no
    earlier than now, and without delay once both hold; the time the answer
    comes is recorded as the end of the last call.  Files and interrupt are
    untouched. *)
Theorem throttled_get_spacing (fuel : nat) (url : string) (delay : Z) (w : world) :
  status_code (server w (sent w) url) <> 429 ->
  exists w',
    throttled_get (S fuel) url delay w = (Ret (server w (sent w) url), w')
    /\ sent w' = (sent w ++ [url])%list
    /\ last_call w + 500 <= clock w' - elapsed (server w (sent w) url)
    /\ clock w <= clock w' - elapsed (server w (sent w) url)
    /\ (clock w' - elapsed (server w (sent w) url) = last_call w + 500
        \/ clock w' - elapsed (server w (sent w) url) = clock w)
    /\ last_call w' = clock w'
    /\ fs w' = fs w /\ sigint w' = sigint w.
Proof.
  intros H. eexists. split; [by apply throttled_get_once|].
  unfold last_call at 3. cbn [sent clock idle fs sigint]. unfold send_time.
  repeat split; lia.
Qed.

Lemma throttled_get_spacing_witness :
  exists w',
    throttled_get 1 (sgf_url (Scenario.game 7)) 10 Scenario.archive
    = (Ret (Scenario.ok Scenario.sgf), w')
    /\ sent w' = [sgf_url (Scenario.game 7)]
    /\ 0 + 500 <= clock w' - 120
    /\ 0 <= clock w' - 120
    /\ (clock w' - 120 = 0 + 500 \/ clock w' - 120 = 0)
    /\ last_call w' = clock w'
    /\ fs w' = fs Scenario.archive /\ sigint w' = None.
Proof.
  refine (throttled_get_spacing 0 (sgf_url (Scenario.game 7)) 10 Scenario.archive _).
  vm_compute. discriminate.
Defined.

(** A retry: the answer was 429 and the delay is one [time.sleep] takes. *)
Lemma throttled_get_from_429 (fuel : nat) (url : string) (delay : Z) (w : world) :
  status_code (server w (sent w) url) = 429 ->
  0 <= 1000 * delay <= max_sleep ->
  throttled_get_from (S fuel) url delay w =
  throttled_get_from fuel url (delay * 2)
    (mkWorld (fs w) (server w) (sent w ++ [url])
             (send_time w + elapsed (server w (sent w) url) + 1000 * delay)
             (Z.to_N (1000 * delay)) (sigint w)).
Proof.
  intros H Hfit. apply Z.eqb_eq in H.
  cbn [throttled_get_from]. rewrite throttle_request, H.
  unfold bind at 1. rewrite time_sleep_Ret by done. reflexivity.
Qed.

(** The delay has grown beyond what [time.sleep] takes. *)
Lemma throttled_get_from_too_long (fuel : nat) (url : string) (delay : Z) (w : world) :
  status_code (server w (sent w) url) = 429 ->
  max_sleep < 1000 * delay ->
  throttled_get_from (S fuel) url delay w =
  (Raise OverflowError,
   mkWorld (fs w) (server w) (sent w ++ [url])
           (send_time w + elapsed (server w (sent w) url)) 0 (sigint w)).
Proof.
  intros H Hlong. apply Z.eqb_eq in H.
  assert (max_sleep = 9223372036854) as Hmax by reflexivity.
  cbn [throttled_get_from]. rewrite throttle_request, H.
  unfold bind at 1, time_sleep.
  rewrite (proj2 (Z.ltb_ge (1000 * delay) 0)) by lia.
  by rewrite (proj2 (Z.ltb_lt max_sleep (1000 * delay))) by lia.
Qed.

(** With a delay of a second or more, the delays that [time.sleep] takes
    are few. *)
Lemma delays_fit_few (k : nat) (delay : Z) :
  1 <= delay ->
  (forall j, (j < k)%nat -> 1000 * delay * 2 ^ Z.of_nat j <= max_sleep) ->
  (k <= 34)%nat.
Proof.
  intros Hdelay Hfit. destruct (le_lt_dec k 34) as [|Hk]; [done|].
  specialize (Hfit 34%nat Hk). change (2 ^ Z.of_nat 34) with 17179869184 in Hfit.
  unfold max_sleep in Hfit. lia.
Qed.

Lemma throttled_get_from_overflow (k fuel : nat) (url : string) :
  forall (delay : Z) (w : world),
    0 <= delay ->
    (forall history, status_code (server w history url) = 429) ->
    (forall j, (j < k)%nat -> 1000 * delay * 2 ^ Z.of_nat j <= max_sleep) ->
    max_sleep < 1000 * delay * 2 ^ Z.of_nat k ->
    exists w',
      throttled_get_from (S k + fuel) url delay w = (Raise OverflowError, w')
      /\ sent w' = (sent w ++ replicate (S k) url)%list /\ fs w' = fs w.
Proof.
  induction k as [|k IH]; intros delay w Hdelay Hbusy Hfit Hlong.
  - change (2 ^ Z.of_nat 0) with 1 in Hlong.
    rewrite (throttled_get_from_too_long _ _ _ _ (Hbusy _)) by lia.
    eexists. split; [reflexivity|]. split; reflexivity.
  - pose proof (Hfit 0%nat ltac:(lia)) as Hfirst. change (2 ^ Z.of_nat 0) with 1 in Hfirst.
    change (S (S k) + fuel)%nat with (S (S k + fuel)).
    rewrite (throttled_get_from_429 _ _ _ _ (Hbusy _)) by lia.
    set (w1 := mkWorld _ _ _ _ _ _).
    destruct (IH (delay * 2) w1) as (w' & Hrun & Hsent & Hfs); [lia|exact Hbusy| |..].
    + intros j Hj. specialize (Hfit (S j) ltac:(lia)).
      rewrite Nat2Z.inj_succ, Z.pow_succ_r in Hfit by lia. lia.
    + rewrite Nat2Z.inj_succ, Z.pow_succ_r in Hlong by lia. lia.
    + exists w'. split; [exact Hrun|]. split; [|exact Hfs].
      rewrite Hsent. unfold w1. cbn [sent replicate]. by rewrite <-app_assoc.
Qed.

(** X8. When every answer of the server to a URL has status 429,
    [throttled_get], with a delay of a second or more, returns no response:
    it retries, doubling the delay, as long as [time.sleep] takes the delay,
    and ends in the [OverflowError] of the first sleep that is too long.
    With [k] sleeps taken, [k + 1] requests went out; no file changed. *)
Theorem throttled_get_busy_ends_in_overflow (k fuel : nat) (url : string) (delay : Z)
    (w : world) :
  1 <= delay ->
  (forall history, status_code (server w history url) = 429) ->
  (forall j, (j < k)%nat -> 1000 * delay * 2 ^ Z.of_nat j <= max_sleep) ->
  max_sleep < 1000 * delay * 2 ^ Z.of_nat k ->
  (exists w',
      throttled_get (S k + fuel) url delay w = (Raise OverflowError, w')
      /\ sent w' = (sent w ++ replicate (S k) url)%list /\ fs w' = fs w)
  /\ (forall fuel' r, fst (throttled_get fuel' url delay w) <> Ret r).
Proof.
  intros Hdelay Hbusy Hfit Hlong.
  pose proof (delays_fit_few k delay Hdelay Hfit) as Hk.
  assert (exists w',
             throttled_get (S k + fuel) url delay w = (Raise OverflowError, w')
             /\ sent w' = (sent w ++ replicate (S k) url)%list /\ fs w' = fs w) as Hrun.
  { unfold throttled_get.
    replace (Nat.min (S k + fuel) retry_room)
      with (S k + (Nat.min (S k + fuel) retry_room - S k))%nat by (unfold retry_room; lia).
    apply throttled_get_from_overflow; [lia|done..]. }
  split; [exact Hrun|]. intros fuel' r Hret.
  destruct Hrun as (w' & Hrun & _).
  destruct (throttled_get fuel' url delay w) as [r' w2] eqn:E. simpl in Hret. subst r'.
  destruct (le_lt_dec fuel' (S k + fuel)) as [Hle|Hlt].
  - pose proof (throttled_get_extends _ _ url delay Hle _ _ _ E ltac:(done)). congruence.
  - pose proof (throttled_get_extends (S k + fuel) fuel' url delay ltac:(lia) _ _ _ Hrun
                  ltac:(done)).
    congruence.
Qed.

(** The default delay, 10 s: the sleep of the 31st call is the first that
    is too long. *)
Lemma throttled_get_busy_ends_in_overflow_witness :
  exists w',
    throttled_get 31 (sgf_url (Scenario.game 7)) 10 Samples.busy = (Raise OverflowError, w')
    /\ sent w' = ([] ++ replicate 31 (sgf_url (Scenario.game 7)))%list
    /\ fs w' = fs Samples.busy.
Proof.
  refine (proj1 (throttled_get_busy_ends_in_overflow 30 0 (sgf_url (Scenario.game 7)) 10
                   Samples.busy _ _ _ _)).
  - lia.
  - intros history. reflexivity.
  - intros j Hj.
    assert (2 ^ Z.of_nat j <= 2 ^ 29) as Hpow by (apply Z.pow_le_mono_r; lia).
    change (2 ^ 29) with 536870912 in Hpow. unfold max_sleep. lia.
  - reflexivity.
Defined.

(** X9. When the server answers 429 to the first [k] requests of a URL and
    something else to the next one, [throttled_get], with a delay of a
    second or more whose doubles [time.sleep] takes, sends [k + 1] requests
    of that URL and returns the last answer.  Between them it sleeps the
    delay, twice the delay, four times the delay, and so on: beyond the
    time the requests took, [delay * (2^k - 1)] seconds have passed. *)
Theorem throttled_get_backoff (k fuel : nat) (url : string) (delay : Z) (w : world) :
  1 <= delay ->
  (forall j, (j < k)%nat -> 1000 * delay * 2 ^ Z.of_nat j <= max_sleep) ->
  Forall (fun r => status_code r = 429) (answers (server w) k url (sent w)) ->
  status_code (server w (sent w ++ replicate k url) url) <> 429 ->
  throttled_get (S (k + fuel)) url delay w =
  (Ret (server w (sent w ++ replicate k url) url),
   mkWorld (fs w) (server w) (sent w ++ replicate (S k) url)
           (send_time w + total_elapsed (answers (server w) (S k) url (sent w))
            + 1000 * delay * (2 ^ Z.of_nat k - 1))
           0 (sigint w)).
Proof.
  intros Hdelay Hfit. pose proof (delays_fit_few k delay Hdelay Hfit) as Hk.
  unfold throttled_get.
  replace (Nat.min (S (k + fuel)) retry_room)
    with (S (k + (Nat.min (S (k + fuel)) retry_room - S k)))%nat by (unfold retry_room; lia).
  generalize (Nat.min (S (k + fuel)) retry_room - S k)%nat. clear fuel Hk. intros fuel.
  revert delay w Hdelay Hfit. induction k as [|k IH]; intros delay w Hdelay Hfit Hbusy Hlast.
  - rewrite app_nil_r in *. rewrite (throttled_get_from_once _ _ _ _ Hlast).
    cbn [answers total_elapsed fold_right replicate].
    change (2 ^ Z.of_nat 0) with 1.
    f_equal. f_equal; lia.
  - cbn [answers] in Hbusy. apply Forall_cons in Hbusy as [H429 Hbusy].
    pose proof (Hfit 0%nat ltac:(lia)) as Hfirst. change (2 ^ Z.of_nat 0) with 1 in Hfirst.
    change (S (S k + fuel)) with (S (S (k + fuel))).
    rewrite (throttled_get_from_429 _ _ _ _ H429) by lia.
    set (w1 := mkWorld _ _ _ _ _ _).
    assert (send_time w1 = send_time w + elapsed (server w (sent w) url) + 1000 * delay)
      as Hsend.
    { unfold send_time at 1, last_call. unfold w1. cbn [clock idle].
      rewrite Z2N.id by lia. lia. }
    rewrite (IH (delay * 2) w1); [| lia | | exact Hbusy |].
    + rewrite Hsend. unfold w1. cbn [fs server sent sigint].
      cbn [answers total_elapsed fold_right replicate].
      rewrite <-!app_assoc. cbn [app].
      rewrite Nat2Z.inj_succ, Z.pow_succ_r by lia.
      f_equal. f_equal; unfold total_elapsed; lia.
    + intros j Hj. specialize (Hfit (S j) ltac:(lia)).
      rewrite Nat2Z.inj_succ, Z.pow_succ_r in Hfit by lia. lia.
    + unfold w1. cbn [server sent]. by rewrite <-app_assoc.
Qed.

Lemma throttled_get_backoff_witness :
  throttled_get 3 (sgf_url (Scenario.game 7)) 10 Samples.busy_twice =
  (Ret (Scenario.ok Scenario.sgf),
   mkWorld (fs Scenario.archive) (server Samples.busy_twice)
           [sgf_url (Scenario.game 7); sgf_url (Scenario.game 7); sgf_url (Scenario.game 7)]
           30720 0 None).
Proof.
  refine (throttled_get_backoff 2 0 (sgf_url (Scenario.game 7)) 10 Samples.busy_twice _ _ _ _).
  - lia.
  - intros j Hj.
    assert (2 ^ Z.of_nat j <= 2 ^ 1) as Hpow by (apply Z.pow_le_mono_r; lia).
    change (2 ^ 1) with 2 in Hpow. unfold max_sleep. lia.
  - repeat constructor.
  - vm_compute. discriminate.
Defined.

(** ** What build_index and load_game leave alone *)

Lemma bind_Raise {A B} (c : M A) (k : A -> M B) (w w0 : world) (e : exn) :
  c w = (Raise e, w0) -> bind c k w = (Raise e, w0).
Proof. unfold bind. by intros ->. Qed.

Lemma touches_only_bind {A B} ps (c : M A) (k : A -> M B) :
  touches_only ps c -> (forall a, touches_only ps (k a)) -> touches_only ps (bind c k).
Proof.
  intros Hc Hk w r w' p. unfold bind.
  destruct (c w) as [[a| |] w0] eqn:E; intros H Hp.
  - rewrite (Hk a _ _ _ _ H Hp). by eapply Hc.
  - injection H as <- <-. by eapply Hc.
  - injection H as <- <-. by eapply Hc.
Qed.

Lemma keeps_disk_touches {A} ps (c : M A) : keeps_disk c -> touches_only ps c.
Proof. intros Hc w r w' p H _. destruct (Hc _ _ _ H) as (-> & _). done. Qed.

Lemma touches_only_ret {A} ps (a : A) : touches_only ps (ret a).
Proof. intros w r w' p H _. by injection H as <- <-. Qed.

Lemma touches_only_raise {A} ps (e : exn) : touches_only ps (raise e : M A).
Proof. intros w r w' p H _. by injection H as <- <-. Qed.

Lemma os_mkdir_touches path : touches_only [path] (os_mkdir path).
Proof.
  intros w r w' p. unfold os_mkdir. intros H Hp.
  apply not_elem_of_cons in Hp as [Hp _].
  repeat case_match; simplify_eq; try done.
  simpl. by rewrite lookup_insert_ne.
Qed.

Lemma mkdir_index_touches : touches_only ["./index"] (Path_mkdir 0 "./index" false true).
Proof.
  intros w r w' p. cbn [Path_mkdir]. intros H Hp.
  destruct (os_mkdir "./index" w) as [r0 w0] eqn:E.
  pose proof (os_mkdir_touches _ _ _ _ _ E Hp) as Hsame.
  destruct r0 as [[]|e|]; [by injection H as <- <-| |by injection H as <- <-].
  destruct e; simpl in H; repeat case_match; by simplify_eq.
Qed.

Lemma write_file_touches path data : touches_only [path] (write_file path data).
Proof.
  intros w r w' p. unfold write_file. intros H Hp.
  apply not_elem_of_cons in Hp as [Hp _].
  repeat case_match; simplify_eq; try done; simpl; by rewrite lookup_insert_ne.
Qed.

Lemma touches_only_weaken {A} ps qs (c : M A) :
  (forall p, p ∈ ps -> p ∈ qs) -> touches_only ps c -> touches_only qs c.
Proof. intros Hsub Hc w r w' p H Hp. eapply Hc; [done|]. intros Hin. by apply Hp, Hsub. Qed.

Lemma index_loop_keeps_disk fuel old_games games count idx new_games :
  keeps_disk (index_loop fuel old_games games count idx new_games).
Proof.
  revert games count idx new_games.
  induction fuel as [|fuel IH]; intros games count idx new_games; cbn [index_loop].
  - intros w r w'. by intros [= <- <-].
  - apply keeps_disk_bind; [apply list_user_games_next_keeps_disk|].
    intros [[game|] games']; [|apply keeps_disk_ret].
    destruct (caught_up old_games game); [apply keeps_disk_ret|apply IH].
Qed.

Lemma read_index_keeps_disk user_id : keeps_disk (read_index user_id).
Proof. intros w r w' H. by rewrite (read_index_world _ _ _ _ H). Qed.

(** X10. However [build_index] ends, with a result or an exception, the
    only paths it has changed are the index directory and the index file of
    the user. *)
Theorem build_index_touches_index_only (fuel : nat) (user_id : Z) (w : world) (p : string) :
  p <> "./index" -> p <> index_path user_id ->
  fs (snd (build_index fuel user_id w)) !! p = fs w !! p.
Proof.
  intros H1 H2.
  assert (touches_only ["./index"; index_path user_id] (build_index fuel user_id)) as Hb.
  { unfold build_index.
    apply touches_only_bind.
    { eapply touches_only_weaken; [|apply mkdir_index_touches].
      intros q. rewrite !elem_of_cons, !elem_of_nil. tauto. }
    intros _. apply touches_only_bind;
      [apply keeps_disk_touches, read_index_keeps_disk|intros old_games].
    apply touches_only_bind;
      [apply keeps_disk_touches, index_loop_keeps_disk|intros [idx new_games]].
    destruct idx as [idx|]; [|apply touches_only_raise].
    apply touches_only_bind; [|intros _; apply touches_only_ret].
    destruct (negb _); [|apply touches_only_ret].
    eapply touches_only_weaken; [|apply write_file_touches].
    intros q. rewrite !elem_of_cons, !elem_of_nil. tauto. }
  destruct (build_index fuel user_id w) as [r w'] eqn:E.
  eapply Hb; [exact E|]. rewrite !elem_of_cons, elem_of_nil. tauto.
Qed.

Lemma build_index_touches_index_only_witness :
  fs (snd (build_index 9 5 Scenario.damaged)) !! index_path 6 = Some (File "[{}]").
Proof.
  refine (build_index_touches_index_only 9 5 Scenario.damaged (index_path 6) _ _).
  - vm_compute. discriminate.
  - vm_compute. discriminate.
Defined.

(** X11. However [load_game] ends, the only path it has changed is the
    archive path of the game. *)
Theorem load_game_touches_archive_path_only (fuel : nat) (user_id : Z)
    (game_info : GameInfo.t) (w : world) (p : string) :
  p <> game_path user_id game_info ->
  fs (snd (load_game fuel user_id game_info w)) !! p = fs w !! p.
Proof.
  intros Hp.
  assert (touches_only [game_path user_id game_info] (load_game fuel user_id game_info)) as Hl.
  { unfold load_game. apply touches_only_bind.
    { intros w0 r w' q H _. by injection H as <- <-. }
    intros [|]; [apply touches_only_ret|].
    apply touches_only_bind;
      [apply keeps_disk_touches, throttled_get_keeps_disk|intros resp].
    apply touches_only_bind; [apply keeps_disk_touches, keeps_disk_lift|intros _].
    intros w0 r w' q. unfold try_except.
    destruct (write_file _ _ w0) as [r0 w1] eqn:E. intros H Hq.
    pose proof (write_file_touches _ _ _ _ _ _ E Hq) as Hsame.
    destruct r0 as [[]|e|]; [by injection H as <- <-| |by injection H as <- <-].
    destruct (is_KeyboardInterrupt e); by injection H as <- <-. }
  destruct (load_game fuel user_id game_info w) as [r w'] eqn:E.
  eapply Hl; [exact E|]. rewrite !elem_of_cons, elem_of_nil. tauto.
Qed.

Lemma load_game_touches_archive_path_only_witness :
  fs (snd (load_game 9 5 (Scenario.game 7) Scenario.archive)) !! "./games/5" = Some Dir.
Proof.
  refine (load_game_touches_archive_path_only 9 5 (Scenario.game 7) Scenario.archive
            "./games/5" _).
  vm_compute. discriminate.
Defined.

(** ** build_index, again *)

Lemma index_loop_appends fuel old_games :
  forall games count idx new_games w idx' new_games' w',
    index_loop fuel old_games games count idx new_games w = (Ret (idx', new_games'), w') ->
    exists added, new_games' = (new_games ++ added)%list
                  /\ Forall (fun g => caught_up old_games g = false) added.
Proof.
  induction fuel as [|fuel IH]; intros games count idx new_games w idx' new_games' w' H;
    [discriminate|].
  cbn [index_loop] in H.
  apply bind_Ret_inv in H as ([item games0] & w0 & _ & H).
  destruct item as [game|].
  - destruct (caught_up old_games game) eqn:E.
    + injection H as <- <- <-. exists []. by rewrite app_nil_r.
    + apply IH in H as (added & -> & Hadded).
      exists (game :: added). rewrite <-app_assoc. split; [done|]. by constructor.
  - injection H as <- <- <-. exists []. by rewrite app_nil_r.
Qed.

(** X12. An index [build_index] returns is the index it read with new
    games put in front: no known game is dropped or moved, and none of the
    new games has the id of the newest known game. *)
Theorem build_index_prepends (fuel : nat) (user_id : Z) (w w' : world)
    (all_games : list GameInfo.t) :
  build_index fuel user_id w = (Ret all_games, w') ->
  exists w0 old_games new_games,
    Path_mkdir 0 "./index" false true w = (Ret tt, w0)
    /\ read_index user_id w0 = (Ret old_games, w0)
    /\ all_games = (new_games ++ old_games)%list
    /\ Forall (fun g => caught_up old_games g = false) new_games.
Proof.
  unfold build_index. intros H.
  apply bind_Ret_inv in H as ([] & w0 & Hmk & H).
  apply bind_Ret_inv in H as (old_games & w1 & Hread & H).
  pose proof (read_index_world _ _ _ _ Hread) as ->.
  apply bind_Ret_inv in H as ([idx new_games] & w2 & Hloop & H).
  apply index_loop_appends in Hloop as (added & -> & Hadded).
  destruct idx as [idx|]; [|discriminate].
  apply bind_Ret_inv in H as ([] & w3 & _ & H). injection H as <- <-.
  exists w0, old_games, added. repeat split; done.
Qed.

Lemma build_index_prepends_witness :
  exists w0 old_games new_games,
    Path_mkdir 0 "./index" false true Scenario.behind = (Ret tt, w0)
    /\ read_index 5 w0 = (Ret old_games, w0)
    /\ map Scenario.game [7; 6; 5; 4] = (new_games ++ old_games)%list
    /\ Forall (fun g => caught_up old_games g = false) new_games.
Proof.
  apply (build_index_prepends 40 5 Scenario.behind (snd (build_index 40 5 Scenario.behind))).
  vm_compute. reflexivity.
Defined.

Lemma first_page_error fuel user_id w :
  status_code (server w (sent w) (games_url user_id)) <> 429 ->
  (400 <= status_code (server w (sent w) (games_url user_id)) < 600)%Z ->
  exists w1,
    list_user_games_next (S (S fuel)) (Unstarted user_id) w =
    (Raise (HTTPError (status_code (server w (sent w) (games_url user_id)))), w1)
    /\ fs w1 = fs w /\ sent w1 = (sent w ++ [games_url user_id])%list.
Proof.
  intros Hst Hrange. eexists. cbn [list_user_games_next].
  rewrite (bind_Ret _ _ _ _ _ (throttled_get_once fuel _ 10 w Hst)).
  split.
  { apply bind_Raise. unfold lift, raise_for_status.
    replace (400 <=? _)%Z with true by (symmetry; apply Z.leb_le; lia).
    replace (_ <? 600)%Z with true by (symmetry; apply Z.ltb_lt; lia).
    reflexivity. }
  split; reflexivity.
Qed.

(** X13. When the first page of a user's games comes back with a status
    from 400 to 599 other than 429, [build_index] raises [HTTPError] with
    that status after this one request, and writes nothing. *)
Theorem build_index_first_page_error (fuel : nat) (user_id : Z) (w w0 : world)
    (old_games : list GameInfo.t) :
  Path_mkdir 0 "./index" false true w = (Ret tt, w0) ->
  read_index user_id w0 = (Ret old_games, w0) ->
  status_code (server w0 (sent w0) (games_url user_id)) <> 429 ->
  (400 <= status_code (server w0 (sent w0) (games_url user_id)) < 600)%Z ->
  exists w1,
    build_index (S (S fuel)) user_id w =
    (Raise (HTTPError (status_code (server w0 (sent w0) (games_url user_id)))), w1)
    /\ fs w1 = fs w0 /\ sent w1 = (sent w0 ++ [games_url user_id])%list.
Proof.
  intros Hmk Hread Hst Hrange.
  destruct (first_page_error fuel user_id w0 Hst Hrange) as (w1 & Hnext & Hfs & Hsent).
  exists w1. split; [|done]. unfold build_index.
  rewrite (bind_Ret _ _ _ _ _ Hmk), (bind_Ret _ _ _ _ _ Hread).
  apply bind_Raise. cbn [index_loop]. by apply bind_Raise.
Qed.

Lemma build_index_first_page_error_witness :
  exists w1,
    build_index 2 5 Scenario.failing_first_page = (Raise (HTTPError 500), w1)
    /\ fs w1 = fs (snd (Path_mkdir 0 "./index" false true Scenario.failing_first_page))
    /\ sent w1 = [games_url 5].
Proof.
  refine (build_index_first_page_error 0 5 Scenario.failing_first_page
            (snd (Path_mkdir 0 "./index" false true Scenario.failing_first_page)) [] _ _ _ _).
  - vm_compute. reflexivity.
  - vm_compute. reflexivity.
  - vm_compute. discriminate.
  - vm_compute. split; [discriminate|reflexivity].
Defined.

(** ** load_game, again *)

(** X14. When the archive file is absent and the server answers the SGF
    request with a status from 400 to 599 other than 429, [load_game]
    raises [HTTPError] with that status after this one request, and no file
    is created. *)
Theorem load_game_http_error (fuel : nat) (user_id : Z) (game_info : GameInfo.t) (w : world) :
  lookup_path (fs w) (game_path user_id game_info) = None ->
  status_code (server w (sent w) (sgf_url game_info)) <> 429 ->
  (400 <= status_code (server w (sent w) (sgf_url game_info)) < 600)%Z ->
  exists w1,
    load_game (S fuel) user_id game_info w =
    (Raise (HTTPError (status_code (server w (sent w) (sgf_url game_info)))), w1)
    /\ fs w1 = fs w /\ sent w1 = (sent w ++ [sgf_url game_info])%list.
Proof.
  intros Hnone Hst Hrange. eexists. unfold load_game, bind at 1, Path_exists.
  rewrite Hnone. rewrite bool_decide_eq_false_2 by (by intros [? ?]).
  rewrite (bind_Ret _ _ _ _ _ (throttled_get_once fuel _ 10 w Hst)).
  split.
  { apply bind_Raise. unfold lift, raise_for_status.
    replace (400 <=? _)%Z with true by (symmetry; apply Z.leb_le; lia).
    replace (_ <? 600)%Z with true by (symmetry; apply Z.ltb_lt; lia).
    reflexivity. }
  split; reflexivity.
Qed.

Lemma load_game_http_error_witness :
  exists w1,
    load_game 1 5 (Scenario.game 8) Scenario.archive = (Raise (HTTPError 404), w1)
    /\ fs w1 = fs Scenario.archive /\ sent w1 = [sgf_url (Scenario.game 8)].
Proof.
  refine (load_game_http_error 0 5 (Scenario.game 8) Scenario.archive _ _ _).
  - vm_compute. reflexivity.
  - vm_compute. discriminate.
  - vm_compute. split; [discriminate|reflexivity].
Defined.

(** X15. When the archive file is absent, its directory is there, no
    interrupt is pending and the server answers the SGF request with a
    status that is neither 429 nor an error, [load_game] sends this one
    request and returns; the file then holds the text of the answer, as it
    came. *)
Theorem load_game_writes_response_text (fuel : nat) (user_id : Z) (game_info : GameInfo.t)
    (w : world) :
  lookup_path (fs w) (game_path user_id game_info) = None ->
  is_dir (fs w) (dirname (game_path user_id game_info)) = true ->
  sigint w = None ->
  status_code (server w (sent w) (sgf_url game_info)) <> 429 ->
  raise_for_status (server w (sent w) (sgf_url game_info)) = Ret tt ->
  exists w1,
    load_game (S fuel) user_id game_info w = (Ret tt, w1)
    /\ fs w1 = <[game_path user_id game_info :=
                   File (text (server w (sent w) (sgf_url game_info)))]> (fs w)
    /\ sent w1 = (sent w ++ [sgf_url game_info])%list.
Proof.
  intros Hnone Hdir Hsig Hst Hok. eexists. unfold load_game, bind at 1, Path_exists.
  rewrite Hnone. rewrite bool_decide_eq_false_2 by (by intros [? ?]).
  rewrite (bind_Ret _ _ _ _ _ (throttled_get_once fuel _ 10 w Hst)).
  rewrite (bind_lift _ _ _ _ Hok).
  unfold try_except, write_file, is_dir in *. cbn [fs sigint]. rewrite Hnone, Hsig.
  destruct (lookup_path (fs w) (dirname _)) as [[| |]|]; try discriminate.
  split; [reflexivity|]. split; reflexivity.
Qed.

Lemma load_game_writes_response_text_witness :
  exists w1,
    load_game 1 5 (Scenario.game 7) Scenario.archive = (Ret tt, w1)
    /\ fs w1 = <[game_path 5 (Scenario.game 7) := File Scenario.sgf]> (fs Scenario.archive)
    /\ sent w1 = [sgf_url (Scenario.game 7)].
Proof.
  refine (load_game_writes_response_text 0 5 (Scenario.game 7) Scenario.archive _ _ _ _ _).
  - vm_compute. reflexivity.
  - vm_compute. reflexivity.
  - reflexivity.
  - vm_compute. discriminate.
  - vm_compute. reflexivity.
Defined.

(** ** take and load_all_games, again *)

Lemma take_loop_firstn {A} (n : nat) (l : list A) :
  take_loop n l =
  (firstn n l, if (n <=? length l)%nat then None else Some RuntimeError).
Proof.
  revert l. induction n as [|n IH]; intros l; [done|].
  destruct l as [|x l]; [done|]. cbn [take_loop]. rewrite IH. reflexivity.
Qed.

(** X16. With a count, [take] yields the first [count] items of the list
    (none for a negative count); it ends normally when the list has that
    many, and in [RuntimeError], after yielding the whole list, when it has
    fewer. *)
Theorem take_count {A} (iterator : list A) (count : Z) :
  take iterator (Some count) =
  (firstn (Z.to_nat count) iterator,
   if (count <=? Z.of_nat (length iterator))%Z then None else Some RuntimeError).
Proof.
  unfold take. rewrite take_loop_firstn. f_equal.
  destruct (count <=? Z.of_nat (length iterator))%Z eqn:E.
  - apply Z.leb_le in E. replace (_ <=? _)%nat with true; [done|].
    symmetry. apply Nat.leb_le. lia.
  - apply Z.leb_gt in E. replace (_ <=? _)%nat with false; [done|].
    symmetry. apply Nat.leb_gt. lia.
Qed.

Lemma refresh_indices_added (fuel : nat) (added keys : list Z)
    (indices : list (Z * list GameInfo.t)) (w : world) :
  Forall (fun k => k ∈ added) keys ->
  refresh_indices fuel (Some added) keys indices w = (Ret indices, w).
Proof.
  induction 1 as [|k keys Hk _ IH]; [done|]. cbn [refresh_indices is_added].
  replace (existsb (Z.eqb k) added) with true; [exact IH|].
  symmetry. apply existsb_exists. exists k. split; [by apply list_elem_of_In|apply Z.eqb_refl].
Qed.

(** X17. The first loop of [load_all_games] rebuilds the index of the users
    that are not listed in [added], in their order, and of no other: a
    listed user is passed over wherever it stands among the keys.  Without
    [added], every index is rebuilt. *)
Theorem refresh_indices_skips_added (fuel : nat) (added keys : list Z)
    (indices : list (Z * list GameInfo.t)) (w : world) :
  refresh_indices fuel (Some added) keys indices w
  = rebuild fuel (filter (fun k => k ∉ added) keys) indices w
  /\ refresh_indices fuel None keys indices w = rebuild fuel keys indices w.
Proof.
  split.
  - revert indices w. induction keys as [|k keys IH]; intros indices w; [done|].
    cbn [refresh_indices is_added].
    destruct (existsb (Z.eqb k) added) eqn:E.
    + apply existsb_exists in E as (k' & Hin & ->%Z.eqb_eq).
      rewrite filter_cons_False by (intros Hnot; by apply Hnot, list_elem_of_In).
      apply IH.
    + rewrite filter_cons_True.
      * cbn [rebuild]. unfold bind.
        destruct (build_index fuel k w) as [[games| |] w0]; [apply IH|done..].
      * intros Hin. apply not_true_iff_false in E. apply E.
        apply existsb_exists. exists k. split; [by apply list_elem_of_In|apply Z.eqb_refl].
  - revert indices w. induction keys as [|k keys IH]; intros indices w; [done|].
    cbn [refresh_indices is_added rebuild]. unfold bind.
    destruct (build_index fuel k w) as [[games| |] w0]; [apply IH|done..].
Qed.

Lemma mkdir_there (depth : nat) (path : string) (parents : bool) (w : world) :
  is_dir (fs w) path = true -> Path_mkdir depth path parents true w = (Ret tt, w).
Proof.
  intros H. unfold is_dir in H.
  destruct (lookup_path (fs w) path) as [[| |]|] eqn:E; try discriminate.
  destruct depth; cbn [Path_mkdir]; unfold os_mkdir; rewrite E; simpl;
    unfold is_dir; by rewrite E.
Qed.

Lemma for_each_load_game_there fuel user_id (games : list GameInfo.t) (w : world) :
  Forall (fun g => is_Some (lookup_path (fs w) (game_path user_id g))) games ->
  for_each games (load_game fuel user_id) w = (Ret tt, w).
Proof.
  induction 1 as [|g games Hg _ IH]; [done|]. cbn [for_each].
  by rewrite (bind_Ret _ _ _ _ _ (load_game_there fuel user_id g w Hg)).
Qed.

Lemma load_user_games_there (fuel : nat) (limit : Z) (user_id : Z)
    (games : list GameInfo.t) (w : world) :
  (limit <= Z.of_nat (length games))%Z ->
  is_dir (fs w) ("./games/" +:+ pretty user_id) = true ->
  Forall (fun g => is_Some (lookup_path (fs w) (game_path user_id g)))
         (firstn (Z.to_nat limit) games) ->
  load_user_games fuel (Some limit) (user_id, games) w = (Ret tt, w).
Proof.
  intros Hlimit Hdir Hthere. unfold load_user_games.
  rewrite (bind_Ret _ _ _ _ _ (mkdir_there 2 _ true w Hdir)).
  unfold take. rewrite take_loop_firstn.
  replace (_ <=? _)%nat with true by (symmetry; apply Nat.leb_le; lia).
  by rewrite (bind_Ret _ _ _ _ _ (for_each_load_game_there fuel user_id _ w Hthere)).
Qed.

(** X18. When the archive directory of a user is there and the first
    [limit] games of the index are archived, the pass of [load_all_games]
    over this user, with that limit, returns without a request and without
    a change. *)
Theorem load_user_games_archived (fuel : nat) (limit : Z) (user_id : Z)
    (games : list GameInfo.t) (w : world) :
  (limit <= Z.of_nat (length games))%Z ->
  is_dir (fs w) ("./games/" +:+ pretty user_id) = true ->
  Forall (fun g => is_Some (lookup_path (fs w) (game_path user_id g)))
         (firstn (Z.to_nat limit) games) ->
  load_user_games fuel (Some limit) (user_id, games) w = (Ret tt, w).
Proof. apply load_user_games_there. Qed.

Lemma load_user_games_archived_witness :
  load_user_games 9 (Some 1) (5, map Scenario.game [7; 6]) Samples.archived
  = (Ret tt, Samples.archived).
Proof.
  refine (load_user_games_archived 9 1 5 (map Scenario.game [7; 6]) Samples.archived _ _ _).
  - simpl. lia.
  - vm_compute. reflexivity.
  - repeat constructor. vm_compute. eauto.
Defined.

(** ** list_user_games over several pages *)

Lemma next_page_hop srv url items rest data fuel w :
  server w = srv ->
  paginates srv ((url, items) :: rest) ->
  getitem data "next" = Ret (PStr url) ->
  exists data' w2,
    list_user_games_next (S (S fuel)) (InPage data []) w
    = list_user_games_next (S fuel) (InPage data' items) w2
    /\ getitem data' "next" = Ret (next_link rest)
    /\ same_disk w w2 /\ sent w2 = (sent w ++ [url])%list.
Proof.
  intros Hsrv [Hpage _] Hnext.
  destruct (Hpage (sent w)) as (data' & results & Hst & Hjson & Hres & Hiter & Hlink).
  rewrite <-Hsrv in *. exists data'. eexists. split; [|split; [exact Hlink|]].
  - cbn [list_user_games_next]. rewrite (bind_lift _ _ _ _ Hnext).
    rewrite (bind_lift _ _ _ url eq_refl).
    rewrite (bind_Ret _ _ _ _ _ (throttled_get_once fuel url 10 w Hst)).
    rewrite (bind_lift _ _ _ _ Hjson), (bind_lift _ _ _ _ Hres), (bind_lift _ _ _ _ Hiter).
    reflexivity.
  - split; [|reflexivity]. repeat split.
Qed.

Lemma first_page_hop srv user_id items rest fuel w :
  server w = srv ->
  paginates srv ((games_url user_id, items) :: rest) ->
  raise_for_status (server w (sent w) (games_url user_id)) = Ret tt ->
  exists data' w2,
    list_user_games_next (S (S fuel)) (Unstarted user_id) w
    = list_user_games_next (S fuel) (InPage data' items) w2
    /\ getitem data' "next" = Ret (next_link rest)
    /\ same_disk w w2 /\ sent w2 = (sent w ++ [games_url user_id])%list.
Proof.
  intros Hsrv [Hpage _] Hok.
  destruct (Hpage (sent w)) as (data' & results & Hst & Hjson & Hres & Hiter & Hlink).
  rewrite <-Hsrv in *. exists data'. eexists. split; [|split; [exact Hlink|]].
  - cbn [list_user_games_next].
    rewrite (bind_Ret _ _ _ _ _ (throttled_get_once fuel _ 10 w Hst)).
    rewrite (bind_lift _ _ _ _ Hok).
    rewrite (bind_lift _ _ _ _ Hjson), (bind_lift _ _ _ _ Hres), (bind_lift _ _ _ _ Hiter).
    reflexivity.
  - split; [|reflexivity]. repeat split.
Qed.

Lemma fetch_next_ok fuel n g w x w' :
  fetch fuel (S n) g w = (Ret x, w') -> fst (list_user_games_next fuel g w) <> OutOfFuel.
Proof.
  destruct fuel as [|fuel]; [discriminate|]. cbn [fetch]. unfold bind at 1.
  by destruct (list_user_games_next (S fuel) g w) as [[?| |] ?].
Qed.

Lemma fetch_from_next fuel n g g' w w2 :
  list_user_games_next (S (S fuel)) g w = list_user_games_next (S fuel) g' w2 ->
  fst (list_user_games_next (S fuel) g' w2) <> OutOfFuel ->
  fetch (S (S fuel)) (S n) g w = fetch (S (S fuel)) (S n) g' w2.
Proof.
  intros Heq Hok. cbn [fetch]. unfold bind at 1 3. rewrite Heq.
  destruct (list_user_games_next (S fuel) g' w2) as [r w'] eqn:E.
  by rewrite (list_user_games_next_extends (S fuel) (S (S fuel)) g' ltac:(lia) _ _ _ E Hok).
Qed.

Lemma fetch_item fuel n data item pending g w :
  GameInfo.from_api_dict item = Ret g ->
  fetch (S fuel) (S n) (InPage data (item :: pending)) w =
  (let* (rest, games) := fetch fuel n (InPage data pending) in ret (g :: rest, games)) w.
Proof.
  intros H. cbn [fetch list_user_games_next].
  unfold bind at 1. unfold bind at 1. unfold lift. rewrite H. reflexivity.
Qed.

Lemma map_outcome_cons_inv {A B} (f : A -> outcome B) x xs ys :
  map_outcome f (x :: xs) = Ret ys ->
  exists y ys', f x = Ret y /\ map_outcome f xs = Ret ys' /\ ys = y :: ys'.
Proof.
  cbn [map_outcome]. destruct (f x) as [y| |]; try discriminate.
  destruct (map_outcome f xs) as [ys'| |]; try discriminate.
  intros [= <-]. eauto.
Qed.

Lemma fetch_pending srv rest :
  (forall data games fuel n w,
      server w = srv -> getitem data "next" = Ret (next_link rest) ->
      map_outcome GameInfo.from_api_dict (concat (map snd rest)) = Ret games ->
      (length games + length rest < fuel)%nat -> (length games < n)%nat ->
      exists w', fetch fuel n (InPage data []) w = (Ret (games, Finished), w')
                 /\ same_disk w w' /\ sent w' = (sent w ++ map fst rest)%list) ->
  forall pending data games fuel n w,
    server w = srv -> getitem data "next" = Ret (next_link rest) ->
    map_outcome GameInfo.from_api_dict (pending ++ concat (map snd rest)) = Ret games ->
    (length games + length rest < fuel)%nat -> (length games < n)%nat ->
    exists w', fetch fuel n (InPage data pending) w = (Ret (games, Finished), w')
               /\ same_disk w w' /\ sent w' = (sent w ++ map fst rest)%list.
Proof.
  intros Hbase. induction pending as [|item pending IH];
    intros data games fuel n w Hsrv Hlink Hmap Hfuel Hn; [by apply Hbase|].
  apply map_outcome_cons_inv in Hmap as (g & games' & Hg & Hmap & ->).
  cbn [length] in *.
  destruct fuel as [|fuel]; [lia|]. destruct n as [|n]; [lia|].
  destruct (IH data games' fuel n w Hsrv Hlink Hmap ltac:(lia) ltac:(lia))
    as (w' & Hfetch & Hsame & Hsent).
  exists w'. split; [|done].
  rewrite (fetch_item _ _ _ _ _ _ _ Hg). by rewrite (bind_Ret _ _ _ _ _ Hfetch).
Qed.

Lemma fetch_pages srv rest :
  paginates srv rest ->
  forall pending data games fuel n w,
    server w = srv -> getitem data "next" = Ret (next_link rest) ->
    map_outcome GameInfo.from_api_dict (pending ++ concat (map snd rest)) = Ret games ->
    (length games + length rest < fuel)%nat -> (length games < n)%nat ->
    exists w', fetch fuel n (InPage data pending) w = (Ret (games, Finished), w')
               /\ same_disk w w' /\ sent w' = (sent w ++ map fst rest)%list.
Proof.
  induction rest as [|[url items] rest IH]; intros Hpages; apply fetch_pending.
  - intros data games fuel n w _ Hlink Hmap Hfuel Hn.
    injection Hmap as <-.
    destruct fuel as [|fuel]; [simpl in Hfuel; lia|]. destruct n as [|n]; [simpl in Hn; lia|].
    exists w. split; [|split; [done|by rewrite app_nil_r]].
    cbn [fetch list_user_games_next]. unfold bind at 1.
    by rewrite (bind_lift _ _ _ _ Hlink).
  - intros data games fuel n w Hsrv Hlink Hmap Hfuel Hn.
    cbn [map snd concat fst length] in *.
    destruct fuel as [|[|fuel]]; [lia|lia|]. destruct n as [|n]; [lia|].
    destruct (next_page_hop srv url items rest data fuel w Hsrv Hpages Hlink)
      as (data' & w2 & Hhop & Hlink' & Hsame & Hsent).
    assert (server w2 = srv) as Hsrv2 by (destruct Hsame as (_ & _ & ->); done).
    destruct Hpages as [_ Hpages].
    destruct (IH Hpages items data' games (S fuel) (S n) w2 Hsrv2 Hlink' Hmap
                ltac:(lia) ltac:(lia)) as (w0 & Hless & _).
    apply fetch_next_ok in Hless.
    rewrite (fetch_from_next _ _ _ _ _ _ Hhop Hless).
    destruct (IH Hpages items data' games (S (S fuel)) (S n) w2 Hsrv2 Hlink' Hmap
                ltac:(lia) ltac:(lia)) as (w' & Hfetch & Hsame' & Hsent').
    exists w'. split; [done|]. split; [by eapply same_disk_trans|].
    by rewrite Hsent', Hsent, <-app_assoc.
Qed.

Lemma fetch_all_pages fuel n user_id w first more games :
  paginates (server w) ((games_url user_id, first) :: more) ->
  raise_for_status (server w (sent w) (games_url user_id)) = Ret tt ->
  map_outcome GameInfo.from_api_dict (first ++ concat (map snd more)) = Ret games ->
  (length games < n)%nat ->
  (length games + length more + 2 <= fuel)%nat ->
  exists w',
    fetch fuel n (Unstarted user_id) w = (Ret (games, Finished), w')
    /\ same_disk w w'
    /\ sent w' = (sent w ++ games_url user_id :: map fst more)%list.
Proof.
  intros Hpages Hok Hmap Hn Hfuel.
  destruct fuel as [|[|fuel]]; [lia|lia|]. destruct n as [|n]; [lia|].
  destruct (first_page_hop _ user_id first more fuel w eq_refl Hpages Hok)
    as (data' & w2 & Hhop & Hlink' & Hsame & Hsent).
  assert (server w2 = server w) as Hsrv2 by (by destruct Hsame as (_ & _ & ->)).
  destruct Hpages as [_ Hpages].
  destruct (fetch_pages _ more Hpages first data' games (S fuel) (S n) w2 Hsrv2 Hlink' Hmap
              ltac:(lia) ltac:(lia)) as (w0 & Hless & _).
  apply fetch_next_ok in Hless.
  rewrite (fetch_from_next _ _ _ _ _ _ Hhop Hless).
  destruct (fetch_pages _ more Hpages first data' games (S (S fuel)) (S n) w2 Hsrv2 Hlink' Hmap
              ltac:(lia) ltac:(lia)) as (w' & Hfetch & Hsame' & Hsent').
  exists w'. split; [done|]. split; [by eapply same_disk_trans|].
  by rewrite Hsent', Hsent, <-app_assoc.
Qed.

Lemma two_pages_paginates (srv : list string -> string -> response) :
  srv = server Samples.two_pages ->
  paginates srv
    [(games_url 5, map (fun i => Scenario.api_item (Scenario.game i)) [7; 6]);
     (Scenario.page2, map (fun i => Scenario.api_item (Scenario.game i)) [5])].
Proof.
  intros ->. split; [|split; [|exact I]]; intros history; eexists _, _;
    (split; [vm_compute; discriminate|]); repeat split; vm_compute; reflexivity.
Qed.

(** X19. When the server serves a user's games in pages, the first without
    an error status, and every item normalizes, the generator of
    [list_user_games] yields the games of all pages in order, one request
    per page, and then ends. *)
Theorem list_user_games_follows_pages (fuel n : nat) (user_id : Z) (w : world)
    (first : list pyval) (more : list (string * list pyval)) (games : list GameInfo.t) :
  paginates (server w) ((games_url user_id, first) :: more) ->
  raise_for_status (server w (sent w) (games_url user_id)) = Ret tt ->
  map_outcome GameInfo.from_api_dict (first ++ concat (map snd more)) = Ret games ->
  (length games < n)%nat ->
  (length games + length more + 2 <= fuel)%nat ->
  fetched fuel n user_id w = Ret games
  /\ generator_after fuel n user_id w = Finished
  /\ sent (snd (fetch fuel n (Unstarted user_id) w))
     = (sent w ++ games_url user_id :: map fst more)%list
  /\ fs (snd (fetch fuel n (Unstarted user_id) w)) = fs w.
Proof.
  intros Hpages Hok Hmap Hn Hfuel.
  destruct (fetch_all_pages fuel n user_id w first more games Hpages Hok Hmap Hn Hfuel)
    as (w' & Hfetch & (Hfs & _) & Hsent).
  unfold fetched, generator_after. by rewrite Hfetch.
Qed.

Lemma list_user_games_follows_pages_witness :
  fetched 9 4 5 Samples.two_pages = Ret (map Scenario.game [7; 6; 5])
  /\ generator_after 9 4 5 Samples.two_pages = Finished
  /\ sent (snd (fetch 9 4 (Unstarted 5) Samples.two_pages)) = [games_url 5; Scenario.page2]
  /\ fs (snd (fetch 9 4 (Unstarted 5) Samples.two_pages)) = fs Samples.two_pages.
Proof.
  refine (list_user_games_follows_pages 9 4 5 Samples.two_pages
            (map (fun i => Scenario.api_item (Scenario.game i)) [7; 6])
            [(Scenario.page2, map (fun i => Scenario.api_item (Scenario.game i)) [5])]
            (map Scenario.game [7; 6; 5]) _ _ _ _ _).
  - by apply two_pages_paginates.
  - vm_compute. reflexivity.
  - vm_compute. reflexivity.
  - simpl. lia.
  - simpl. lia.
Defined.

Lemma mkdir_index_made (w w0 : world) :
  Path_mkdir 0 "./index" false true w = (Ret tt, w0) -> is_dir (fs w0) "./index" = true.
Proof.
  cbn [Path_mkdir]. unfold os_mkdir.
  change (dirname "./index") with ".". change (lookup_path (fs w) ".") with (Some Dir).
  destruct (lookup_path (fs w) "./index") as [e|] eqn:E; simpl.
  - destruct (is_dir (fs w) "./index") eqn:D; [|discriminate]. by intros [= <-].
  - intros [= <-]. unfold is_dir, lookup_path. simpl. by rewrite lookup_insert_eq.
Qed.

Lemma write_index_new (user_id : Z) (games : list GameInfo.t) (w : world) :
  lookup_path (fs w) (index_path user_id) = None ->
  is_dir (fs w) "./index" = true ->
  sigint w = None ->
  write_index user_id games w =
  (Ret tt, set_fs (<[index_path user_id := File (index_text games)]> (fs w)) w).
Proof.
  unfold write_index, write_file, is_dir. intros -> Hdir ->.
  rewrite dirname_index_path.
  by destruct (lookup_path (fs w) "./index") as [[| |]|].
Qed.

Lemma read_index_absent (user_id : Z) (w : world) :
  lookup_path (fs w) (index_path user_id) = None -> read_index user_id w = (Ret [], w).
Proof.
  intros H. unfold read_index, try_except, bind, read_file. by rewrite H.
Qed.

Lemma first_pull_world (fuel : nat) (user_id : Z) (w w0 : world)
    (first : list pyval) (more : list (string * list pyval)) (games : list GameInfo.t) :
  Path_mkdir 0 "./index" false true w = (Ret tt, w0) ->
  lookup_path (fs w0) (index_path user_id) = None ->
  sigint w0 = None ->
  paginates (server w0) ((games_url user_id, first) :: more) ->
  raise_for_status (server w0 (sent w0) (games_url user_id)) = Ret tt ->
  map_outcome GameInfo.from_api_dict (first ++ concat (map snd more)) = Ret games ->
  (2 <= length games)%nat ->
  (length games + length more + 2 <= fuel)%nat ->
  exists w',
    same_disk w0 w'
    /\ sent w' = (sent w0 ++ games_url user_id :: map fst more)%list
    /\ build_index fuel user_id w
       = (Ret games,
          set_fs (<[index_path user_id := File (index_text games)]> (fs w0)) w').
Proof.
  intros Hmk Hnone Hsig Hpages Hok Hmap Hlen Hfuel.
  destruct (fetch_all_pages fuel (S (length games)) user_id w0 first more games
              Hpages Hok Hmap ltac:(lia) Hfuel)
    as (w' & Hfetch & Hsame & Hsent).
  exists w'. split; [done|]. split; [done|].
  destruct Hsame as (Hfs & Hsig' & _). unfold build_index.
  rewrite (bind_Ret _ _ _ _ _ Hmk), (bind_Ret _ _ _ _ _ (read_index_absent _ _ Hnone)).
  rewrite (bind_Ret _ _ _ _ _
             (index_loop_runs_out [] games fuel _ 0%nat None [] _ _ _ Hfetch
                ltac:(by apply Forall_forall))).
  cbn beta iota. rewrite app_nil_r. change ([] ++ games)%list with games.
  destruct games as [|g1 [|g2 games]]; [simpl in Hlen; lia|simpl in Hlen; lia|].
  cbn [length Nat.add Nat.sub Nat.eqb negb].
  rewrite (bind_Ret _ _ _ _ _
             (write_index_new user_id _ w' ltac:(by rewrite Hfs)
                ltac:(rewrite Hfs; by eapply mkdir_index_made) ltac:(congruence))).
  by rewrite Hfs.
Qed.



(** ** get_all_indices *)

Lemma setitem_fresh {A} (k : Z) (v : A) (d : list (Z * A)) :
  k ∉ map fst d -> setitem k v d = (d ++ [(k, v)])%list.
Proof.
  induction d as [|[k' v'] d IH]; [done|]. cbn [map fst setitem app].
  intros Hk. apply not_elem_of_cons in Hk as [Hne Hk].
  replace (k =? k')%Z with false by (symmetry; by apply Z.eqb_neq).
  by rewrite IH.
Qed.

Lemma read_indices_users (index_of : Z -> list GameInfo.t) (w : world) (users : list Z) :
  forall acc,
    NoDup (map fst acc ++ users) ->
    (forall u, u ∈ users -> read_index u w = (Ret (index_of u), w)) ->
    read_indices (map (fun u => basename (index_path u)) users) acc w
    = (Ret (acc ++ map (fun u => (u, index_of u)) users)%list, w).
Proof.
  induction users as [|u users IH]; intros acc Hnd Hread.
  - by rewrite app_nil_r.
  - cbn [map read_indices].
    rewrite (bind_lift _ _ _ _ (index_file_stem u)).
    rewrite (bind_Ret _ _ _ _ _ (Hread u ltac:(apply list_elem_of_here))).
    apply NoDup_app in Hnd as (Hacc & Hdisj & Hus).
    apply NoDup_cons in Hus as [Hu Hus].
    rewrite setitem_fresh by (intros Hin; apply (Hdisj u Hin), list_elem_of_here).
    rewrite IH.
    + by rewrite <-app_assoc.
    + rewrite map_app. apply NoDup_app. split; [|split; [|done]].
      * apply NoDup_app. split; [done|]. split; [|apply NoDup_singleton].
        intros x Hx Hx'. apply list_elem_of_singleton in Hx' as ->.
        apply (Hdisj u Hx), list_elem_of_here.
      * intros x Hx Hx'. apply elem_of_app in Hx as [Hx|Hx].
        -- apply (Hdisj x Hx). by apply list_elem_of_further.
        -- apply list_elem_of_singleton in Hx as ->. done.
    + intros u' Hu'. apply Hread. by apply list_elem_of_further.
Qed.

Lemma get_all_indices_users (users : list Z) (names : list string)
    (index_of : Z -> list GameInfo.t) (w : world) :
  os_listdir "./index" w = (Ret names, w) ->
  filter (fun f => endswith f ".json" = true) names
  = map (fun u => basename (index_path u)) users ->
  NoDup users ->
  (forall u, u ∈ users -> read_index u w = (Ret (index_of u), w)) ->
  get_all_indices w = (Ret (map (fun u => (u, index_of u)) users), w).
Proof.
  intros Hls Hfiles Hnd Hread. unfold get_all_indices.
  rewrite (bind_Ret _ _ _ _ _ Hls). rewrite Hfiles.
  by rewrite (read_indices_users index_of w users [] Hnd Hread).
Qed.

(** X21. When the [.json] entries of the index directory are the index
    files of some users, each once, and each index reads,
    [get_all_indices] returns one entry per user, the id taken from the
    file name and the index read from the file, in the order of the
    listing. *)
Theorem get_all_indices_reads_each_index (users : list Z) (names : list string)
    (index_of : Z -> list GameInfo.t) (w : world) :
  os_listdir "./index" w = (Ret names, w) ->
  filter (fun f => endswith f ".json" = true) names
  = map (fun u => basename (index_path u)) users ->
  NoDup users ->
  (forall u, u ∈ users -> read_index u w = (Ret (index_of u), w)) ->
  get_all_indices w = (Ret (map (fun u => (u, index_of u)) users), w).
Proof. apply get_all_indices_users. Qed.

Lemma get_all_indices_reads_each_index_witness :
  get_all_indices Samples.archived
  = (Ret [(5, map Scenario.game [7; 6])], Samples.archived).
Proof.
  refine (get_all_indices_reads_each_index [5] ["5.json"]
            (fun _ => map Scenario.game [7; 6]) Samples.archived _ _ _ _).
  - vm_compute. reflexivity.
  - vm_compute. reflexivity.
  - apply NoDup_singleton.
  - intros u Hu. apply list_elem_of_singleton in Hu as ->. vm_compute. reflexivity.
Defined.

(** ** load_all_games with nothing left to do *)

(** X22. A pass with nothing left to do.  When every user with an index
    file is listed in [added], the archive directory of each is there and
    the first [limit] games of each index are archived, [load_all_games]
    with that limit returns, and the world is as it was: no request, no
    write. *)
Theorem load_all_games_nothing_to_do (fuel : nat) (limit : Z) (added users : list Z)
    (names : list string) (index_of : Z -> list GameInfo.t) (w : world) :
  os_listdir "./index" w = (Ret names, w) ->
  filter (fun f => endswith f ".json" = true) names
  = map (fun u => basename (index_path u)) users ->
  NoDup users ->
  (forall u, u ∈ users ->
     u ∈ added
     /\ read_index u w = (Ret (index_of u), w)
     /\ (limit <= Z.of_nat (length (index_of u)))%Z
     /\ is_dir (fs w) ("./games/" +:+ pretty u) = true
     /\ Forall (fun g => is_Some (lookup_path (fs w) (game_path u g)))
               (firstn (Z.to_nat limit) (index_of u))) ->
  load_all_games fuel (Some limit) (Some added) w = (Ret tt, w).
Proof.
  intros Hls Hfiles Hnd Husers. unfold load_all_games.
  rewrite (bind_Ret _ _ _ _ _
             (get_all_indices_users users names index_of w Hls Hfiles Hnd
                (fun u Hu => proj1 (proj2 (Husers u Hu))))).
  rewrite map_map. cbn [fst]. rewrite map_id.
  rewrite (bind_Ret _ _ _ _ _ (refresh_indices_added fuel added users _ w
                                 ltac:(apply Forall_forall; intros u Hu;
                                       apply (Husers u Hu)))).
  clear Hls Hfiles Hnd. induction users as [|u users IH]; [done|].
  cbn [map for_each].
  destruct (Husers u ltac:(apply list_elem_of_here)) as (_ & _ & Hlimit & Hdir & Hthere).
  rewrite (bind_Ret _ _ _ _ _ (load_user_games_there fuel limit u _ w Hlimit Hdir Hthere)).
  apply IH. intros u' Hu'. apply Husers. by apply list_elem_of_further.
Qed.

Lemma load_all_games_nothing_to_do_witness :
  load_all_games 9 (Some 1) (Some [5]) Samples.archived = (Ret tt, Samples.archived).
Proof.
  refine (load_all_games_nothing_to_do 9 1 [5] [5] ["5.json"]
            (fun _ => map Scenario.game [7; 6]) Samples.archived _ _ _ _).
  - vm_compute. reflexivity.
  - vm_compute. reflexivity.
  - apply NoDup_singleton.
  - intros u Hu. apply list_elem_of_singleton in Hu as ->.
    split; [apply list_elem_of_here|]. split; [vm_compute; reflexivity|].
    split; [simpl; lia|]. split; [vm_compute; reflexivity|].
    repeat constructor. vm_compute. eauto.
Defined.

(** ** GameInfo.from_dict *)

(** X23. Reading the persisted shape sanitizes the name of the game once
    more and takes the players as they are stored: [from_dict] of the
    [asdict] of a record is the record with the characters of its name
    filtered, whatever the names of its players. *)
Theorem from_dict_sanitizes_game_name (g : GameInfo.t) :
  exists name,
    GameInfo.from_dict (asdict g)
    = Ret (GameInfo.mk (GameInfo.id g) name (GameInfo.white g) (GameInfo.black g))
    /\ chars name = List.filter allowed_char (chars (GameInfo.name g)).
Proof.
  destruct g as [id name [wn wr] [bn br]].
  destruct (join_kept_filter (chars name)) as (out & Hout & Hchars).
  exists out. split; [|exact Hchars].
  unfold GameInfo.from_dict, asdict, Player_asdict, Player.from_dict.
  cbn [GameInfo.id GameInfo.name GameInfo.white GameInfo.black Player.name Player.rank] in *.
  cbn [getitem assoc String.eqb Ascii.eqb Bool.eqb obind].
  unfold sanitize_name. cbn [py_iter obind]. by rewrite Hout.
Qed.

(** ** Building the index twice *)

(** A value the codec reads back equals itself: it holds no NaN. *)
Lemma float_literal_not_nan (lit : string) :
  float_literal lit = true -> float.eqb (float.of_literal lit) (float.of_literal lit) = true.
Proof.
  unfold float_literal, float.of_literal, json.scan_number. intros H.
  destruct (String.eqb lit "NaN") eqn:E1; [apply String.eqb_eq in E1; by subst|].
  destruct (String.eqb lit "Infinity") eqn:E2; [done|].
  destruct (String.eqb lit "-Infinity") eqn:E3; [done|].
  destruct (match lit with
            | String c rest => if Ascii.eqb c "-" then (true, rest) else (false, lit)
            | EmptyString => (false, lit)
            end) as [neg s1].
  destruct (json.scan_int s1) as [[i s2]|]; [|discriminate].
  destruct (json.scan_frac s2) as [f s3]. destruct (json.scan_exp s3) as [e s4].
  destruct (float.scale10 _ _ _) as [n d].
  destruct (float.round n d) as [[m x]|]; simpl.
  - rewrite Bool.eqb_reflx, !Z.eqb_refl. apply orb_true_r.
  - apply Bool.eqb_reflx.
Qed.

Lemma assoc_distinct {A} (k : string) (v : A) (ps : list (string * A)) :
  distinct (map fst ps) = true -> (k, v) ∈ ps -> assoc k ps = Some v.
Proof.
  induction ps as [|[k' v'] ps IH]; [by intros _ ?%elem_of_nil|].
  cbn [map fst distinct assoc]. intros H Hin.
  apply andb_true_iff in H as [Hfresh Hrest].
  apply elem_of_cons in Hin as [[= -> ->]|Hin]; [by rewrite String.eqb_refl|].
  destruct (String.eqb k k') eqn:E; [|by apply IH].
  apply String.eqb_eq in E. subst k'. apply negb_true_iff in Hfresh.
  assert (existsb (String.eqb k) (map fst ps) = true) as Hex; [|congruence].
  apply existsb_exists. exists k. split; [|apply String.eqb_refl].
  apply in_map_iff. exists (k, v). split; [done|]. by apply list_elem_of_In.
Qed.

Lemma py_eq_refl (v : pyval) : plain v = true -> py_eq v v = true.
Proof.
  induction v as [ | b | z | l | s | items IH | pairs IH] using pyval_nested_ind;
    intros Hplain.
  - done.
  - simpl. apply Z.eqb_refl.
  - simpl. apply Z.eqb_refl.
  - simpl. by apply float_literal_not_nan.
  - simpl. apply String.eqb_refl.
  - cbn [plain] in Hplain. cbn [py_eq].
    induction IH as [|x items Hx _ IHitems]; [done|].
    cbn [forallb] in Hplain. apply andb_true_iff in Hplain as [Hpx Hpl].
    rewrite (Hx Hpx), orb_true_r. exact (IHitems Hpl).
  - cbn [plain] in Hplain. apply andb_true_iff in Hplain as [Hkeys Hplain].
    cbn [py_eq]. rewrite Nat.eqb_refl. cbn [andb].
    assert (forall ps, (forall k v, (k, v) ∈ ps -> (k, v) ∈ pairs) ->
                       (fix go (ps : list (string * pyval)) : bool :=
                          match ps with
                          | [] => true
                          | (k, v) :: ps' =>
                              match assoc k pairs with
                              | Some v' => (is_nan v && is_nan v') || py_eq v v'
                              | None => false
                              end && go ps'
                          end) ps = true) as Hgo; [|by apply Hgo].
    intros ps. induction ps as [|[k v] ps IHps]; intros Hsub; [done|].
    rewrite (assoc_distinct k v pairs Hkeys) by (apply Hsub, list_elem_of_here).
    rewrite Forall_forall in IH. rewrite forallb_forall in Hplain.
    pose proof (IH (k, v) (Hsub _ _ ltac:(apply list_elem_of_here))
                  (Hplain (k, v) ltac:(apply list_elem_of_In, Hsub, list_elem_of_here)))
      as Hv.
    cbn [snd] in Hv. rewrite Hv, orb_true_r.
    apply IHps. intros k' v' Hin. by apply Hsub, list_elem_of_further.
Qed.

Lemma fetch_first fuel n g w x xs g' w' :
  fetch fuel (S (S n)) g w = (Ret (x :: xs, g'), w') ->
  exists g1 w1, fetch fuel 1 g w = (Ret ([x], g1), w1).
Proof.
  destruct fuel as [|fuel]; [discriminate|]. cbn [fetch]. intros H.
  apply bind_Ret_inv in H as ([item g1] & w1 & Hnext & H).
  destruct item as [game|]; [|discriminate].
  apply bind_Ret_inv in H as ([rest g2] & w2 & _ & H). injection H as -> _ _ _.
  exists g1, w1. by rewrite (bind_Ret _ _ _ _ _ Hnext).
Qed.

(** X24. Building the index a second time.  After a first pull of two games
    or more that can be stored, when the server still serves the same
    pages, [build_index] returns the same games again and changes no file:
    it stops at the first game it fetches, which is the newest of the
    index. *)
Theorem build_index_again_changes_nothing (fuel : nat) (user_id : Z) (w w0 : world)
    (first : list pyval) (more : list (string * list pyval)) (games : list GameInfo.t) :
  Path_mkdir 0 "./index" false true w = (Ret tt, w0) ->
  lookup_path (fs w0) (index_path user_id) = None ->
  sigint w0 = None ->
  paginates (server w0) ((games_url user_id, first) :: more) ->
  (forall history, raise_for_status (server w0 history (games_url user_id)) = Ret tt) ->
  map_outcome GameInfo.from_api_dict (first ++ concat (map snd more)) = Ret games ->
  Forall storable games ->
  (2 <= length games)%nat ->
  (length games + length more + 2 <= fuel)%nat ->
  exists w1 w2,
    build_index fuel user_id w = (Ret games, w1)
    /\ build_index fuel user_id w1 = (Ret games, w2)
    /\ fs w2 = fs w1.
Proof.
  intros Hmk Hnone Hsig Hpages Hok Hmap Hstore Hlen Hfuel.
  destruct (first_pull_world fuel user_id w w0 first more games
              Hmk Hnone Hsig Hpages (Hok _) Hmap Hlen Hfuel)
    as (w' & (Hfs & Hsig' & Hsrv) & Hsent & Hbuild).
  set (w1 := set_fs _ w') in *.
  assert (lookup_path (fs w1) (index_path user_id) = Some (File (index_text games)))
    as Hfile by (unfold lookup_path; simpl; by rewrite lookup_insert_eq).
  assert (is_dir (fs w1) "./index" = true) as Hdir.
  { pose proof (mkdir_index_made _ _ Hmk) as Hdir. unfold is_dir, lookup_path in *.
    simpl in *. rewrite lookup_insert_ne; [done|]. intros Heq.
    apply (f_equal dirname) in Heq. by rewrite dirname_index_path in Heq. }
  assert (read_index user_id w1 = (Ret games, w1)) as Hread.
  { unfold read_index, try_except. rewrite (read_index_body _ _ _ Hfile).
    by rewrite (decode_index_text _ Hstore). }
  assert (paginates (server w1) ((games_url user_id, first) :: more)) as Hpages1
    by (unfold w1; simpl; by rewrite Hsrv).
  assert (raise_for_status (server w1 (sent w1) (games_url user_id)) = Ret tt) as Hok1
    by (unfold w1; simpl; rewrite Hsrv; apply Hok).
  destruct (fetch_all_pages fuel (S (length games)) user_id w1 first more games
              Hpages1 Hok1 Hmap ltac:(lia) Hfuel) as (w3 & Hfetch & _ & _).
  destruct games as [|g1 [|g2 games]]; [simpl in Hlen; lia|simpl in Hlen; lia|].
  apply fetch_first in Hfetch as (gen1 & w2 & Hfetch).
  exists w1, w2. split; [exact Hbuild|].
  destruct (fetch_keeps_disk _ _ _ _ _ _ Hfetch) as (Hfs2 & _).
  split; [|exact Hfs2]. unfold build_index.
  rewrite (bind_Ret _ _ _ _ _ (mkdir_index_there _ Hdir)), (bind_Ret _ _ _ _ _ Hread).
  rewrite (bind_Ret _ _ _ _ _
             (index_loop_stops (g1 :: g2 :: games) [] fuel _ 0%nat None [] w1 g1 gen1 w2
                Hfetch ltac:(constructor)
                ltac:(apply py_eq_refl; by destruct (Forall_inv Hstore) as (_ & ? & _)))).
  reflexivity.
Qed.

Lemma build_index_again_changes_nothing_witness :
  exists w1 w2,
    build_index 9 5 Samples.two_pages = (Ret (map Scenario.game [7; 6; 5]), w1)
    /\ build_index 9 5 w1 = (Ret (map Scenario.game [7; 6; 5]), w2)
    /\ fs w2 = fs w1.
Proof.
  refine (build_index_again_changes_nothing 9 5 Samples.two_pages
            (snd (Path_mkdir 0 "./index" false true Samples.two_pages))
            (map (fun i => Scenario.api_item (Scenario.game i)) [7; 6])
            [(Scenario.page2, map (fun i => Scenario.api_item (Scenario.game i)) [5])]
            (map Scenario.game [7; 6; 5]) _ _ _ _ _ _ _ _ _).
  - vm_compute. reflexivity.
  - vm_compute. reflexivity.
  - reflexivity.
  - by apply two_pages_paginates.
  - intros history. vm_compute. reflexivity.
  - vm_compute. reflexivity.
  - repeat constructor.
  - simpl. lia.
  - simpl. lia.
Defined.

(** ** One archive path per game *)

Lemma pretty_Z_numeral (z : Z) : forallb num_head (chars (pretty z)) = true.
Proof.
  assert (forall p, forallb num_head (chars (pretty (Npos p))) = true) as Hpos.
  { intros p. destruct (pretty_N_go_digits (Npos p)) as (Hall & _ & _).
    unfold pretty, pretty_N. case_decide; [done|].
    unfold all_digits in Hall. rewrite forallb_forall in *. intros c Hc.
    unfold num_head. by rewrite (Hall c Hc). }
  destruct z as [|p|p]; [done|apply Hpos|].
  change (pretty (Z.neg p)) with (String "-" (pretty (Npos p))).
  cbn [chars forallb]. by rewrite Hpos.
Qed.

Lemma app_inv_head_str (a x y : string) : a +:+ x = a +:+ y -> x = y.
Proof.
  induction a as [|c a IH]; [done|]. rewrite !app_cons. intros [= H]. by apply IH.
Qed.

Lemma split_at_sep (sep : ascii) (a b x y : string) :
  num_head sep = false ->
  forallb num_head (chars a) = true -> forallb num_head (chars b) = true ->
  a +:+ String sep x = b +:+ String sep y -> a = b /\ x = y.
Proof.
  intros Hsep. revert b. induction a as [|c a IH]; intros [|d b] Ha Hb.
  - by intros [= ->].
  - change ("" +:+ String sep x) with (String sep x). rewrite app_cons.
    intros [= -> _]. cbn [chars forallb] in Hb. by rewrite Hsep in Hb.
  - change ("" +:+ String sep y) with (String sep y). rewrite app_cons.
    intros [= -> _]. cbn [chars forallb] in Ha. by rewrite Hsep in Ha.
  - rewrite !app_cons. intros [= -> H].
    cbn [chars forallb] in Ha, Hb.
    apply andb_true_iff in Ha as [_ Ha]. apply andb_true_iff in Hb as [_ Hb].
    destruct (IH b Ha Hb H) as [-> ->]. done.
Qed.

(** X25. The archive path tells the user and, for integer ids, the game:
    two paths are the same only for the same user id and, when the ids of
    both games are integers, only for the same game id, whatever the
    names.  (The text of an id of another type can run into the name.) *)
Theorem game_path_tells_user_and_game (user_id user_id' : Z) (g g' : GameInfo.t) :
  game_path user_id g = game_path user_id' g' ->
  user_id = user_id'
  /\ (forall i i', GameInfo.id g = PInt i -> GameInfo.id g' = PInt i' -> i = i').
Proof.
  unfold game_path. intros H. apply app_inv_head_str in H.
  change ("/" +:+ ?X) with (String "/" X) in H.
  apply split_at_sep in H as [Hu H]; [|done|apply pretty_Z_numeral..].
  split; [by apply (inj pretty)|]. intros i i' Hi Hi'.
  rewrite !app_assoc_str in H. rewrite Hi, Hi' in H. cbn [py_str py_repr] in H.
  change (" " +:+ ?X) with (String " " X) in H.
  apply split_at_sep in H as [Hid _]; [|done|apply pretty_Z_numeral..].
  by apply (inj pretty).
Qed.

(** Two records of game 7 that differ in the ranks alone. *)
Lemma game_path_tells_user_and_game_witness :
  5 = 5
  /\ (forall i i',
        PInt 7 = PInt i ->
        GameInfo.id (GameInfo.mk (PInt 7) "game 7" (Scenario.player "shusaku" 2000)
                                 (Scenario.player "gennan" 1)) = PInt i' ->
        i = i').
Proof.
  apply (game_path_tells_user_and_game 5 5 (Scenario.game 7)
           (GameInfo.mk (PInt 7) "game 7" (Scenario.player "shusaku" 2000)
                        (Scenario.player "gennan" 1))).
  vm_compute. reflexivity.
Defined.

(** ** The throttle between two calls *)

(** X26. Two calls in a row, with a pause between them, both answered with
    a status other than 429: the second request goes out [max pause 500] ms
    after the first answer came, so never within 500 ms of it and with no
    wait when the pause was that long. *)
Theorem throttled_get_second_call_spaced (fuel fuel' : nat) (url url' : string)
    (delay delay' pause : Z) (w : world) :
  0 <= pause ->
  status_code (server w (sent w) url) <> 429 ->
  status_code (server w (sent w ++ [url]) url') <> 429 ->
  exists r w1 r' w2,
    throttled_get (S fuel) url delay w = (Ret r, w1)
    /\ throttled_get (S fuel') url' delay' (snd (sleep pause w1)) = (Ret r', w2)
    /\ clock w2 - elapsed r' = clock w1 + Z.max pause 500.
Proof.
  intros Hpause H1 H2.
  eexists _, _, _, _. split; [by apply throttled_get_once|].
  split; [apply throttled_get_once; exact H2|].
  unfold sleep, send_time, last_call. cbn [snd clock idle server sent].
  rewrite Z2N.id by lia. lia.
Qed.

Lemma throttled_get_second_call_spaced_witness :
  exists r w1 r' w2,
    throttled_get 1 (sgf_url (Scenario.game 7)) 10 Scenario.archive = (Ret r, w1)
    /\ throttled_get 1 (sgf_url (Scenario.game 8)) 10 (snd (sleep 200 w1)) = (Ret r', w2)
    /\ clock w2 - elapsed r' = clock w1 + Z.max 200 500.
Proof.
  refine (throttled_get_second_call_spaced 0 0 (sgf_url (Scenario.game 7))
            (sgf_url (Scenario.game 8)) 10 10 200 Scenario.archive _ _ _).
  - lia.
  - vm_compute. discriminate.
  - vm_compute. discriminate.
Defined.
